(** * jsonl-viewer: the query compiler, the evaluator and the record store

    A shallow embedding of the Go backend in [app.go]: the Lucene-style
    query parser ([parseLuceneQuery]), its evaluator
    ([evaluateLuceneQuery] and the [match*] helpers), the paginated record
    store ([GetRecords], [GetRecordByLineNumber], [SearchRecords]), the
    field statistics ([ParseJSONLFromString], [GetCommonFields]) and the
    export path ([GetAllRecords], [getDisplayJSON]).

    Conventions of the embedding.
    - A Go [string] is a byte string, modelled by [string].  The functions of
      package [strings] are written out on bytes; [ToLower] maps the ASCII
      letters (Go also maps the upper-case letters beyond ASCII).
    - A Go [int] is modelled by [Z]; no computation below comes near the
      64-bit range.
    - A nil pointer is [None]; [map[string]interface{}] is a [gmap] from
      field names to decoded JSON values.
    - A call that can fail returns a [Result]: a value, an [error] or a
      panic. *)

From stdpp Require Import gmap strings list fin_maps.
From Stdlib Require Import ZArith Ascii String DecimalString Sorted Lia.

Set Warnings "-register-all".
Local Open Scope string_scope.

(** ** Package [strings] *)

Module Strings.

(** [s[lo:hi]] and [s[lo:]]. *)
Definition Slice (s : string) (lo hi : nat) : string := substring lo (hi - lo) s.
Definition SliceFrom (s : string) (lo : nat) : string := Slice s lo (String.length s).

Definition HasPrefix (s p : string) : bool := String.prefix p s.

Definition HasSuffix (s suffix : string) : bool :=
  (String.length suffix <=? String.length s)%nat
  && String.eqb (SliceFrom s (String.length s - String.length suffix)) suffix.

Fixpoint bytes (l : list N) : string :=
  match l with
  | [] => EmptyString
  | b :: l' => String (ascii_of_N b) (bytes l')
  end.

(** The white space of [unicode.IsSpace] in UTF-8: the six ASCII bytes tab,
    line feed, vertical tab, form feed, carriage return and space, then
    U+0085, U+00A0, U+1680, U+2000 to U+200A, U+2028, U+2029, U+202F, U+205F
    and U+3000. *)
Definition spaceRunes : list string :=
  map bytes
    [[9]; [10]; [11]; [12]; [13]; [32];
     [194; 133]; [194; 160]; [225; 154; 128];
     [226; 128; 128]; [226; 128; 129]; [226; 128; 130]; [226; 128; 131];
     [226; 128; 132]; [226; 128; 133]; [226; 128; 134]; [226; 128; 135];
     [226; 128; 136]; [226; 128; 137]; [226; 128; 138];
     [226; 128; 168]; [226; 128; 169]; [226; 128; 175];
     [226; 129; 159]; [227; 128; 128]]%N.

(** The width of the white-space rune that [s] starts with, or ends with. *)
Definition leadingSpace (s : string) : option nat :=
  option_map String.length (List.find (HasPrefix s) spaceRunes).

Definition trailingSpace (s : string) : option nat :=
  option_map String.length (List.find (HasSuffix s) spaceRunes).

(** [strings.TrimSpace]: leading white-space runes are dropped, then
    trailing ones.  Each step drops at least one byte, so the length of the
    string bounds the number of steps. *)
Fixpoint trimLeftSteps (steps : nat) (s : string) : string :=
  match steps with
  | O => s
  | S n =>
      match leadingSpace s with
      | Some width => trimLeftSteps n (SliceFrom s width)
      | None => s
      end
  end.

Fixpoint trimRightSteps (steps : nat) (s : string) : string :=
  match steps with
  | O => s
  | S n =>
      match trailingSpace s with
      | Some width => trimRightSteps n (Slice s 0 (String.length s - width))
      | None => s
      end
  end.

Definition TrimLeftSpace (s : string) : string := trimLeftSteps (String.length s) s.
Definition TrimRightSpace (s : string) : string := trimRightSteps (String.length s) s.

Definition TrimSpace (s : string) : string := TrimRightSpace (TrimLeftSpace s).

(** [Contains s substr]: some suffix of [s] starts with [substr]. *)
Fixpoint Contains (s substr : string) : bool :=
  if String.prefix substr s then true
  else match s with
       | EmptyString => false
       | String _ s' => Contains s' substr
       end.

(** [strings.Split] for a non-empty separator: the occurrences are taken
    left to right and do not overlap.  [skip] counts the bytes of a matched
    separator that are still to be passed over. *)
Fixpoint splitFrom (sep : string) (skip : nat) (s : string) : list string :=
  match s with
  | EmptyString => [EmptyString]
  | String c s' =>
      match skip with
      | S k => splitFrom sep k s'
      | O =>
          if String.prefix sep s
          then EmptyString :: splitFrom sep (String.length sep - 1) s'
          else match splitFrom sep 0 s' with
               | h :: t => String c h :: t
               | [] => [String c EmptyString]
               end
      end
  end.

Definition Split (s sep : string) : list string := splitFrom sep 0 s.

(** [strings.SplitN s sep 2]: cut at the first occurrence of [sep]. *)
Fixpoint cutFirst (sep : string) (s : string) : option (string * string) :=
  if String.prefix sep s
  then Some (EmptyString, SliceFrom s (String.length sep))
  else match s with
       | EmptyString => None
       | String c s' =>
           match cutFirst sep s' with
           | Some (a, b) => Some (String c a, b)
           | None => None
           end
       end.

Definition SplitN2 (s sep : string) : list string :=
  match cutFirst sep s with
  | Some (a, b) => [a; b]
  | None => [s]
  end.

(** [strings.ReplaceAll] for a non-empty [old]. *)
Fixpoint replaceFrom (old new : string) (skip : nat) (s : string) : string :=
  match s with
  | EmptyString => EmptyString
  | String c s' =>
      match skip with
      | S k => replaceFrom old new k s'
      | O =>
          if String.prefix old s
          then new ++ replaceFrom old new (String.length old - 1) s'
          else String c (replaceFrom old new 0 s')
      end
  end.

Definition ReplaceAll (s old new : string) : string := replaceFrom old new 0 s.

Definition lowerByte (c : ascii) : ascii :=
  let n := N_of_ascii c in
  if ((65 <=? n) && (n <=? 90))%N then ascii_of_N (n + 32) else c.

Fixpoint ToLower (s : string) : string :=
  match s with
  | EmptyString => EmptyString
  | String c s' => String (lowerByte c) (ToLower s')
  end.

End Strings.
Import Strings.

(** The double-quote byte, as a one-byte string. *)
Definition dq : string := String (ascii_of_N 34) EmptyString.

(** ** The query tree *)

(** [LuceneQuery]: [Type] is one of [term], [field], [and], [or], [not],
    [wildcard], [phrase]; [Left], [Right] and [Query] are pointers. *)
Inductive LuceneQuery : Type := mkLuceneQuery {
  QType : string;
  Field : string;
  Value : string;
  Left : option LuceneQuery;
  Right : option LuceneQuery;
  Query : option LuceneQuery
}.

Definition leafNode (ty field value : string) : LuceneQuery :=
  mkLuceneQuery ty field value None None None.

Definition binNode (ty : string) (l r : option LuceneQuery) : LuceneQuery :=
  mkLuceneQuery ty EmptyString EmptyString l r None.

Definition notNode (q : option LuceneQuery) : LuceneQuery :=
  mkLuceneQuery "not" EmptyString EmptyString None None q.

(** The loop [for i := 1; i < len(parts); i++] of the [OR] and [AND]
    branches: [left] is re-wrapped once per remaining part. *)
Definition foldParts (ty : string) (parse : string -> option LuceneQuery)
    (left : option LuceneQuery) (rest : list string) : option LuceneQuery :=
  fold_left (fun left part => Some (binNode ty left (parse (TrimSpace part))))
            rest left.

Definition isQuoted (value : string) : bool :=
  HasPrefix value dq && HasSuffix value dq && (1 <? String.length value)%nat.

Definition hasWildcard (value : string) : bool :=
  Contains value "*" || Contains value "?".

(** The part of [parseLuceneQuery] below the [NOT] branch: the
    classification of an atom. *)
Definition parseAtom (query : string) : LuceneQuery :=
  let unqualified :=
    if isQuoted query
    then leafNode "phrase" EmptyString (Slice query 1 (String.length query - 1))
    else if hasWildcard query
    then leafNode "wildcard" EmptyString query
    else leafNode "term" EmptyString query in
  if Contains query ":" then
    match SplitN2 query ":" with
    | [p0; p1] =>
        let field := TrimSpace p0 in
        let value := TrimSpace p1 in
        if isQuoted value
        then leafNode "phrase" field (Slice value 1 (String.length value - 1))
        else if hasWildcard value
        then leafNode "wildcard" field value
        else leafNode "field" field value
    | _ => unqualified
    end
  else unqualified.

(** The body of [parseLuceneQuery]; its recursive calls go through
    [parse].  The tests [len(parts) >= 2] are kept as the source has them. *)
Definition parseBody (parse : string -> option LuceneQuery) (query : string)
    : option LuceneQuery :=
  if String.eqb (TrimSpace query) EmptyString then None
  else
    let query := TrimSpace query in
    let afterOr :=
      let afterAnd :=
        if HasPrefix query "NOT "
        then Some (notNode (parse (TrimSpace (SliceFrom query 4))))
        else Some (parseAtom query) in
      if Contains query " AND " then
        match Split query " AND " with
        | p0 :: p1 :: rest =>
            foldParts "and" parse (parse (TrimSpace p0)) (p1 :: rest)
        | _ => afterAnd
        end
      else afterAnd in
    if Contains query " OR " then
      match Split query " OR " with
      | p0 :: p1 :: rest =>
          foldParts "or" parse (parse (TrimSpace p0)) (p1 :: rest)
      | _ => afterOr
      end
    else afterOr.

(** [parseLuceneQuery], with the recursion depth bounded by [fuel]: every
    recursive call is on a strictly shorter string, so the length of the
    query plus one is enough ([parseFuel_enough] below). *)
Fixpoint parseFuel (fuel : nat) (query : string) : option LuceneQuery :=
  match fuel with
  | O => None
  | S fuel' => parseBody (parseFuel fuel') query
  end.

Definition parseLuceneQuery (query : string) : option LuceneQuery :=
  parseFuel (S (String.length query)) query.

(** ** Decoded JSON values *)

(** What [json.Unmarshal] stores in an [interface{}]: [nil], [bool],
    [float64], [string], [[]interface{}] and [map[string]interface{}].
    [JNumber n] is the [float64] of the integer [n], for [n] of magnitude
    up to [2^53], where every integer is a [float64] and its shortest
    decimal form has the digits of [n].  A [float64] with a fraction, or
    beyond [2^53], has no counterpart here: the values below are those of
    JSON texts whose numbers are such integers. *)
Inductive JSONValue : Type :=
  | JNull
  | JBool (b : bool)
  | JNumber (n : Z)
  | JString (s : string)
  | JArray (items : list JSONValue)
  | JObject (members : list (string * JSONValue)).

Definition formatInt (n : Z) : string := NilZero.string_of_int (Z.to_int n).

Fixpoint stripZeros (digits : string) : string :=
  match digits with
  | EmptyString => EmptyString
  | String c rest =>
      match stripZeros rest with
      | EmptyString => if Ascii.eqb c "0" then EmptyString else String c EmptyString
      | t => String c t
      end
  end.

(** The verb [%v] on a [float64] of integer value: the format [%g] with the
    shortest digits, which is plain decimal below [10^6] and
    [d.ddde+XX] from there on. *)
Definition formatG (n : Z) : string :=
  if (Z.abs n <? 1000000)%Z then formatInt n
  else
    let digits := formatInt (Z.abs n) in
    let exponent := (String.length digits - 1)%nat in
    let fraction := stripZeros (SliceFrom digits 1) in
    (if (n <? 0)%Z then "-" else EmptyString)
    ++ Slice digits 0 1
    ++ (if String.eqb fraction EmptyString then EmptyString else "." ++ fraction)
    ++ "e+"
    ++ (if (exponent <? 10)%nat then "0" else EmptyString)
    ++ formatInt (Z.of_nat exponent).

Fixpoint Join (parts : list string) (sep : string) : string :=
  match parts with
  | [] => EmptyString
  | [p] => p
  | p :: rest => p ++ sep ++ Join rest sep
  end.

(** Insertion sort by key, the order in which [fmt] and [encoding/json]
    write the members of a map (keys compared byte by byte). *)
Fixpoint insertByKey {A} (kv : string * A) (l : list (string * A)) : list (string * A) :=
  match l with
  | [] => [kv]
  | kv' :: l' =>
      if String.leb (fst kv) (fst kv') then kv :: l else kv' :: insertByKey kv l'
  end.

Fixpoint sortByKey {A} (l : list (string * A)) : list (string * A) :=
  match l with
  | [] => []
  | kv :: l' => insertByKey kv (sortByKey l')
  end.

(** [fmt.Sprintf("%v", v)]. *)
Fixpoint Sprint (v : JSONValue) : string :=
  match v with
  | JNull => "<nil>"
  | JBool b => if b then "true" else "false"
  | JNumber n => formatG n
  | JString s => s
  | JArray items => "[" ++ Join (map Sprint items) " " ++ "]"
  | JObject members =>
      "map["
      ++ Join (map (fun kv : string * string => fst kv ++ ":" ++ snd kv)
                   (sortByKey (map (fun kv => (fst kv, Sprint (snd kv))) members)))
              " "
      ++ "]"
  end.

(** ** Records and the application state *)

Record JSONRecord : Type := mkJSONRecord {
  LineNumber : Z;
  Content : gmap string JSONValue;
  RawJSON : string
}.

Record JSONLFile : Type := mkJSONLFile {
  Name : string;
  Path : string;
  Size : Z;
  Records : Z
}.

Record RecordCache : Type := mkRecordCache {
  records : list JSONRecord;
  pageSize : Z;
  totalCount : Z
}.

Record App : Type := mkApp {
  currentFile : option JSONLFile;
  appRecords : list JSONRecord;
  cache : option RecordCache
}.

(** The sentinel errors of [app.go] and the [JSONLError] that wraps them. *)
Inductive Sentinel : Type :=
  | ErrInvalidJSONL
  | ErrFileNotFound
  | ErrClipboardEmpty
  | ErrParsingFailed
  | ErrInvalidLineNum
  | ErrNoFileLoaded.

Record JSONLError : Type := mkJSONLError {
  Message : string;
  ErrLineNumber : Z;
  Line : string;
  Err : Sentinel
}.

Definition errNoFile : JSONLError :=
  mkJSONLError "No file currently loaded" 0 EmptyString ErrNoFileLoaded.

(** ** The evaluator *)

Definition foldCase (caseSensitive : bool) (s : string) : string :=
  if caseSensitive then s else ToLower s.

Definition matchFieldValue (fieldValue : JSONValue) (searchValue : string)
    (caseSensitive : bool) : bool :=
  match fieldValue with
  | JNull => false
  | _ =>
      let fieldStr := Sprint fieldValue in
      let searchStr := foldCase caseSensitive searchValue in
      let targetStr := foldCase caseSensitive fieldStr in
      Contains targetStr searchStr
  end.

Definition matchPhrase (text phrase : string) (caseSensitive : bool) : bool :=
  if String.eqb text EmptyString then false
  else Contains (foldCase caseSensitive text) (foldCase caseSensitive phrase).

Definition simpleWildcardMatch (text pattern : string) : bool :=
  if String.eqb pattern "*" then true
  else if negb (Contains pattern "*") && negb (Contains pattern "?")
  then Contains text pattern
  else if HasPrefix pattern "*" && HasSuffix pattern "*"
  then Contains text (Slice pattern 1 (String.length pattern - 1))
  else if HasPrefix pattern "*"
  then HasSuffix text (SliceFrom pattern 1)
  else if HasSuffix pattern "*"
  then HasPrefix text (Slice pattern 0 (String.length pattern - 1))
  else Contains text (ReplaceAll pattern "*" EmptyString).

(** [regexPattern] is built and never used, as in the source. *)
Definition matchWildcard (text pattern : string) (caseSensitive : bool) : bool :=
  if String.eqb text EmptyString then false
  else
    let searchStr := foldCase caseSensitive pattern in
    let targetStr := foldCase caseSensitive text in
    let regexPattern :=
      "^" ++ ReplaceAll (ReplaceAll searchStr "*" ".*") "?" "." ++ "$" in
    simpleWildcardMatch targetStr searchStr.

Definition matchTerm (text term : string) (caseSensitive : bool) : bool :=
  if String.eqb text EmptyString then false
  else Contains (foldCase caseSensitive text) (foldCase caseSensitive term).

(** The body of [evaluateLuceneQuery] on a non-nil node. *)
Fixpoint evalNode (query : LuceneQuery) (record : JSONRecord)
    (caseSensitive : bool) : bool :=
  match query with
  | mkLuceneQuery ty field value lhs rhs sub =>
      if String.eqb ty "and" then
        match lhs with
        | Some l => evalNode l record caseSensitive
        | None => false
        end
        && match rhs with
           | Some r => evalNode r record caseSensitive
           | None => false
           end
      else if String.eqb ty "or" then
        match lhs with
        | Some l => evalNode l record caseSensitive
        | None => false
        end
        || match rhs with
           | Some r => evalNode r record caseSensitive
           | None => false
           end
      else if String.eqb ty "not" then
        negb match sub with
             | Some q => evalNode q record caseSensitive
             | None => false
             end
      else if String.eqb ty "field" then
        match Content record !! field with
        | Some fieldValue => matchFieldValue fieldValue value caseSensitive
        | None => false
        end
      else if String.eqb ty "phrase" then
        if negb (String.eqb field EmptyString) then
          match Content record !! field with
          | Some fieldValue => matchPhrase (Sprint fieldValue) value caseSensitive
          | None => false
          end
        else matchPhrase (RawJSON record) value caseSensitive
      else if String.eqb ty "wildcard" then
        if negb (String.eqb field EmptyString) then
          match Content record !! field with
          | Some fieldValue => matchWildcard (Sprint fieldValue) value caseSensitive
          | None => false
          end
        else matchWildcard (RawJSON record) value caseSensitive
      else if String.eqb ty "term" then
        if negb (String.eqb field EmptyString) then
          match Content record !! field with
          | Some fieldValue => matchFieldValue fieldValue value caseSensitive
          | None => false
          end
        else matchTerm (RawJSON record) value caseSensitive
      else false
  end.

Definition evaluateLuceneQuery (query : option LuceneQuery) (record : JSONRecord)
    (caseSensitive : bool) : bool :=
  match query with
  | None => false
  | Some q => evalNode q record caseSensitive
  end.

(** ** The record store *)

Local Open Scope Z_scope.

(** The outcome of a call: a value, a returned [error], or a run-time panic
    (a slice expression out of range). *)
Inductive Result (A : Type) : Type :=
  | Ok (a : A)
  | Fail (e : JSONLError)
  | Panic.
Arguments Ok {A} a.
Arguments Fail {A} e.
Arguments Panic {A}.

(** [l[lo:hi]] for [0 <= lo <= hi <= len(l)]. *)
Definition sliceZ {A} (l : list A) (lo hi : Z) : list A :=
  take (Z.to_nat (hi - lo)) (drop (Z.to_nat lo) l).

Definition lenZ {A} (l : list A) : Z := Z.of_nat (List.length l).

(** [PaginatedRecords]; the fields carry the prefix [pg]. *)
Record PaginatedRecords : Type := mkPaginatedRecords {
  pgRecords : list JSONRecord;
  pgOffset : Z;
  pgLimit : Z;
  pgTotal : Z;
  pgHasMore : bool
}.

(** The slice expression [records[offset:endIndex]] panics out of range;
    every cache is built with [totalCount = len(records)], for which the
    bounds below hold. *)
Definition GetRecords (a : App) (offset limit : Z) : Result PaginatedRecords :=
  match currentFile a, cache a with
  | Some _, Some c =>
      let offset := if offset <? 0 then 0 else offset in
      let limit := if limit <=? 0 then pageSize c else limit in
      let limit := if 1000 <? limit then 1000 else limit in
      let totalRecords := totalCount c in
      if totalRecords <=? offset then
        Ok (mkPaginatedRecords [] offset limit totalRecords false)
      else
        let endIndex := offset + limit in
        let endIndex := if totalRecords <? endIndex then totalRecords else endIndex in
        if (offset <=? endIndex) && (endIndex <=? lenZ (records c)) then
          Ok (mkPaginatedRecords (sliceZ (records c) offset endIndex)
                offset limit totalRecords (endIndex <? totalRecords))
        else Panic
  | _, _ => Fail errNoFile
  end.

Definition GetRecordByLineNumber (a : App) (lineNumber : Z) : Result JSONRecord :=
  match currentFile a, cache a with
  | Some _, Some c =>
      if lineNumber <=? 0 then
        Fail (mkJSONLError "Line number must be greater than 0" lineNumber
                EmptyString ErrInvalidLineNum)
      else
        match List.find (fun record => LineNumber record =? lineNumber) (records c) with
        | Some record => Ok record
        | None =>
            Fail (mkJSONLError "Record not found at specified line number" lineNumber
                    EmptyString ErrInvalidLineNum)
        end
  | _, _ => Fail errNoFile
  end.

(** ** Search *)

(** [SearchOptions] (prefix [opt]) and [SearchResult] (prefix [sr]). *)
Record SearchOptions : Type := mkSearchOptions {
  optQuery : string;
  optCaseSensitive : bool;
  optUseLucene : bool;
  optSelectedField : string;
  optOffset : Z;
  optLimit : Z
}.

Record SearchResult : Type := mkSearchResult {
  srRecords : list JSONRecord;
  srOffset : Z;
  srLimit : Z;
  srTotal : Z;
  srTotalMatches : Z;
  srHasMore : bool;
  srQuery : string
}.

(** [query] arrives lower-cased by the caller when the search is
    case-insensitive.  The loop over the fields stops at the first match, so
    its result is a disjunction over the values. *)
Definition recordMatches (record : JSONRecord) (query : string)
    (caseSensitive : bool) : bool :=
  let searchText := foldCase caseSensitive (RawJSON record) in
  if Contains searchText query then true
  else existsb (fun kv : string * JSONValue =>
                  Contains (foldCase caseSensitive (Sprint (snd kv))) query)
               (map_to_list (Content record)).

(** [SearchRecords] with the query compiler as a parameter [compile]. *)
Definition SearchRecordsWith (compile : string -> option LuceneQuery)
    (a : App) (options : SearchOptions) : Result SearchResult :=
  match currentFile a, cache a with
  | Some _, Some c =>
      if String.eqb (TrimSpace (optQuery options)) EmptyString then
        Ok (mkSearchResult [] (optOffset options) (optLimit options) 0 0 false
              (optQuery options))
      else
        let offset := if optOffset options <? 0 then 0 else optOffset options in
        let limit := if optLimit options <=? 0 then 50 else optLimit options in
        let limit := if 1000 <? limit then 1000 else limit in
        let matchingRecords :=
          if optUseLucene options then
            match compile (optQuery options) with
            | Some luceneQuery =>
                List.filter (fun record =>
                               evaluateLuceneQuery (Some luceneQuery) record
                                 (optCaseSensitive options))
                            (records c)
            | None => []
            end
          else
            let query := foldCase (optCaseSensitive options) (optQuery options) in
            List.filter (fun record =>
                           if negb (String.eqb (optSelectedField options) EmptyString)
                              && negb (String.eqb (optSelectedField options) "all")
                           then match Content record !! optSelectedField options with
                                | Some fieldValue =>
                                    matchFieldValue fieldValue (optQuery options)
                                      (optCaseSensitive options)
                                | None => false
                                end
                           else recordMatches record query (optCaseSensitive options))
                        (records c) in
        let totalMatches := lenZ matchingRecords in
        let startIndex := offset in
        if totalMatches <=? startIndex then
          Ok (mkSearchResult [] offset limit (totalCount c) totalMatches false
                (optQuery options))
        else
          let endIndex := startIndex + limit in
          let endIndex := if totalMatches <? endIndex then totalMatches else endIndex in
          Ok (mkSearchResult (sliceZ matchingRecords startIndex endIndex)
                offset limit (totalCount c) totalMatches (endIndex <? totalMatches)
                (optQuery options))
  | _, _ => Fail errNoFile
  end.

Definition SearchRecords : App -> SearchOptions -> Result SearchResult :=
  SearchRecordsWith parseLuceneQuery.

(** ** Field statistics *)

(** [for field := range content { fieldCounts[field]++ }] *)
Definition countFields (content : gmap string JSONValue)
    (fieldCounts : gmap string Z) : gmap string Z :=
  map_fold (fun field _ counts => <[field := default 0 (counts !! field) + 1]> counts)
           fieldCounts content.

(** The closing loop of [ParseJSONL], [ParseJSONLFromString] and
    [GetCommonFields]: the fields whose count reaches [totalRecords / 2],
    in the iteration order of the map (which Go leaves unspecified). *)
Definition commonFieldsOf (fieldCounts : gmap string Z) (totalRecords : Z)
    : list string :=
  let threshold := Z.quot totalRecords 2 in
  map fst (List.filter (fun fc : string * Z => threshold <=? snd fc)
                       (map_to_list fieldCounts)).

Definition GetCommonFields (a : App) : Result (list string) :=
  match currentFile a, cache a with
  | Some _, Some c =>
      let totalRecords := lenZ (records c) in
      let fieldCounts :=
        fold_left (fun counts record => countFields (Content record) counts)
                  (records c) ∅ in
      Ok (commonFieldsOf fieldCounts totalRecords)
  | _, _ => Fail errNoFile
  end.

Record FileStats : Type := mkFileStats {
  TotalLines : Z;
  ValidRecords : Z;
  InvalidLines : list Z;
  CommonFields : list string;
  FileSize : Z
}.

(** The line-feed byte, as a one-byte string. *)
Definition nl : string := String (ascii_of_N 10) EmptyString.

Section Ingest.

(** [json.Unmarshal] into a [map[string]interface{}]: [None] when it returns
    an error. *)
Variable Unmarshal : string -> option (gmap string JSONValue).

(** The variables of the parsing loop. *)
Record ParseState : Type := mkParseState {
  psRecords : list JSONRecord;
  psInvalidLines : list Z;
  psFieldCounts : gmap string Z;
  psTotalRecords : Z
}.

(** One iteration: [raw] is the line as read and [lineNumber] its 1-based
    position. *)
Definition parseLine (st : ParseState) (lineNumber : Z) (raw : string) : ParseState :=
  let line := TrimSpace raw in
  if String.eqb line EmptyString then st
  else
    match Unmarshal line with
    | None =>
        mkParseState (psRecords st) (psInvalidLines st ++ [lineNumber])
          (psFieldCounts st) (psTotalRecords st)
    | Some content =>
        mkParseState (psRecords st ++ [mkJSONRecord lineNumber content line])
          (psInvalidLines st) (countFields content (psFieldCounts st))
          (psTotalRecords st + 1)
    end.

Fixpoint parseLoop (st : ParseState) (lineNumber : Z) (lines : list string)
    : ParseState :=
  match lines with
  | [] => st
  | raw :: rest => parseLoop (parseLine st lineNumber raw) (lineNumber + 1) rest
  end.

Definition parseLines (lines : list string) (fileSize : Z)
    : list JSONRecord * FileStats :=
  let st := parseLoop (mkParseState [] [] ∅ 0) 1 lines in
  (psRecords st,
   mkFileStats (lenZ lines) (psTotalRecords st) (psInvalidLines st)
     (commonFieldsOf (psFieldCounts st) (psTotalRecords st)) fileSize).

(** [ParseJSONL] on the lines that the scanner yields for the file. *)
Definition ParseJSONL (scanned : list string) (fileSize : Z)
    : list JSONRecord * FileStats :=
  parseLines scanned fileSize.

Definition ParseJSONLFromString (content : string) : list JSONRecord * FileStats :=
  parseLines (Split content nl) (Z.of_nat (String.length content)).

(** The file system as the backend reads it: the lines that a
    [bufio.Scanner] yields for a path, [None] when the file cannot be opened
    or read. *)
Variable scanFile : string -> option (list string).

(** [filepath.Base]. *)
Variable Base : string -> string.

(** [LoadJSONLFile]: the new state and the file's metadata; [fileSize] is
    what [os.Stat] reports, and the two time stamps are left out.  The
    failures of [os.Stat], of opening the file, of [file.Stat] and of the
    scanner are one failure here, under the message of the first of them:
    what is proved of this function below is proved of its successful
    calls. *)
Definition LoadJSONLFile (a : App) (filePath : string) (fileSize : Z)
    : Result (App * JSONLFile) :=
  if String.eqb filePath EmptyString then
    Fail (mkJSONLError "File path cannot be empty" 0 EmptyString ErrFileNotFound)
  else
    match scanFile filePath with
    | None =>
        Fail (mkJSONLError "File not found or cannot be accessed" 0 EmptyString
                ErrFileNotFound)
    | Some scanned =>
        let '(recs, stats) := ParseJSONL scanned fileSize in
        let jsonlFile :=
          mkJSONLFile (Base filePath) filePath fileSize (ValidRecords stats) in
        Ok (mkApp (Some jsonlFile) recs (Some (mkRecordCache recs 50 (lenZ recs))),
            jsonlFile)
    end.

(** ** Export *)

(** The loop of [GetAllRecords]; [lineNumber] advances on every path. *)
Fixpoint exportLoop (searchQuery : string) (lineNumber : Z) (scanned : list string)
    : list JSONRecord :=
  match scanned with
  | [] => []
  | raw :: rest =>
      let line := TrimSpace raw in
      if String.eqb line EmptyString then exportLoop searchQuery (lineNumber + 1) rest
      else
        match Unmarshal line with
        | None => exportLoop searchQuery (lineNumber + 1) rest
        | Some jsonData =>
            let record := mkJSONRecord lineNumber jsonData line in
            if negb (String.eqb searchQuery EmptyString) then
              match parseLuceneQuery searchQuery with
              | Some luceneQuery =>
                  if negb (evaluateLuceneQuery (Some luceneQuery) record false)
                  then exportLoop searchQuery (lineNumber + 1) rest
                  else record :: exportLoop searchQuery (lineNumber + 1) rest
              | None =>
                  if negb (recordMatches record searchQuery false)
                  then exportLoop searchQuery (lineNumber + 1) rest
                  else record :: exportLoop searchQuery (lineNumber + 1) rest
              end
            else record :: exportLoop searchQuery (lineNumber + 1) rest
        end
  end.

(** [GetAllRecords]; its errors are plain [fmt.Errorf] messages.  The
    failure to open the file and the failure of the scanner are one failure
    here, and the text of the wrapped operating-system error is left out:
    what is proved below of a failing call is that it fails. *)
Definition GetAllRecords (a : App) (searchQuery : string)
    : list JSONRecord + string :=
  match currentFile a with
  | None => inr "no file loaded"
  | Some f =>
      match scanFile (Path f) with
      | None => inr "failed to open file"
      | Some scanned => inl (exportLoop searchQuery 1 scanned)
      end
  end.

End Ingest.

(** ** Projection *)

Definition hexDigit (n : N) : string :=
  substring (N.to_nat n) 1 "0123456789abcdef".

(** One byte of a string under [encoding/json] (HTML escaping on, as
    [json.Marshal] has it; backspace and form feed as Go 1.22 writes
    them). *)
Definition escapeByte (c : ascii) : string :=
  let n := N_of_ascii c in
  if (n =? 34)%N then "\" ++ dq
  else if (n =? 92)%N then "\\"
  else if (n =? 8)%N then "\b"
  else if (n =? 12)%N then "\f"
  else if (n =? 10)%N then "\n"
  else if (n =? 13)%N then "\r"
  else if (n =? 9)%N then "\t"
  else if (n <? 32)%N || (n =? 60)%N || (n =? 62)%N || (n =? 38)%N
  then "\u00" ++ hexDigit (n / 16) ++ hexDigit (n mod 16)
  else String c EmptyString.

(** The bytes of a string of valid UTF-8 (which decoded JSON is): U+2028
    and U+2029 are escaped, every other rune beyond ASCII is copied.
    [skip] counts the bytes of an escaped rune still to be passed over. *)
Fixpoint escapeFrom (skip : nat) (s : string) : string :=
  match s with
  | EmptyString => EmptyString
  | String c s' =>
      match skip with
      | S k => escapeFrom k s'
      | O =>
          if String.prefix (bytes [226; 128; 168]%N) s then "\u2028" ++ escapeFrom 2 s'
          else if String.prefix (bytes [226; 128; 169]%N) s then "\u2029" ++ escapeFrom 2 s'
          else escapeByte c ++ escapeFrom 0 s'
      end
  end.

Definition escapeBytes (s : string) : string := escapeFrom 0 s.

Definition encodeString (s : string) : string := dq ++ escapeBytes s ++ dq.

(** An object written with its members in the order given; each member
    carries its value already encoded. *)
Definition writeObject (members : list (string * string)) : string :=
  "{"
  ++ Join (map (fun kv : string * string => encodeString (fst kv) ++ ":" ++ snd kv)
               members) ","
  ++ "}".

(** [json.Marshal] of a decoded value: a number [JNumber n] (an integer of
    magnitude up to [2^53], far below the [10^21] from which
    [encoding/json] turns to the exponent form) is written in plain
    decimal, and the members of a map are written in ascending key
    order. *)
Fixpoint encodeValue (v : JSONValue) : string :=
  match v with
  | JNull => "null"
  | JBool b => if b then "true" else "false"
  | JNumber n => formatInt n
  | JString s => encodeString s
  | JArray items => "[" ++ Join (map encodeValue items) "," ++ "]"
  | JObject members =>
      writeObject (sortByKey (map (fun kv => (fst kv, encodeValue (snd kv))) members))
  end.

Definition Marshal (m : gmap string JSONValue) : string :=
  encodeValue (JObject (map_to_list m)).

(** The map [filteredContent] of [getDisplayJSON] when [shownFields] is not
    empty. *)
Definition showFields (content : gmap string JSONValue) (shownFields : list string)
    : gmap string JSONValue :=
  fold_left (fun filteredContent field =>
               match content !! field with
               | Some value => <[field := value]> filteredContent
               | None => filteredContent
               end)
            shownFields ∅.

(** The map [filteredContent] when only [hiddenFields] is given. *)
Definition hideFields (content : gmap string JSONValue) (hiddenFields : list string)
    : gmap string JSONValue :=
  map_fold (fun field value filteredContent =>
              let shouldHide := existsb (String.eqb field) hiddenFields in
              if negb shouldHide then <[field := value]> filteredContent
              else filteredContent)
           ∅ content.

(** [json.Marshal] cannot fail on decoded JSON, so the fall-back to
    [RawJSON] after a marshalling error has no counterpart here. *)
Definition getDisplayJSON (record : JSONRecord) (shownFields hiddenFields : list string)
    : string :=
  if (lenZ shownFields =? 0) && (lenZ hiddenFields =? 0) then RawJSON record
  else
    let filteredContent :=
      if 0 <? lenZ shownFields then showFields (Content record) shownFields
      else hideFields (Content record) hiddenFields in
    Marshal filteredContent.

(** ** Sample data *)

(** A source line written compactly with the members [src] in that order,
    and the record that ingestion makes of it at line [n] (keys distinct). *)
Definition lineOf (src : list (string * JSONValue)) : string :=
  writeObject (map (fun kv => (fst kv, encodeValue (snd kv))) src).

Definition recordOf (n : Z) (src : list (string * JSONValue)) : JSONRecord :=
  mkJSONRecord n (list_to_map src) (lineOf src).

(** [json.Unmarshal] restricted to the lines [lineOf src] for [src] in
    [known]; every other line is rejected. *)
Definition decodeKnown (known : list (list (string * JSONValue))) (line : string)
    : option (gmap string JSONValue) :=
  match List.find (fun src => String.eqb (lineOf src) line) known with
  | Some src => Some (list_to_map src)
  | None => None
  end.

Definition johnDoe : JSONRecord :=
  recordOf 1 [("name", JString "John Doe"); ("age", JNumber 30)].

(** A record whose field [a] holds [null]. *)
Definition nullField : JSONRecord := recordOf 1 [("a", JNull)].

Definition abc : list (string * JSONValue) :=
  [("a", JNumber 1); ("b", JNumber 2); ("c", JNumber 3)].

(** A line whose keys are not in ascending order. *)
Definition ba : list (string * JSONValue) := [("b", JNumber 1); ("a", JNumber 2)].

(** Three lines; the field [b] is in one of them. *)
Definition threeLines : list (list (string * JSONValue)) :=
  [[("a", JNumber 1); ("b", JNumber 1)]; [("a", JNumber 2)]; [("a", JNumber 3)]].

(** The state after loading [recs] from a file. *)
Definition appOf (recs : list JSONRecord) : App :=
  mkApp (Some (mkJSONLFile "sample.jsonl" "/tmp/sample.jsonl" 0 (lenZ recs)))
        recs
        (Some (mkRecordCache recs 50 (lenZ recs))).

(** The number of records that have the field. *)
Definition occurrences (field : string) (recs : list JSONRecord) : Z :=
  lenZ (List.filter (fun r => match Content r !! field with
                              | Some _ => true
                              | None => false
                              end) recs).

(** ** Line lookup, as the specification words it *)

(** A failure of [GetRecordByLineNumber] with an error other than the
    invalid-line-number one. *)
Definition notFoundAsStated (a : App) (lineNumber : Z) : Prop :=
  exists e, GetRecordByLineNumber a lineNumber = Fail e /\ Err e <> ErrInvalidLineNum.

(** ** Export, as the specification words it *)

(** The records of all the valid lines: what the export loop yields when
    there is no query. *)
Definition validRecords (Unmarshal : string -> option (gmap string JSONValue))
    (scanned : list string) : list JSONRecord :=
  exportLoop Unmarshal EmptyString 1 scanned.

(** The exported records are the valid ones on which the compiled query is
    true with [caseSensitive = false]. *)
Definition exportAsStated (Unmarshal : string -> option (gmap string JSONValue))
    (scanned : list string) (searchQuery : string) : Prop :=
  exportLoop Unmarshal searchQuery 1 scanned
  = List.filter (fun r => evaluateLuceneQuery (parseLuceneQuery searchQuery) r false)
                (validRecords Unmarshal scanned).

(** The test that the loop of [GetAllRecords] applies to a record. *)
Definition exportKeeps (searchQuery : string) (record : JSONRecord) : bool :=
  if String.eqb searchQuery EmptyString then true
  else match parseLuceneQuery searchQuery with
       | Some luceneQuery => evaluateLuceneQuery (Some luceneQuery) record false
       | None => recordMatches record searchQuery false
       end.

(** A file of one line, [{"name":"John"}], and one of one line whose text
    has a blank in it. *)
Definition john : list (string * JSONValue) := [("name", JString "John")].
Definition spaced : list (string * JSONValue) := [("a", JString "x y")].

Definition oneFile (src : list (string * JSONValue)) (path : string)
    : option (list string) :=
  Some [lineOf src].

(** The state after loading that first file. *)
Definition johnFile : JSONLFile := mkJSONLFile "sample.jsonl" "/tmp/sample.jsonl" 15 1.

Definition johnApp : App :=
  mkApp (Some johnFile) [recordOf 1 john]
        (Some (mkRecordCache [recordOf 1 john] 50 1)).

(** ** Atoms and the bytes of a pattern *)

(** A trimmed query that reaches the classification of atoms. *)
Definition isAtom (q : string) : bool :=
  negb (Contains q " OR ") && negb (Contains q " AND ") && negb (HasPrefix q "NOT ").

(** The field and the value of an atom: the two sides of the first colon,
    trimmed, or no field and the whole atom. *)
Definition atomField (q : string) : string :=
  if Contains q ":" then
    match SplitN2 q ":" with
    | [p0; _] => TrimSpace p0
    | _ => EmptyString
    end
  else EmptyString.

Definition atomValue (q : string) : string :=
  if Contains q ":" then
    match SplitN2 q ":" with
    | [_; p1] => TrimSpace p1
    | _ => q
    end
  else q.

(** [hasByte c s]: the byte [c] occurs in [s]. *)
Fixpoint hasByte (c : ascii) (s : string) : bool :=
  match s with
  | EmptyString => false
  | String d s' => Ascii.eqb c d || hasByte c s'
  end.

(** The bytes [?] and [*]. *)
Definition qm : ascii := ascii_of_N 63.
Definition star : ascii := ascii_of_N 42.

(** The query compiles to a wildcard node. *)
Definition questionAccepted (query : string) : Prop :=
  exists field value, parseLuceneQuery query = Some (leafNode "wildcard" field value).

(** The record [{"f":"abc"}]. *)
Definition fAbc : JSONRecord := recordOf 1 [("f", JString "abc")].

(** ** Projection, as the specification words it *)

(** The members of the source line whose keys are in [shown], in the order
    of the line. *)
Definition projectAsStated (src : list (string * JSONValue))
    (shown hidden : list string) : Prop :=
  getDisplayJSON (recordOf 1 src) shown hidden
  = lineOf (List.filter (fun kv => existsb (String.eqb (fst kv)) shown) src).

(** Keys in ascending order. *)
Definition keyLe {A} (kv kv' : string * A) : Prop :=
  String.leb (fst kv) (fst kv') = true.

(** ** The compiler as the specification words it *)

(** The left-associative tree over a sequence of operands:
    [leftAssoc ty [a; b; c]] is [ty (ty a b) c]. *)
Definition leftAssoc (ty : string) (operands : list (option LuceneQuery))
    : option LuceneQuery :=
  match operands with
  | [] => None
  | first :: others =>
      fold_left (fun acc operand => Some (binNode ty acc operand)) others first
  end.

(** The top-down split: [OR] first, then [AND], then the [NOT] prefix, then
    the atom; [compile] compiles the operands. *)
Definition topDownSplit (compile : string -> option LuceneQuery) (query : string)
    : option LuceneQuery :=
  let q := TrimSpace query in
  let operand := fun part => compile (TrimSpace part) in
  if String.eqb q EmptyString then None
  else if Contains q " OR " then leftAssoc "or" (map operand (Split q " OR "))
  else if Contains q " AND " then leftAssoc "and" (map operand (Split q " AND "))
  else if HasPrefix q "NOT " then Some (notNode (operand (SliceFrom q 4)))
  else Some (parseAtom q).

(** ** Leaves that name a field, as the specification words them *)




(** ** More of the record store *)

(** [JSONLError.Error]: the message, followed by the line when there is a
    positive line number. *)
Definition ErrorText (e : JSONLError) : string :=
  if 0 <? ErrLineNumber e
  then Message e ++ " at line " ++ formatInt (ErrLineNumber e) ++ ": " ++ Line e
  else Message e.

Definition GetTotalRecordCount (a : App) : Result Z :=
  match currentFile a, cache a with
  | Some _, Some c => Ok (totalCount c)
  | _, _ => Fail errNoFile
  end.

(** [SetPageSize] looks at the cache only; the result is the state with the
    new page size. *)
Definition SetPageSize (a : App) (size : Z) : Result App :=
  match cache a with
  | None => Fail errNoFile
  | Some c =>
      let size := if size <=? 0 then 50 else size in
      let size := if 1000 <? size then 1000 else size in
      Ok (mkApp (currentFile a) (appRecords a)
            (Some (mkRecordCache (records c) size (totalCount c))))
  end.

Definition GetPageSize (a : App) : Result Z :=
  match cache a with
  | None => Fail errNoFile
  | Some c => Ok (pageSize c)
  end.

Definition GetRecordRange (a : App) (startLine endLine : Z) : Result (list JSONRecord) :=
  match currentFile a, cache a with
  | Some _, Some c =>
      if (startLine <=? 0) || (endLine <=? 0) || (endLine <? startLine) then
        Fail (mkJSONLError "Invalid line number range" 0 EmptyString ErrInvalidLineNum)
      else
        Ok (List.filter (fun record =>
                           (startLine <=? LineNumber record)
                           && (LineNumber record <=? endLine))
                        (records c))
  | _, _ => Fail errNoFile
  end.

(** [GetAllFields]: the field names are collected in a set, listed in the
    iteration order of the set (which Go leaves unspecified) and sorted in
    place by the two nested loops. *)
Definition collectFields (content : gmap string JSONValue) (fieldSet : gset string)
    : gset string :=
  map_fold (fun field _ set => {[field]} ∪ set) fieldSet content.

(** [if allFields[i] > allFields[j] { swap }]; an index out of range would
    panic, and the loops never produce one. *)
Definition swapIfGreater (allFields : list string) (i j : nat) : list string :=
  match allFields !! i, allFields !! j with
  | Some x, Some y =>
      if String.ltb y x then <[j := x]> (<[i := y]> allFields) else allFields
  | _, _ => allFields
  end.

(** [for j := ...; j < len(allFields); j++], with [count] iterations left. *)
Fixpoint sortInner (allFields : list string) (i j count : nat) : list string :=
  match count with
  | O => allFields
  | S count' => sortInner (swapIfGreater allFields i j) i (S j) count'
  end.

(** [for i := 0; i < len(allFields)-1; i++], with [count] iterations left. *)
Fixpoint sortOuter (allFields : list string) (i count : nat) : list string :=
  match count with
  | O => allFields
  | S count' =>
      sortOuter (sortInner allFields i (S i) (List.length allFields - S i)) (S i) count'
  end.

Definition sortFields (allFields : list string) : list string :=
  sortOuter allFields 0 (List.length allFields - 1).

Definition GetAllFields (a : App) : Result (list string) :=
  match currentFile a, cache a with
  | Some _, Some c =>
      let fieldSet :=
        fold_left (fun set record => collectFields (Content record) set) (records c) ∅ in
      Ok (sortFields (elements fieldSet))
  | _, _ => Fail errNoFile
  end.

Section IngestMore.

Variable Unmarshal : string -> option (gmap string JSONValue).
Variable scanFile : string -> option (list string).

(** [ValidateJSONLLine]: [None] is the nil error. *)
Definition ValidateJSONLLine (line : string) (lineNumber : Z) : option JSONLError :=
  let line := TrimSpace line in
  if String.eqb line EmptyString then None
  else
    match Unmarshal line with
    | None => Some (mkJSONLError "Invalid JSON format" lineNumber line ErrParsingFailed)
    | Some _ => None
    end.

(** [GetFileStats] parses the file again; [fileSize] is what the file
    system reports for it. *)
Definition GetFileStats (a : App) (fileSize : Z) : Result FileStats :=
  match currentFile a with
  | None => Fail errNoFile
  | Some f =>
      match scanFile (Path f) with
      | None => Fail (mkJSONLError "Failed to open file" 0 EmptyString ErrFileNotFound)
      | Some scanned => Ok (snd (ParseJSONL Unmarshal scanned fileSize))
      end
  end.

(** [LoadJSONLFromClipboard] from the text that the clipboard holds (the
    failure of the clipboard call itself is left out). *)
Definition LoadJSONLFromClipboard (clipboardContent : string) : Result (App * JSONLFile) :=
  if String.eqb (TrimSpace clipboardContent) EmptyString then
    Fail (mkJSONLError "Clipboard is empty or contains no text" 0 EmptyString
            ErrClipboardEmpty)
  else
    let '(recs, stats) := ParseJSONLFromString Unmarshal clipboardContent in
    if ValidRecords stats =? 0 then
      Fail (mkJSONLError "No valid JSONL records found in clipboard content" 0
              EmptyString ErrInvalidJSONL)
    else
      let jsonlFile :=
        mkJSONLFile "Clipboard Content" "<clipboard>" (FileSize stats)
          (ValidRecords stats) in
      Ok (mkApp (Some jsonlFile) recs (Some (mkRecordCache recs 50 (lenZ recs))),
          jsonlFile).

(** What [ExportSearchResults] writes to the export file, line by line (each
    followed by a line feed); the choice of the file and the failures of the
    file system are left out. *)
Definition ExportSearchResults (a : App) (searchQuery : string)
    (shownFields hiddenFields : list string) : list string + string :=
  match GetAllRecords Unmarshal scanFile a searchQuery with
  | inr message => inr ("failed to get all records: " ++ message)
  | inl allRecords =>
      inl (map (fun record => getDisplayJSON record shownFields hiddenFields ++ nl)
               allRecords)
  end.

End IngestMore.

(** ** Highlights *)

Record HighlightMatch : Type := mkHighlightMatch {
  Text : string;
  StartPos : Z;
  EndPos : Z;
  FieldName : string
}.

(** [strings.Index]: the byte position of the first occurrence of [substr]
    in [s]; [None] is the result -1. *)
Fixpoint Index (s substr : string) : option nat :=
  if String.prefix substr s then Some 0%nat
  else match s with
       | EmptyString => None
       | String _ s' => option_map S (Index s' substr)
       end.

(** The first loop of [GetSearchHighlights], [for { ... }], with [fuel]
    iterations left ([None] when they are used up); [startPos] is where the
    search resumes.  The two slice expressions panic out of range. *)
Fixpoint rawHighlights (fuel : nat) (rawJSON searchText searchQuery query : string)
    (startPos : nat) : option (Result (list HighlightMatch)) :=
  match fuel with
  | O => None
  | S fuel' =>
      if (String.length searchText <? startPos)%nat then Some Panic
      else
        match Index (SliceFrom searchText startPos) searchQuery with
        | None => Some (Ok [])
        | Some index =>
            let actualPos := (startPos + index)%nat in
            if (String.length rawJSON <? actualPos + String.length query)%nat
            then Some Panic
            else
              match rawHighlights fuel' rawJSON searchText searchQuery query
                      (actualPos + String.length searchQuery) with
              | Some (Ok highlights) =>
                  Some (Ok (mkHighlightMatch
                              (Slice rawJSON actualPos (actualPos + String.length query))
                              (Z.of_nat actualPos)
                              (Z.of_nat actualPos + Z.of_nat (String.length query))
                              "raw"
                            :: highlights))
              | other => other
              end
        end
  end.

(** The second loop, over the fields of the record in the iteration order
    of the map (which Go leaves unspecified). *)
Definition fieldHighlights (record : JSONRecord) (searchQuery : string)
    (caseSensitive : bool) : list HighlightMatch :=
  flat_map (fun kv : string * JSONValue =>
              let valueStr := Sprint (snd kv) in
              let searchValueStr := foldCase caseSensitive valueStr in
              if Contains searchValueStr searchQuery then
                match Index (RawJSON record) (dq ++ fst kv ++ dq) with
                | Some fieldStartPos =>
                    [mkHighlightMatch valueStr (Z.of_nat fieldStartPos)
                       (Z.of_nat fieldStartPos + Z.of_nat (String.length valueStr))
                       (fst kv)]
                | None => []
                end
              else [])
           (map_to_list (Content record)).

Definition highlightsFuel (fuel : nat) (record : JSONRecord) (query : string)
    (caseSensitive : bool) : option (Result (list HighlightMatch)) :=
  if String.eqb (TrimSpace query) EmptyString then Some (Ok [])
  else
    let searchQuery := foldCase caseSensitive query in
    let searchText := foldCase caseSensitive (RawJSON record) in
    match rawHighlights fuel (RawJSON record) searchText searchQuery query 0 with
    | Some (Ok highlights) =>
        Some (Ok (highlights ++ fieldHighlights record searchQuery caseSensitive)%list)
    | other => other
    end.

(** [GetSearchHighlights]: every iteration of the first loop moves
    [startPos] forward in the line, so one iteration per byte and one more
    are enough. *)
Definition GetSearchHighlights (record : JSONRecord) (query : string)
    (caseSensitive : bool) : option (Result (list HighlightMatch)) :=
  highlightsFuel (S (String.length (RawJSON record))) record query caseSensitive.

(** The invariants of the two sorting loops of [GetAllFields]: the
    positions before [i] hold values that are at most every later value, and
    position [i] holds a value that is at most the values between [i] and
    [j]. *)
Definition leAt (l : list string) (a b : nat) : Prop :=
  forall x y, l !! a = Some x -> l !! b = Some y -> String.leb x y = true.

Definition settled (l : list string) (i : nat) : Prop :=
  forall a b, (a < i)%nat -> (a < b)%nat -> leAt l a b.

Definition least (l : list string) (i j : nat) : Prop :=
  forall b, (i < b)%nat -> (b < j)%nat -> leAt l i b.

(** What the first loop of [GetSearchHighlights] promises of a highlight
    found from [lo] on. *)
Definition rawOk (rawJSON query : string) (caseSensitive : bool) (lo : nat)
    (h : HighlightMatch) : Prop :=
  exists pos : nat,
    (lo <= pos)%nat
    /\ (pos + String.length query <= String.length rawJSON)%nat
    /\ StartPos h = Z.of_nat pos
    /\ EndPos h = Z.of_nat (pos + String.length query)
    /\ FieldName h = "raw"
    /\ Text h = Slice rawJSON pos (pos + String.length query)
    /\ foldCase caseSensitive (Text h) = foldCase caseSensitive query.

(** ** Renderings and occurrences, as the properties word them *)




(** [q] occurs in [text] at the byte position [p]. *)
Definition occursAt (text q : string) (p : nat) : Prop :=
  (p + String.length q <= String.length text)%nat
  /\ substring p (String.length q) text = q.

(** [positions] are the occurrences of [q] in [text] taken from left to
    right from [start] on, without overlap: each is the first occurrence at
    or after the end of the one before it, and no occurrence follows the
    last. *)
Fixpoint leftToRight (text q : string) (start : nat) (positions : list nat) : Prop :=
  match positions with
  | [] => forall p, (start <= p)%nat -> ~ occursAt text q p
  | p :: rest =>
      (start <= p)%nat
      /\ occursAt text q p
      /\ (forall p', (start <= p')%nat -> (p' < p)%nat -> ~ occursAt text q p')
      /\ leftToRight text q (p + String.length q) rest
  end.

(** The highlight of the line for an occurrence of [query] at [p]. *)
Definition rawHighlightAt (rawJSON query : string) (p : nat) : HighlightMatch :=
  mkHighlightMatch (Slice rawJSON p (p + String.length query))
    (Z.of_nat p) (Z.of_nat p + Z.of_nat (String.length query)) "raw".

(** The line-feed byte. *)
Definition lf : ascii := ascii_of_N 10.

(** ** Queries and records in ASCII, queries without negation *)

(** Every byte of [s] is below 128. *)
Fixpoint isASCII (s : string) : bool :=
  match s with
  | EmptyString => true
  | String c s' => (N_of_ascii c <? 128)%N && isASCII s'
  end.

Fixpoint asciiQuery (query : LuceneQuery) : bool :=
  match query with
  | mkLuceneQuery _ _ value lhs rhs sub =>
      isASCII value
      && match lhs with Some l => asciiQuery l | None => true end
      && match rhs with Some r => asciiQuery r | None => true end
      && match sub with Some q => asciiQuery q | None => true end
  end.

(** The line of the record and the printed form of each of its values. *)
Definition asciiRecord (record : JSONRecord) : bool :=
  isASCII (RawJSON record)
  && forallb (fun kv : string * JSONValue => isASCII (Sprint (snd kv)))
             (map_to_list (Content record)).

(** No node that [evaluateLuceneQuery] reaches in the tree is a [not]
    node. *)
Fixpoint notFree (query : LuceneQuery) : bool :=
  match query with
  | mkLuceneQuery ty _ _ lhs rhs _ =>
      if String.eqb ty "and" || String.eqb ty "or" then
        match lhs with Some l => notFree l | None => true end
        && match rhs with Some r => notFree r | None => true end
      else negb (String.eqb ty "not")
  end.

(** * Facts about the string functions *)

Section StringFacts.
Local Open Scope nat_scope.
Local Arguments String.prefix : simpl never.

Lemma substring_length_le n m s : String.length (substring n m s) <= String.length s - n.
Proof.
  revert n m. induction s as [|c s IH]; intros n m.
  - destruct n, m; simpl; lia.
  - destruct n as [|n].
    + destruct m as [|m]; simpl; [lia|]. specialize (IH 0 m). lia.
    + simpl. apply IH.
Qed.

Lemma trimLeftSteps_length steps : forall s,
  String.length (trimLeftSteps steps s) <= String.length s.
Proof.
  induction steps as [|n IH]; intros s; simpl; [lia|].
  destruct (leadingSpace s) as [width|]; [|lia].
  pose proof (IH (SliceFrom s width)).
  pose proof (substring_length_le width (String.length s - width) s).
  unfold SliceFrom, Slice in *. lia.
Qed.

Lemma trimRightSteps_length steps : forall s,
  String.length (trimRightSteps steps s) <= String.length s.
Proof.
  induction steps as [|n IH]; intros s; simpl; [lia|].
  destruct (trailingSpace s) as [width|]; [|lia].
  pose proof (IH (Slice s 0 (String.length s - width))).
  pose proof (substring_length_le 0 (String.length s - width - 0) s).
  unfold Slice in *. lia.
Qed.

Lemma TrimLeftSpace_length s : String.length (TrimLeftSpace s) <= String.length s.
Proof. apply trimLeftSteps_length. Qed.

Lemma TrimRightSpace_length s : String.length (TrimRightSpace s) <= String.length s.
Proof. apply trimRightSteps_length. Qed.

Lemma TrimSpace_length s : String.length (TrimSpace s) <= String.length s.
Proof.
  unfold TrimSpace.
  pose proof (TrimRightSpace_length (TrimLeftSpace s)).
  pose proof (TrimLeftSpace_length s). lia.
Qed.

Lemma splitFrom_not_nil sep k s : splitFrom sep k s <> [].
Proof.
  revert k. induction s as [|c s IH]; intros k; simpl; [done|].
  destruct k as [|k]; [|apply IH].
  destruct (String.prefix sep (String c s)); [done|].
  destruct (splitFrom sep 0 s); done.
Qed.

Lemma splitFrom_part_le sep s :
  forall k p, In p (splitFrom sep k s) -> String.length p <= String.length s - k.
Proof.
  induction s as [|c s IH]; intros k p Hin; simpl in *.
  - destruct Hin as [<-|[]]. simpl. lia.
  - destruct k as [|k].
    + destruct (String.prefix sep (String c s)).
      * destruct Hin as [<-|Hin]; simpl; [lia|].
        apply IH in Hin. lia.
      * pose proof (IH 0) as IH0.
        destruct (splitFrom sep 0 s) as [|h t].
        -- destruct Hin as [<-|[]]. simpl. lia.
        -- destruct Hin as [<-|Hin]; simpl.
           ++ specialize (IH0 h (or_introl eq_refl)). lia.
           ++ specialize (IH0 p (or_intror Hin)). lia.
    + apply IH in Hin. lia.
Qed.

Lemma splitFrom_part_lt sep s :
  forall k p, 2 <= List.length (splitFrom sep k s) -> In p (splitFrom sep k s) ->
              String.length p < String.length s - k.
Proof.
  induction s as [|c s IH]; intros k p Hlen Hin; simpl in *; [lia|].
  destruct k as [|k].
  - destruct (String.prefix sep (String c s)).
    + destruct Hin as [<-|Hin]; simpl; [lia|].
      apply splitFrom_part_le in Hin. lia.
    + pose proof (IH 0) as IH0.
      destruct (splitFrom sep 0 s) as [|h t]; [simpl in Hlen; lia|].
      simpl in Hlen.
      destruct Hin as [<-|Hin]; simpl.
      * specialize (IH0 h Hlen (or_introl eq_refl)). lia.
      * specialize (IH0 p Hlen (or_intror Hin)). lia.
  - specialize (IH k p Hlen Hin). lia.
Qed.

Lemma Split_part_lt s sep p :
  2 <= List.length (Split s sep) -> In p (Split s sep) ->
  String.length p < String.length s.
Proof.
  intros Hlen Hin. pose proof (splitFrom_part_lt sep s 0 p Hlen Hin). lia.
Qed.

Lemma prefix_nonempty_cons sep s :
  sep <> EmptyString -> String.prefix sep s = true -> exists c s', s = String c s'.
Proof.
  intros Hsep Hp. destruct s as [|c s']; [|eauto].
  destruct sep; [congruence|discriminate Hp].
Qed.

Lemma Contains_Split_two s sep :
  sep <> EmptyString -> Contains s sep = true -> 2 <= List.length (Split s sep).
Proof.
  intros Hsep. unfold Split.
  induction s as [|c s IH]; simpl; intros Hc.
  - destruct (String.prefix sep EmptyString) eqn:Hp; [|discriminate Hc].
    destruct (prefix_nonempty_cons _ _ Hsep Hp) as (? & ? & ?). discriminate.
  - destruct (String.prefix sep (String c s)) eqn:Hp.
    + pose proof (splitFrom_not_nil sep (String.length sep - 1) s).
      destruct (splitFrom sep (String.length sep - 1) s); [congruence|simpl; lia].
    + specialize (IH Hc).
      destruct (splitFrom sep 0 s); simpl in *; lia.
Qed.

Lemma prefix_length p s : String.prefix p s = true -> String.length p <= String.length s.
Proof.
  intros H. apply prefix_correct in H.
  pose proof (substring_length_le 0 (String.length p) s) as Hle.
  rewrite H in Hle. lia.
Qed.

Lemma SliceFrom_length s n : String.length (SliceFrom s n) <= String.length s - n.
Proof. apply substring_length_le. Qed.

End StringFacts.

(** * The compiler *)

Section Compiler.
Local Open Scope nat_scope.

Lemma foldParts_ext ty f g rest : forall left,
  (forall p, In p rest -> f (TrimSpace p) = g (TrimSpace p)) ->
  foldParts ty f left rest = foldParts ty g left rest.
Proof.
  unfold foldParts. induction rest as [|p rest IH]; intros left Hfg; simpl; [reflexivity|].
  rewrite (Hfg p (or_introl eq_refl)). apply IH.
  intros q Hq. apply Hfg. right. exact Hq.
Qed.

Lemma foldParts_leftAssoc ty f p0 rest :
  foldParts ty f (f (TrimSpace p0)) rest
  = leftAssoc ty (map (fun part => f (TrimSpace part)) (p0 :: rest)).
Proof.
  unfold foldParts, leftAssoc. simpl.
  generalize (f (TrimSpace p0)). induction rest as [|p rest IH]; intros acc; simpl.
  - reflexivity.
  - apply IH.
Qed.

(** The operands of a split, trimmed, are strictly shorter than the query. *)
Lemma operand_shorter q sep p :
  sep <> EmptyString -> Contains q sep = true -> In p (Split q sep) ->
  String.length (TrimSpace p) < String.length q.
Proof.
  intros Hsep Hc Hin.
  pose proof (Split_part_lt q sep p (Contains_Split_two q sep Hsep Hc) Hin).
  pose proof (TrimSpace_length p). lia.
Qed.

Lemma not_operand_shorter q :
  HasPrefix q "NOT " = true ->
  String.length (TrimSpace (SliceFrom q 4)) < String.length q.
Proof.
  intros Hp. apply prefix_length in Hp. simpl in Hp.
  pose proof (SliceFrom_length q 4).
  pose proof (TrimSpace_length (SliceFrom q 4)). lia.
Qed.

(** [parseBody] only calls [parse] on strings shorter than the trimmed
    query. *)
Lemma parseBody_ext f g query :
  (forall p, String.length p < String.length (TrimSpace query) -> f p = g p) ->
  parseBody f query = parseBody g query.
Proof.
  intros Hfg. unfold parseBody.
  destruct (String.eqb (TrimSpace query) EmptyString); [reflexivity|].
  set (q := TrimSpace query) in *.
  assert (Hnot : HasPrefix q "NOT " = true ->
                 f (TrimSpace (SliceFrom q 4)) = g (TrimSpace (SliceFrom q 4))).
  { intros Hp. apply Hfg, not_operand_shorter, Hp. }
  assert (Hsplit : forall sep ty, sep <> EmptyString -> Contains q sep = true ->
            forall p0 p1 rest, Split q sep = p0 :: p1 :: rest ->
            foldParts ty f (f (TrimSpace p0)) (p1 :: rest)
            = foldParts ty g (g (TrimSpace p0)) (p1 :: rest)).
  { intros sep ty Hsep Hc p0 p1 rest Hs.
    rewrite (Hfg (TrimSpace p0)).
    - apply foldParts_ext. intros p Hin.
      apply Hfg, (operand_shorter q sep); auto. rewrite Hs. right. exact Hin.
    - apply (operand_shorter q sep); auto. rewrite Hs. left. reflexivity. }
  destruct (Contains q " OR ") eqn:Hor.
  - destruct (Split q " OR ") as [|p0 [|p1 rest]] eqn:Hs.
    + pose proof (Contains_Split_two q " OR " ltac:(discriminate) Hor) as H2.
      rewrite Hs in H2. simpl in H2. lia.
    + pose proof (Contains_Split_two q " OR " ltac:(discriminate) Hor) as H2.
      rewrite Hs in H2. simpl in H2. lia.
    + apply (Hsplit " OR " "or"); (discriminate || assumption).
  - destruct (Contains q " AND ") eqn:Hand.
    + destruct (Split q " AND ") as [|p0 [|p1 rest]] eqn:Hs.
      * pose proof (Contains_Split_two q " AND " ltac:(discriminate) Hand) as H2.
        rewrite Hs in H2. simpl in H2. lia.
      * pose proof (Contains_Split_two q " AND " ltac:(discriminate) Hand) as H2.
        rewrite Hs in H2. simpl in H2. lia.
      * apply (Hsplit " AND " "and"); (discriminate || assumption).
    + destruct (HasPrefix q "NOT ") eqn:Hp; [|reflexivity].
      rewrite Hnot; reflexivity.
Qed.

(** Any fuel above the length of the query gives the same tree. *)
Lemma parseFuel_enough n : forall m query,
  String.length query < n -> String.length query < m ->
  parseFuel n query = parseFuel m query.
Proof.
  induction n as [|n IH]; intros m query Hn Hm; [lia|].
  destruct m as [|m]; [lia|]. simpl.
  apply parseBody_ext. intros p Hp.
  pose proof (TrimSpace_length query).
  apply IH; lia.
Qed.

(** The recursion equation of [parseLuceneQuery]. *)
Lemma parseLuceneQuery_unfold query :
  parseLuceneQuery query = parseBody parseLuceneQuery query.
Proof.
  unfold parseLuceneQuery at 1. simpl.
  apply parseBody_ext. intros p Hp.
  pose proof (TrimSpace_length query).
  unfold parseLuceneQuery. apply parseFuel_enough; lia.
Qed.

(** The body of the parser is the top-down split: the tests
    [len(parts) >= 2] always succeed. *)
Lemma parseBody_topDownSplit f query : parseBody f query = topDownSplit f query.
Proof.
  unfold parseBody, topDownSplit.
  destruct (String.eqb (TrimSpace query) EmptyString); [reflexivity|].
  set (q := TrimSpace query).
  destruct (Contains q " OR ") eqn:Hor.
  - pose proof (Contains_Split_two q " OR " ltac:(discriminate) Hor) as H2.
    destruct (Split q " OR ") as [|p0 [|p1 rest]]; simpl in H2; try lia.
    apply foldParts_leftAssoc.
  - destruct (Contains q " AND ") eqn:Hand; [|reflexivity].
    pose proof (Contains_Split_two q " AND " ltac:(discriminate) Hand) as H2.
    destruct (Split q " AND ") as [|p0 [|p1 rest]]; simpl in H2; try lia.
    apply foldParts_leftAssoc.
Qed.

(** A query that is not all white space compiles to a node. *)
Lemma leftAssoc_two ty a b rest : exists node, leftAssoc ty (a :: b :: rest) = Some node.
Proof.
  unfold leftAssoc. simpl. generalize (binNode ty a b).
  induction rest as [|c rest IH]; intros node; simpl; eauto.
Qed.

Lemma parseLuceneQuery_Some query :
  TrimSpace query <> EmptyString -> exists node, parseLuceneQuery query = Some node.
Proof.
  intros Hne. rewrite parseLuceneQuery_unfold, parseBody_topDownSplit.
  unfold topDownSplit.
  destruct (String.eqb_spec (TrimSpace query) EmptyString) as [|_]; [contradiction|].
  set (q := TrimSpace query).
  destruct (Contains q " OR ") eqn:Hor.
  - pose proof (Contains_Split_two q " OR " ltac:(discriminate) Hor) as H2.
    destruct (Split q " OR ") as [|p0 [|p1 rest]]; simpl in H2; try lia.
    apply leftAssoc_two.
  - destruct (Contains q " AND ") eqn:Hand.
    + pose proof (Contains_Split_two q " AND " ltac:(discriminate) Hand) as H2.
      destruct (Split q " AND ") as [|p0 [|p1 rest]]; simpl in H2; try lia.
      apply leftAssoc_two.
    + destruct (HasPrefix q "NOT "); eauto.
Qed.

Lemma parseLuceneQuery_blank query :
  TrimSpace query = EmptyString -> parseLuceneQuery query = None.
Proof.
  intros He. rewrite parseLuceneQuery_unfold. unfold parseBody. rewrite He. reflexivity.
Qed.

End Compiler.

(** C1.  For every query string the compiler is the top-down split: on the
    trimmed query it first splits on [" OR "] and builds the left-associative
    [or] tree over all the operands, each compiled recursively; without
    [" OR "] it does the same with [" AND "]; with neither, a leading
    ["NOT "] wraps the compiled remainder in [not]; otherwise the query is
    classified as an atom.  So [AND] binds tighter than [OR]:
    ["a AND b OR c"] compiles to [or (and a b) c]. *)
Theorem C1_compile_top_down_split :
  (forall query, parseLuceneQuery query = topDownSplit parseLuceneQuery query)
  /\ parseLuceneQuery "a AND b OR c"
     = Some (binNode "or"
               (Some (binNode "and"
                        (Some (leafNode "term" EmptyString "a"))
                        (Some (leafNode "term" EmptyString "b"))))
               (Some (leafNode "term" EmptyString "c")))
  /\ parseLuceneQuery "a OR b OR c"
     = Some (binNode "or"
               (Some (binNode "or"
                        (Some (leafNode "term" EmptyString "a"))
                        (Some (leafNode "term" EmptyString "b"))))
               (Some (leafNode "term" EmptyString "c"))).
Proof.
  split; [|split].
  - intros query. rewrite parseLuceneQuery_unfold at 1. apply parseBody_topDownSplit.
  - vm_compute. reflexivity.
  - vm_compute. reflexivity.
Qed.

(** * The evaluator *)

Section Evaluator.

Variables (record : JSONRecord) (caseSensitive : bool).

Lemma evaluate_and f v l r sub :
  evaluateLuceneQuery (Some (mkLuceneQuery "and" f v l r sub)) record caseSensitive
  = evaluateLuceneQuery l record caseSensitive
    && evaluateLuceneQuery r record caseSensitive.
Proof. destruct l, r; reflexivity. Qed.

Lemma evaluate_or f v l r sub :
  evaluateLuceneQuery (Some (mkLuceneQuery "or" f v l r sub)) record caseSensitive
  = evaluateLuceneQuery l record caseSensitive
    || evaluateLuceneQuery r record caseSensitive.
Proof. destruct l, r; reflexivity. Qed.

Lemma evaluate_not f v l r sub :
  evaluateLuceneQuery (Some (mkLuceneQuery "not" f v l r sub)) record caseSensitive
  = negb (evaluateLuceneQuery sub record caseSensitive).
Proof. destruct sub; reflexivity. Qed.



End Evaluator.

(** ** How [%v] prints the scalar values *)

Section Rendering.






End Rendering.




(** * Projection *)

Section Projection.

Lemma insertByKey_map {A B} (f : A -> B) kv (l : list (string * A)) :
  insertByKey (fst kv, f (snd kv)) (map (fun kv => (fst kv, f (snd kv))) l)
  = map (fun kv => (fst kv, f (snd kv))) (insertByKey kv l).
Proof.
  induction l as [|kv' l IH]; simpl; [reflexivity|].
  destruct (String.leb (fst kv) (fst kv')); simpl; [reflexivity|].
  rewrite IH. reflexivity.
Qed.

Lemma sortByKey_map {A B} (f : A -> B) (l : list (string * A)) :
  sortByKey (map (fun kv => (fst kv, f (snd kv))) l)
  = map (fun kv => (fst kv, f (snd kv))) (sortByKey l).
Proof.
  induction l as [|kv l IH]; simpl; [reflexivity|].
  rewrite IH. apply insertByKey_map.
Qed.

Lemma insertByKey_perm {A} kv (l : list (string * A)) : insertByKey kv l ≡ₚ kv :: l.
Proof.
  induction l as [|kv' l IH]; simpl; [reflexivity|].
  destruct (String.leb (fst kv) (fst kv')); [reflexivity|].
  rewrite IH. apply Permutation_swap.
Qed.

Lemma sortByKey_perm {A} (l : list (string * A)) : sortByKey l ≡ₚ l.
Proof.
  induction l as [|kv l IH]; simpl; [reflexivity|].
  rewrite insertByKey_perm, IH. reflexivity.
Qed.

Lemma insertByKey_sorted {A} kv (l : list (string * A)) :
  Sorted keyLe l -> Sorted keyLe (insertByKey kv l).
Proof.
  induction l as [|kv' l IH]; simpl; intros Hs.
  - repeat constructor.
  - destruct (String.leb (fst kv) (fst kv')) eqn:Hle.
    + constructor; [exact Hs|]. constructor. exact Hle.
    + inversion Hs as [|? ? Hs' Hhd]; subst.
      constructor; [apply IH, Hs'|].
      assert (Hge : keyLe kv' kv).
      { unfold keyLe. destruct (String.leb_total (fst kv) (fst kv')); congruence. }
      destruct l as [|kv'' l]; simpl.
      * constructor. exact Hge.
      * destruct (String.leb (fst kv) (fst kv'')); constructor; [exact Hge|].
        inversion Hhd; subst. assumption.
Qed.

Lemma sortByKey_sorted {A} (l : list (string * A)) : Sorted keyLe (sortByKey l).
Proof.
  induction l as [|kv l IH]; simpl; [constructor|].
  apply insertByKey_sorted, IH.
Qed.

Lemma showFields_fold (content : gmap string JSONValue) shown :
  forall (acc : gmap string JSONValue) k,
    fold_left (fun filteredContent field =>
                 match content !! field with
                 | Some value => <[field := value]> filteredContent
                 | None => filteredContent
                 end) shown acc !! k
    = if decide (k ∈ shown)
      then match content !! k with Some v => Some v | None => acc !! k end
      else acc !! k.
Proof.
  induction shown as [|f rest IH]; intros acc k; simpl.
  - reflexivity.
  - rewrite IH.
    destruct (decide (k = f)) as [->|Hne].
    + rewrite (decide_True (P := f ∈ f :: rest)) by apply list_elem_of_here.
      destruct (content !! f) eqn:Hf.
      * destruct (decide (f ∈ rest)); [reflexivity|apply lookup_insert_eq].
      * destruct (decide (f ∈ rest)); reflexivity.
    + assert (Hacc : match content !! f with
                     | Some value => <[f := value]> acc
                     | None => acc
                     end !! k = acc !! k).
      { destruct (content !! f); [apply lookup_insert_ne; congruence|reflexivity]. }
      rewrite Hacc.
      destruct (decide (k ∈ rest)) as [Hin|Hnin].
      * rewrite decide_True by (apply list_elem_of_further, Hin). reflexivity.
      * rewrite decide_False; [reflexivity|].
        intros Hin. apply elem_of_cons in Hin as [?|?]; contradiction.
Qed.

(** [filteredContent] holds exactly the entries of the content whose keys
    are listed. *)
Lemma showFields_lookup (content : gmap string JSONValue) shown k :
  showFields content shown !! k = if decide (k ∈ shown) then content !! k else None.
Proof.
  unfold showFields. rewrite showFields_fold, lookup_empty.
  destruct (decide (k ∈ shown)); [|reflexivity].
  destruct (content !! k); reflexivity.
Qed.

(** [json.Marshal] writes the entries of a map as a line in ascending key
    order. *)
Lemma Marshal_sorted (m : gmap string JSONValue) :
  Marshal m = lineOf (sortByKey (map_to_list m)).
Proof.
  unfold Marshal, lineOf. simpl.
  rewrite (sortByKey_map encodeValue). reflexivity.
Qed.

Lemma getDisplayJSON_shown record shown hidden :
  shown <> [] ->
  getDisplayJSON record shown hidden = Marshal (showFields (Content record) shown).
Proof.
  intros Hne. unfold getDisplayJSON, lenZ.
  destruct shown as [|f rest]; [contradiction|]. simpl.
  reflexivity.
Qed.

End Projection.

(** C3 as stated fails on the key order: the record of the line
    [{"b":1,"a":2}] with both fields shown is written [{"a":2,"b":1}]. *)
Lemma C3_key_order_counterexample :
  lineOf ba = "{" ++ dq ++ "b" ++ dq ++ ":1," ++ dq ++ "a" ++ dq ++ ":2}"
  /\ fst (ParseJSONLFromString (decodeKnown [ba]) (lineOf ba)) = [recordOf 1 ba]
  /\ getDisplayJSON (recordOf 1 ba) ["a"; "b"] []
     = "{" ++ dq ++ "a" ++ dq ++ ":2," ++ dq ++ "b" ++ dq ++ ":1}"
  /\ ~ projectAsStated ba ["a"; "b"] [].
Proof.
  split; [vm_compute; reflexivity|]. split; [vm_compute; reflexivity|].
  split; [vm_compute; reflexivity|].
  unfold projectAsStated. vm_compute. discriminate.
Qed.

(** C3 (amended).  With a non-empty show list the projection of a record is
    the line made of exactly the content entries whose keys are in the show
    list, written in ascending key order (each key once); the hide list is
    ignored.  With show [a] and hide [b] the record [{"a":1,"b":2,"c":3}]
    gives [{"a":1}]. *)
Theorem C3_project_show_list
    (record : JSONRecord) (shown hidden : list string) (Hshown : shown <> []) :
  (exists entries : list (string * JSONValue),
      getDisplayJSON record shown hidden = lineOf entries
      /\ (forall k v, (k, v) ∈ entries <-> k ∈ shown /\ Content record !! k = Some v)
      /\ Sorted keyLe entries
      /\ NoDup (map fst entries))
  /\ (forall hidden', getDisplayJSON record shown hidden'
                     = getDisplayJSON record shown hidden)
  /\ getDisplayJSON (recordOf 1 abc) ["a"] ["b"] = "{" ++ dq ++ "a" ++ dq ++ ":1}".
Proof.
  split; [|split].
  - exists (sortByKey (map_to_list (showFields (Content record) shown))).
    split; [|split; [|split]].
    + rewrite getDisplayJSON_shown by exact Hshown. apply Marshal_sorted.
    + intros k v. rewrite sortByKey_perm, elem_of_map_to_list, showFields_lookup.
      destruct (decide (k ∈ shown)); [tauto|].
      split; [discriminate|tauto].
    + apply sortByKey_sorted.
    + rewrite sortByKey_perm. apply NoDup_fst_map_to_list.
  - intros hidden'. rewrite !getDisplayJSON_shown by exact Hshown. reflexivity.
  - vm_compute. reflexivity.
Qed.

Lemma C3_project_witness :
  (exists entries : list (string * JSONValue),
      getDisplayJSON (recordOf 1 abc) ["a"] ["b"] = lineOf entries
      /\ (forall k v, (k, v) ∈ entries
                      <-> k ∈ ["a"] /\ Content (recordOf 1 abc) !! k = Some v)
      /\ Sorted keyLe entries
      /\ NoDup (map fst entries))
  /\ (forall hidden', getDisplayJSON (recordOf 1 abc) ["a"] hidden'
                     = getDisplayJSON (recordOf 1 abc) ["a"] ["b"])
  /\ getDisplayJSON (recordOf 1 abc) ["a"] ["b"] = "{" ++ dq ++ "a" ++ dq ++ ":1}".
Proof.
  apply (C3_project_show_list (recordOf 1 abc) ["a"] ["b"]). discriminate.
Defined.

(** * Field statistics *)

Lemma countFields_lookup (content : gmap string JSONValue) (fieldCounts : gmap string Z) k :
  countFields content fieldCounts !! k
  = match content !! k with
    | Some _ => Some (default 0 (fieldCounts !! k) + 1)
    | None => fieldCounts !! k
    end.
Proof.
  unfold countFields.
  apply (map_fold_weak_ind
           (fun (r : gmap string Z) (m : gmap string JSONValue) =>
              r !! k = match m !! k with
                       | Some _ => Some (default 0 (fieldCounts !! k) + 1)
                       | None => fieldCounts !! k
                       end)).
  - rewrite lookup_empty. reflexivity.
  - intros field v m r Hfresh IH.
    destruct (decide (field = k)) as [->|Hne].
    + rewrite !lookup_insert_eq. rewrite IH, Hfresh. reflexivity.
    + rewrite !lookup_insert_ne by exact Hne. exact IH.
Qed.

(** The fields reported as common are those counted at least
    [totalRecords / 2] times, the quotient rounded down. *)
Lemma commonFieldsOf_spec (fieldCounts : gmap string Z) totalRecords field :
  field ∈ commonFieldsOf fieldCounts totalRecords
  <-> exists count, fieldCounts !! field = Some count /\ Z.quot totalRecords 2 <= count.
Proof.
  unfold commonFieldsOf. rewrite list_elem_of_fmap. split.
  - intros ([f count] & -> & Hin). simpl.
    apply list_elem_of_In, List.filter_In in Hin as [Hin Hle].
    apply list_elem_of_In, elem_of_map_to_list in Hin.
    exists count. split; [exact Hin|]. apply Z.leb_le. exact Hle.
  - intros (count & Hlook & Hle). exists (field, count). split; [reflexivity|].
    apply list_elem_of_In, List.filter_In. split.
    + apply list_elem_of_In, elem_of_map_to_list. exact Hlook.
    + apply Z.leb_le. exact Hle.
Qed.

Lemma occurrences_cons field r recs :
  occurrences field (r :: recs)
  = (match Content r !! field with Some _ => 1 | None => 0 end) + occurrences field recs.
Proof.
  unfold occurrences, lenZ. simpl.
  destruct (Content r !! field); simpl; lia.
Qed.

Lemma occurrences_nonneg field recs : 0 <= occurrences field recs.
Proof. unfold occurrences, lenZ. lia. Qed.

(** After the counting loop a field is mapped to the number of records that
    have it, and a field that no record has is not in the map. *)
Lemma fieldCounts_fold field recs : forall init : gmap string Z,
  fold_left (fun counts record => countFields (Content record) counts) recs init !! field
  = match init !! field with
    | Some c => Some (c + occurrences field recs)
    | None => if occurrences field recs =? 0 then None
              else Some (occurrences field recs)
    end.
Proof.
  induction recs as [|r recs IH]; intros init; simpl.
  - unfold occurrences, lenZ. simpl. destruct (init !! field); f_equal; lia.
  - rewrite IH, countFields_lookup, occurrences_cons.
    pose proof (occurrences_nonneg field recs) as Hnn.
    destruct (Content r !! field), (init !! field); simpl.
    + f_equal. lia.
    + rewrite (proj2 (Z.eqb_neq _ 0)) by lia. reflexivity.
    + reflexivity.
    + reflexivity.
Qed.

(** What [GetCommonFields] computes: the fields that some record has and
    that at least [len(records) / 2] records have, the quotient rounded
    down. *)
Lemma GetCommonFields_spec (a : App) (f : JSONLFile) (c : RecordCache) field :
  currentFile a = Some f -> cache a = Some c ->
  exists fields,
    GetCommonFields a = Ok fields
    /\ (field ∈ fields
        <-> 0 < occurrences field (records c)
            /\ Z.quot (lenZ (records c)) 2 <= occurrences field (records c)).
Proof.
  intros Hfile Hcache. unfold GetCommonFields. rewrite Hfile, Hcache.
  eexists. split; [reflexivity|].
  rewrite commonFieldsOf_spec.
  pose proof (occurrences_nonneg field (records c)) as Hnn.
  split.
  - intros (count & Hlook & Hle).
    rewrite fieldCounts_fold, lookup_empty in Hlook.
    destruct (occurrences field (records c) =? 0) eqn:Hz; [discriminate|].
    injection Hlook as <-. apply Z.eqb_neq in Hz. lia.
  - intros [Hpos Hle]. exists (occurrences field (records c)).
    rewrite fieldCounts_fold, lookup_empty.
    rewrite (proj2 (Z.eqb_neq _ 0)) by lia. auto.
Qed.

(** C4.  [commonFields] can hold a field that is in fewer than half of the
    valid records: the threshold [totalRecords / 2] is rounded down.  Of the
    three records below one has the field [b] (twice one is less than
    three), and [b] is reported as common, by the loader and by
    [GetCommonFields] alike: the two lists hold the same fields, [a] and
    [b], in an order that the code does not fix. *)
Theorem C4_common_fields_threshold_rounds_down :
  let content := Join (map lineOf threeLines) nl in
  let loaded := ParseJSONLFromString (decodeKnown threeLines) content in
  ValidRecords (snd loaded) = 3
  /\ occurrences "b" (fst loaded) = 1
  /\ 2 * occurrences "b" (fst loaded) < ValidRecords (snd loaded)
  /\ In "b" (CommonFields (snd loaded))
  /\ CommonFields (snd loaded) ≡ₚ ["a"; "b"]
  /\ (exists fields,
        GetCommonFields (appOf (fst loaded)) = Ok fields
        /\ In "b" fields
        /\ fields ≡ₚ CommonFields (snd loaded)).
Proof.
  intros content loaded.
  split; [vm_compute; reflexivity|]. split; [vm_compute; reflexivity|].
  split; [vm_compute; reflexivity|]. split; [vm_compute; auto|].
  split; [vm_compute; first [reflexivity | apply Permutation_swap]|].
  eexists. split; [vm_compute; reflexivity|]. split; [vm_compute; auto|].
  vm_compute. first [reflexivity | apply Permutation_swap].
Qed.

(** * Operators inside quotes *)

(** C7.  The split on [" AND "] and [" OR "] looks inside quotes: the query
    [name:"a AND b"], whose value is a quoted phrase, compiles to the [and]
    of the field term [name:"a] and the term [b"], not to a phrase node; the
    same holds with [" OR "].  With a lower-case [and] the same query is one
    phrase node. *)
Theorem C7_operators_split_inside_quotes :
  isQuoted (dq ++ "a AND b" ++ dq) = true
  /\ parseLuceneQuery ("name:" ++ dq ++ "a AND b" ++ dq)
     = Some (binNode "and"
               (Some (leafNode "field" "name" (dq ++ "a")))
               (Some (leafNode "term" EmptyString ("b" ++ dq))))
  /\ parseLuceneQuery ("name:" ++ dq ++ "a AND b" ++ dq)
     <> Some (leafNode "phrase" "name" "a AND b")
  /\ parseLuceneQuery ("name:" ++ dq ++ "a OR b" ++ dq)
     = Some (binNode "or"
               (Some (leafNode "field" "name" (dq ++ "a")))
               (Some (leafNode "term" EmptyString ("b" ++ dq))))
  /\ parseLuceneQuery ("name:" ++ dq ++ "a and b" ++ dq)
     = Some (leafNode "phrase" "name" "a and b").
Proof.
  vm_compute. repeat split; try reflexivity. discriminate.
Qed.

(** * The record store *)

(** C8.  On a loaded store a query that is empty or all white space gives
    the empty result, with no records and [TotalMatches = 0], whatever the
    records, the offset and the limit are; the compiler is not consulted,
    the result being the same for every [compile]. *)
Theorem C8_search_blank_query
    (compile : string -> option LuceneQuery) (a : App) (options : SearchOptions)
    (f : JSONLFile) (c : RecordCache)
    (Hfile : currentFile a = Some f) (Hcache : cache a = Some c)
    (Hblank : TrimSpace (optQuery options) = EmptyString) :
  SearchRecords a options
  = Ok (mkSearchResult [] (optOffset options) (optLimit options) 0 0 false
          (optQuery options))
  /\ SearchRecordsWith compile a options = SearchRecords a options.
Proof.
  unfold SearchRecords, SearchRecordsWith. rewrite Hfile, Hcache, Hblank.
  split; reflexivity.
Qed.

Lemma C8_search_blank_witness :
  SearchRecords (appOf [johnDoe]) (mkSearchOptions "   " true true EmptyString 0 50)
  = Ok (mkSearchResult [] 0 50 0 0 false "   ")
  /\ SearchRecordsWith parseLuceneQuery (appOf [johnDoe])
       (mkSearchOptions "   " true true EmptyString 0 50)
     = SearchRecords (appOf [johnDoe])
         (mkSearchOptions "   " true true EmptyString 0 50).
Proof.
  apply (C8_search_blank_query parseLuceneQuery (appOf [johnDoe])
           (mkSearchOptions "   " true true EmptyString 0 50)
           (mkJSONLFile "sample.jsonl" "/tmp/sample.jsonl" 0 1)
           (mkRecordCache [johnDoe] 50 1)); reflexivity.
Defined.

(** C9.  On a loaded store [GetRecords] with an offset at or beyond the
    total count returns a page (not an error) with no records and
    [HasMore = false], for every limit. *)
Theorem C9_page_beyond_end
    (a : App) (offset limit : Z) (f : JSONLFile) (c : RecordCache)
    (Hfile : currentFile a = Some f) (Hcache : cache a = Some c)
    (Hoffset : totalCount c <= offset) :
  exists page, GetRecords a offset limit = Ok page
               /\ pgRecords page = [] /\ pgHasMore page = false.
Proof.
  unfold GetRecords. rewrite Hfile, Hcache.
  destruct (offset <? 0) eqn:Hneg.
  - apply Z.ltb_lt in Hneg.
    rewrite (proj2 (Z.leb_le (totalCount c) 0)) by lia. eauto.
  - rewrite (proj2 (Z.leb_le (totalCount c) offset)) by lia. eauto.
Qed.

Lemma C9_page_beyond_end_witness :
  exists page, GetRecords (appOf [johnDoe]) 1000 10 = Ok page
               /\ pgRecords page = [] /\ pgHasMore page = false.
Proof.
  apply (C9_page_beyond_end (appOf [johnDoe]) 1000 10
           (mkJSONLFile "sample.jsonl" "/tmp/sample.jsonl" 0 1)
           (mkRecordCache [johnDoe] 50 1)); [reflexivity|reflexivity|].
  simpl. lia.
Defined.

Lemma same_line_same_record (recs : list JSONRecord) r r' :
  NoDup (map LineNumber recs) -> r ∈ recs -> r' ∈ recs ->
  LineNumber r = LineNumber r' -> r = r'.
Proof.
  induction recs as [|x recs IH]; intros Hnd Hr Hr'.
  - apply elem_of_nil in Hr. contradiction.
  - simpl in Hnd. apply NoDup_cons in Hnd as [Hx Hnd].
    apply elem_of_cons in Hr as [->|Hr]; apply elem_of_cons in Hr' as [->|Hr'].
    + reflexivity.
    + intros Heq. exfalso. apply Hx. rewrite Heq.
      apply list_elem_of_fmap. exists r'. split; [reflexivity|exact Hr'].
    + intros Heq. exfalso. apply Hx. rewrite <- Heq.
      apply list_elem_of_fmap. exists r. split; [reflexivity|exact Hr].
    + apply IH; assumption.
Qed.

(** C10 as stated fails on the kind of the error: line 2 is a valid line
    number with no record in the store below, and the failure carries
    [ErrInvalidLineNum], the error of a non-positive line number. *)
Lemma C10_not_found_counterexample :
  GetRecordByLineNumber (appOf [johnDoe]) 2
  = Fail (mkJSONLError "Record not found at specified line number" 2 EmptyString
            ErrInvalidLineNum)
  /\ ~ notFoundAsStated (appOf [johnDoe]) 2.
Proof.
  split; [vm_compute; reflexivity|].
  intros (e & He & Hkind). vm_compute in He.
  injection He as <-. apply Hkind. reflexivity.
Qed.

(** C10 (amended).  On a loaded store [GetRecordByLineNumber n] fails with
    [ErrInvalidLineNum] and the message "Line number must be greater than 0"
    when [n <= 0], whatever the records are; when [n > 0] and no stored
    record has line number [n] it fails with the message "Record not found at
    specified line number", which wraps the same [ErrInvalidLineNum] and
    differs from the first failure in its message; when a stored record has
    line number [n] it returns a stored record with that line number, which
    is that record when line numbers are unique. *)
Theorem C10_record_by_line_number
    (a : App) (n : Z) (f : JSONLFile) (c : RecordCache)
    (Hfile : currentFile a = Some f) (Hcache : cache a = Some c) :
  (n <= 0 ->
   GetRecordByLineNumber a n
   = Fail (mkJSONLError "Line number must be greater than 0" n EmptyString
             ErrInvalidLineNum))
  /\ (0 < n -> (forall r, r ∈ records c -> LineNumber r <> n) ->
      GetRecordByLineNumber a n
      = Fail (mkJSONLError "Record not found at specified line number" n EmptyString
                ErrInvalidLineNum))
  /\ (0 < n -> forall r, r ∈ records c -> LineNumber r = n ->
      exists r', GetRecordByLineNumber a n = Ok r'
                 /\ r' ∈ records c /\ LineNumber r' = n
                 /\ (NoDup (map LineNumber (records c)) -> r' = r))
  /\ "Record not found at specified line number"
     <> "Line number must be greater than 0".
Proof.
  unfold GetRecordByLineNumber. rewrite Hfile, Hcache.
  split; [|split; [|split]].
  - intros Hn. rewrite (proj2 (Z.leb_le n 0)) by lia. reflexivity.
  - intros Hn Hnone. rewrite (proj2 (Z.leb_gt n 0)) by lia.
    destruct (List.find _ (records c)) as [r|] eqn:Hfind; [|reflexivity].
    apply List.find_some in Hfind as [Hin Heq].
    apply Z.eqb_eq in Heq. apply list_elem_of_In in Hin.
    exfalso. exact (Hnone r Hin Heq).
  - intros Hn r Hin Hline. rewrite (proj2 (Z.leb_gt n 0)) by lia.
    destruct (List.find _ (records c)) as [r'|] eqn:Hfind.
    + apply List.find_some in Hfind as [Hin' Heq].
      apply Z.eqb_eq in Heq. apply list_elem_of_In in Hin'.
      exists r'. repeat split; auto.
      intros Hnd. apply (same_line_same_record (records c)); auto. congruence.
    + apply list_elem_of_In in Hin.
      pose proof (List.find_none _ _ Hfind r Hin) as Hno. simpl in Hno.
      apply Z.eqb_neq in Hno. contradiction.
  - discriminate.
Qed.

Lemma C10_record_by_line_number_witness :
  (1 <= 0 ->
   GetRecordByLineNumber (appOf [johnDoe]) 1
   = Fail (mkJSONLError "Line number must be greater than 0" 1 EmptyString
             ErrInvalidLineNum))
  /\ (0 < 1 -> (forall r, r ∈ [johnDoe] -> LineNumber r <> 1) ->
      GetRecordByLineNumber (appOf [johnDoe]) 1
      = Fail (mkJSONLError "Record not found at specified line number" 1 EmptyString
                ErrInvalidLineNum))
  /\ (0 < 1 -> forall r, r ∈ [johnDoe] -> LineNumber r = 1 ->
      exists r', GetRecordByLineNumber (appOf [johnDoe]) 1 = Ok r'
                 /\ r' ∈ [johnDoe] /\ LineNumber r' = 1
                 /\ (NoDup (map LineNumber [johnDoe]) -> r' = r))
  /\ "Record not found at specified line number"
     <> "Line number must be greater than 0".
Proof.
  apply (C10_record_by_line_number (appOf [johnDoe]) 1
           (mkJSONLFile "sample.jsonl" "/tmp/sample.jsonl" 0 1)
           (mkRecordCache [johnDoe] 50 1)); reflexivity.
Defined.

(** * Export *)

Section ExportPath.

Variable Unmarshal : string -> option (gmap string JSONValue).

Lemma exportLoop_filter searchQuery scanned : forall n,
  exportLoop Unmarshal searchQuery n scanned
  = List.filter (exportKeeps searchQuery) (exportLoop Unmarshal EmptyString n scanned).
Proof.
  induction scanned as [|raw rest IH]; intros n; simpl; [reflexivity|].
  destruct (String.eqb (TrimSpace raw) EmptyString); [apply IH|].
  destruct (Unmarshal (TrimSpace raw)) as [jsonData|]; [|apply IH].
  simpl. unfold exportKeeps at 1.
  destruct (String.eqb searchQuery EmptyString); simpl.
  - rewrite IH. reflexivity.
  - destruct (parseLuceneQuery searchQuery) as [luceneQuery|].
    + destruct (evalNode luceneQuery _ false); simpl; rewrite IH; reflexivity.
    + destruct (recordMatches _ _ false); simpl; rewrite IH; reflexivity.
Qed.

Lemma TrimSpace_query_not_empty searchQuery :
  TrimSpace searchQuery <> EmptyString -> String.eqb searchQuery EmptyString = false.
Proof.
  intros Hne. apply String.eqb_neq. intros ->. apply Hne. reflexivity.
Qed.

(** A query that is not all white space is decided by the compiled tree. *)
Lemma exportKeeps_compiled searchQuery record :
  TrimSpace searchQuery <> EmptyString ->
  exportKeeps searchQuery record
  = evaluateLuceneQuery (parseLuceneQuery searchQuery) record false.
Proof.
  intros Hne. unfold exportKeeps.
  rewrite (TrimSpace_query_not_empty _ Hne).
  destruct (parseLuceneQuery_Some _ Hne) as [node ->]. reflexivity.
Qed.

(** A non-empty query of white space only falls back to [recordMatches]. *)
Lemma exportKeeps_blank searchQuery record :
  searchQuery <> EmptyString -> TrimSpace searchQuery = EmptyString ->
  exportKeeps searchQuery record = recordMatches record searchQuery false.
Proof.
  intros Hne Hblank. unfold exportKeeps.
  rewrite (proj2 (String.eqb_neq _ _) Hne), (parseLuceneQuery_blank _ Hblank).
  reflexivity.
Qed.

Lemma parseLoop_records scanned : forall st n,
  psRecords (parseLoop Unmarshal st n scanned)
  = (psRecords st ++ exportLoop Unmarshal EmptyString n scanned)%list.
Proof.
  induction scanned as [|raw rest IH]; intros st n; simpl.
  - rewrite app_nil_r. reflexivity.
  - rewrite IH. unfold parseLine.
    destruct (String.eqb (TrimSpace raw) EmptyString); [reflexivity|].
    destruct (Unmarshal (TrimSpace raw)) as [content|]; [|reflexivity].
    simpl. rewrite <- app_assoc. reflexivity.
Qed.

(** The export reads the same records as the loader stores. *)
Lemma ParseJSONL_records scanned fileSize :
  fst (ParseJSONL Unmarshal scanned fileSize) = validRecords Unmarshal scanned.
Proof.
  unfold ParseJSONL, parseLines, validRecords. simpl. apply parseLoop_records.
Qed.

End ExportPath.

(** C5 as stated fails on a non-empty query of white space: the query of
    one blank compiles to nil, which matches nothing, and the export falls
    back to the plain search, which keeps the record of the line
    [{"a":"x y"}]. *)
Lemma C5_blank_query_counterexample :
  " " <> EmptyString
  /\ parseLuceneQuery " " = None
  /\ exportLoop (decodeKnown [spaced]) " " 1 [lineOf spaced] = [recordOf 1 spaced]
  /\ ~ exportAsStated (decodeKnown [spaced]) [lineOf spaced] " ".
Proof.
  split; [discriminate|]. split; [vm_compute; reflexivity|].
  split; [vm_compute; reflexivity|].
  unfold exportAsStated. vm_compute. discriminate.
Qed.

(** C5 (amended).  The export evaluates the query with
    [caseSensitive = false]: for every query that is not all white space the
    exported records are the records of the valid lines (the records that
    loading the file stores), in file order, on which the compiled query is
    true with [caseSensitive = false].  So the
    export can differ from a search of the same store with
    [caseSensitive = true]: on the file [{"name":"John"}] the query
    [name:john] exports the record and the case-sensitive search finds
    nothing. *)
Theorem C5_export_case_insensitive
    (Unmarshal : string -> option (gmap string JSONValue))
    (scanFile : string -> option (list string))
    (a : App) (searchQuery : string) (f : JSONLFile) (scanned : list string)
    (Hfile : currentFile a = Some f) (Hscan : scanFile (Path f) = Some scanned)
    (Hquery : TrimSpace searchQuery <> EmptyString) :
  let compiledTrue :=
    fun r => evaluateLuceneQuery (parseLuceneQuery searchQuery) r false in
  GetAllRecords Unmarshal scanFile a searchQuery
  = inl (List.filter compiledTrue (validRecords Unmarshal scanned))
  /\ (forall r, In r (List.filter compiledTrue (validRecords Unmarshal scanned))
                <-> In r (validRecords Unmarshal scanned) /\ compiledTrue r = true)
  /\ (forall fileSize,
        fst (ParseJSONL Unmarshal scanned fileSize) = validRecords Unmarshal scanned)
  /\ LoadJSONLFile (decodeKnown [john]) (oneFile john) (fun _ => "sample.jsonl")
       (mkApp None [] None) "/tmp/sample.jsonl" 15
     = Ok (johnApp, johnFile)
  /\ GetAllRecords (decodeKnown [john]) (oneFile john) johnApp "name:john"
     = inl [recordOf 1 john]
  /\ SearchRecords johnApp (mkSearchOptions "name:john" true true EmptyString 0 50)
     = Ok (mkSearchResult [] 0 50 1 0 false "name:john").
Proof.
  intros compiledTrue. split; [|split; [|split; [|split; [|split]]]].
  - unfold GetAllRecords. rewrite Hfile, Hscan, exportLoop_filter.
    f_equal. apply List.filter_ext. intros r.
    apply exportKeeps_compiled, Hquery.
  - intros r. apply List.filter_In.
  - intros fileSize. apply ParseJSONL_records.
  - vm_compute. reflexivity.
  - vm_compute. reflexivity.
  - vm_compute. reflexivity.
Qed.

Lemma C5_export_case_insensitive_witness :
  let compiledTrue :=
    fun r => evaluateLuceneQuery (parseLuceneQuery "name:john") r false in
  GetAllRecords (decodeKnown [john]) (oneFile john) johnApp "name:john"
  = inl (List.filter compiledTrue (validRecords (decodeKnown [john]) [lineOf john]))
  /\ (forall r,
        In r (List.filter compiledTrue (validRecords (decodeKnown [john]) [lineOf john]))
        <-> In r (validRecords (decodeKnown [john]) [lineOf john])
            /\ compiledTrue r = true)
  /\ (forall fileSize,
        fst (ParseJSONL (decodeKnown [john]) [lineOf john] fileSize)
        = validRecords (decodeKnown [john]) [lineOf john])
  /\ LoadJSONLFile (decodeKnown [john]) (oneFile john) (fun _ => "sample.jsonl")
       (mkApp None [] None) "/tmp/sample.jsonl" 15
     = Ok (johnApp, johnFile)
  /\ GetAllRecords (decodeKnown [john]) (oneFile john) johnApp "name:john"
     = inl [recordOf 1 john]
  /\ SearchRecords johnApp (mkSearchOptions "name:john" true true EmptyString 0 50)
     = Ok (mkSearchResult [] 0 50 1 0 false "name:john").
Proof.
  apply (C5_export_case_insensitive (decodeKnown [john]) (oneFile john)
           johnApp "name:john" johnFile [lineOf john]).
  - reflexivity.
  - reflexivity.
  - vm_compute. discriminate.
Defined.

(** * The question mark *)

Section Bytes.
Local Open Scope nat_scope.

Variable c : ascii.

Lemma Contains_byte s : Contains s (String c EmptyString) = hasByte c s.
Proof.
  induction s as [|d s IH]; simpl; [reflexivity|].
  rewrite IH. destruct (ascii_dec c d) as [->|Hne].
  - rewrite Ascii.eqb_refl. destruct s; reflexivity.
  - rewrite (proj2 (Ascii.eqb_neq c d) Hne). reflexivity.
Qed.

Lemma hasByte_app s t : hasByte c (s ++ t) = hasByte c s || hasByte c t.
Proof.
  induction s as [|d s IH]; simpl; [reflexivity|].
  rewrite IH. apply orb_assoc.
Qed.

Lemma hasByte_prefix p : forall s,
  String.prefix p s = true -> hasByte c p = true -> hasByte c s = true.
Proof.
  induction p as [|a p IH]; intros s Hp Hc; [discriminate Hc|].
  destruct s as [|b s]; simpl in Hp, Hc; [discriminate Hp|].
  destruct (ascii_dec a b) as [->|]; [|discriminate Hp]. simpl.
  apply orb_true_iff in Hc as [Hc|Hc]; [rewrite Hc; reflexivity|].
  rewrite (IH s Hp Hc). apply orb_true_r.
Qed.

Lemma Contains_cons d s m :
  Contains (String d s) m
  = if String.prefix m (String d s) then true else Contains s m.
Proof. reflexivity. Qed.

Lemma hasByte_Contains s m :
  Contains s m = true -> hasByte c m = true -> hasByte c s = true.
Proof.
  intros Hs Hm. induction s as [|d s IH].
  - destruct m; [discriminate Hm|discriminate Hs].
  - rewrite Contains_cons in Hs.
    destruct (String.prefix m (String d s)) eqn:Hp.
    + exact (hasByte_prefix m _ Hp Hm).
    + simpl. rewrite (IH Hs). apply orb_true_r.
Qed.

Lemma hasByte_substring s : forall n m,
  hasByte c (substring n m s) = true -> hasByte c s = true.
Proof.
  induction s as [|d s IH]; intros n m H.
  - destruct n, m; discriminate H.
  - destruct n as [|n]; simpl in H.
    + destruct m as [|m]; [discriminate H|]. simpl in H. simpl.
      apply orb_true_iff in H as [H|H]; [rewrite H; reflexivity|].
      rewrite (IH 0 m H). apply orb_true_r.
    + simpl. rewrite (IH n m H). apply orb_true_r.
Qed.

Lemma hasByte_HasSuffix s suffix :
  HasSuffix s suffix = true -> hasByte c suffix = true -> hasByte c s = true.
Proof.
  unfold HasSuffix, SliceFrom, Slice. intros H Hc.
  apply andb_true_iff in H as [_ H]. apply String.eqb_eq in H.
  rewrite <- H in Hc. exact (hasByte_substring _ _ _ Hc).
Qed.

(** The bytes of a slice are bytes of the string. *)
Lemma hasByte_Slice s lo hi : hasByte c (Slice s lo hi) = true -> hasByte c s = true.
Proof. apply hasByte_substring. Qed.

End Bytes.

Section Slices.
Local Open Scope nat_scope.

Lemma substring_full s : substring 0 (String.length s) s = s.
Proof. induction s as [|a s IH]; simpl; [reflexivity|]. rewrite IH. reflexivity. Qed.

Lemma substring_split s : forall k,
  k <= String.length s -> s = substring 0 k s ++ substring k (String.length s - k) s.
Proof.
  induction s as [|a s IH]; intros k Hk; simpl in Hk.
  - replace k with 0 by lia. reflexivity.
  - destruct k as [|k].
    + simpl. rewrite substring_full. reflexivity.
    + transitivity (String a (substring 0 k s ++ substring k (String.length s - k) s));
        [|reflexivity].
      f_equal. apply IH. lia.
Qed.

Lemma string_app_length s t :
  String.length (s ++ t) = String.length s + String.length t.
Proof. induction s as [|a s IH]; simpl; [reflexivity|]. rewrite IH. reflexivity. Qed.

Lemma substring_app_left m x : substring 0 (String.length m) (m ++ x) = m.
Proof.
  induction m as [|a m IH]; simpl.
  - destruct x; reflexivity.
  - rewrite IH. reflexivity.
Qed.

Lemma HasSuffix_app s suffix : HasSuffix s suffix = true -> exists m, s = m ++ suffix.
Proof.
  unfold HasSuffix, SliceFrom, Slice. intros H.
  apply andb_true_iff in H as [Hlen H].
  apply Nat.leb_le in Hlen. apply String.eqb_eq in H.
  set (k := String.length s - String.length suffix) in *.
  exists (substring 0 k s).
  rewrite <- H. apply substring_split. subst k. lia.
Qed.

Lemma HasPrefix_byte s a :
  HasPrefix s (String a EmptyString) = true -> exists rest, s = String a rest.
Proof.
  unfold HasPrefix. destruct s as [|b s]; simpl; [discriminate|].
  destruct (ascii_dec a b) as [->|]; [eauto|discriminate].
Qed.

(** [s[1:]] and [s[:len(s)-1]] on a string with a known first or last
    byte. *)
Lemma SliceFrom_one a rest : SliceFrom (String a rest) 1 = rest.
Proof.
  unfold SliceFrom, Slice. simpl. rewrite Nat.sub_0_r. apply substring_full.
Qed.

Lemma Slice_drop_last m a :
  Slice (m ++ String a EmptyString) 0 (String.length (m ++ String a EmptyString) - 1) = m.
Proof.
  unfold Slice. rewrite string_app_length. simpl.
  replace (String.length m + 1 - 1 - 0) with (String.length m) by lia.
  apply substring_app_left.
Qed.

Lemma Slice_middle a m b :
  Slice (String a (m ++ String b EmptyString)) 1
        (String.length (String a (m ++ String b EmptyString)) - 1) = m.
Proof.
  unfold Slice. simpl. rewrite string_app_length. simpl.
  replace (String.length m + 1 - 0 - 1) with (String.length m) by lia.
  apply substring_app_left.
Qed.

End Slices.

Section QuestionMark.
Local Arguments ascii_dec : simpl never.

Lemma replace_star_keeps s : hasByte qm (ReplaceAll s "*" EmptyString) = hasByte qm s.
Proof.
  unfold ReplaceAll. induction s as [|d s IH]; simpl; [reflexivity|].
  destruct (ascii_dec "*" d) as [<-|Hne].
  - destruct s; simpl in *; exact IH.
  - simpl. rewrite IH. reflexivity.
Qed.

Lemma lowerByte_question d : Ascii.eqb qm (lowerByte d) = Ascii.eqb qm d.
Proof.
  destruct d as [[] [] [] [] [] [] [] []]; reflexivity.
Qed.

Lemma hasByte_foldCase caseSensitive s :
  hasByte qm (foldCase caseSensitive s) = hasByte qm s.
Proof.
  destruct caseSensitive; [reflexivity|]. unfold foldCase.
  induction s as [|d s IH]; [reflexivity|].
  change (Ascii.eqb qm (lowerByte d) || hasByte qm (ToLower s)
          = Ascii.eqb qm d || hasByte qm s).
  rewrite lowerByte_question, IH. reflexivity.
Qed.

(** A pattern with a question mark matches no text without one: the
    question mark is only ever compared as a byte of its own. *)
Lemma simpleWildcardMatch_question text pattern :
  hasByte qm pattern = true -> hasByte qm text = false ->
  simpleWildcardMatch text pattern = false.
Proof.
  intros Hp Ht. unfold simpleWildcardMatch.
  destruct (String.eqb_spec pattern "*") as [->|Hstar]; [discriminate Hp|].
  assert (Hq : Contains pattern "?" = true)
    by (exact (eq_trans (Contains_byte qm pattern) Hp)).
  rewrite Hq, andb_false_r.
  destruct (HasPrefix pattern "*") eqn:Hpre; destruct (HasSuffix pattern "*") eqn:Hsuf;
    simpl; apply not_true_is_false; intros Hm.
  - apply HasPrefix_byte in Hpre as [rest ->].
    apply HasSuffix_app in Hsuf as [m Hm'].
    destruct m as [|a m]; unfold String.append in Hm'; fold String.append in Hm';
      [congruence|].
    injection Hm' as <- ->.
    change (String star (m ++ "*")) with (String star (m ++ String star EmptyString)) in Hm.
    rewrite Slice_middle in Hm.
    simpl in Hp. rewrite hasByte_app in Hp. simpl in Hp. rewrite orb_false_r in Hp.
    rewrite (hasByte_Contains qm text m Hm Hp) in Ht. discriminate Ht.
  - apply HasPrefix_byte in Hpre as [rest ->].
    rewrite SliceFrom_one in Hm. simpl in Hp.
    rewrite (hasByte_HasSuffix qm text rest Hm Hp) in Ht. discriminate Ht.
  - apply HasSuffix_app in Hsuf as [m ->].
    change (m ++ "*") with (m ++ String star EmptyString) in Hm.
    rewrite Slice_drop_last in Hm.
    rewrite hasByte_app in Hp. simpl in Hp. rewrite orb_false_r in Hp.
    rewrite (hasByte_prefix qm m text Hm Hp) in Ht. discriminate Ht.
  - assert (Hr : hasByte qm (ReplaceAll pattern "*" EmptyString) = true)
      by (rewrite replace_star_keeps; exact Hp).
    rewrite (hasByte_Contains qm text _ Hm Hr) in Ht. discriminate Ht.
Qed.

Lemma matchWildcard_question text pattern caseSensitive :
  Contains pattern "?" = true -> Contains text "?" = false ->
  matchWildcard text pattern caseSensitive = false.
Proof.
  intros Hp Ht. unfold matchWildcard.
  destruct (String.eqb text EmptyString); [reflexivity|].
  apply simpleWildcardMatch_question.
  - rewrite hasByte_foldCase, <- (Contains_byte qm). exact Hp.
  - rewrite hasByte_foldCase, <- (Contains_byte qm). exact Ht.
Qed.

(** An atom whose unquoted value has a question mark is a wildcard. *)
Lemma parseAtom_question q :
  Contains (atomValue q) "?" = true -> isQuoted (atomValue q) = false ->
  parseAtom q = leafNode "wildcard" (atomField q) (atomValue q).
Proof.
  unfold parseAtom, atomValue, atomField, hasWildcard.
  destruct (Contains q ":").
  - destruct (SplitN2 q ":") as [|p0 [|p1 [|p2 rest]]];
      intros Hv Hq; rewrite Hq, Hv, orb_true_r; reflexivity.
  - intros Hv Hq. rewrite Hq, Hv, orb_true_r. reflexivity.
Qed.

End QuestionMark.

(** C6 as stated fails on a quoted value: the atom [f:"a?c"] has a value
    with a question mark and compiles to a phrase node, not to a wildcard
    node. *)
Lemma C6_quoted_value_counterexample :
  isAtom (TrimSpace ("f:" ++ dq ++ "a?c" ++ dq)) = true
  /\ Contains (atomValue (TrimSpace ("f:" ++ dq ++ "a?c" ++ dq))) "?" = true
  /\ parseLuceneQuery ("f:" ++ dq ++ "a?c" ++ dq) = Some (leafNode "phrase" "f" "a?c")
  /\ ~ questionAccepted ("f:" ++ dq ++ "a?c" ++ dq).
Proof.
  split; [vm_compute; reflexivity|]. split; [vm_compute; reflexivity|].
  split; [vm_compute; reflexivity|].
  intros (field & value & H). vm_compute in H. discriminate H.
Qed.

(** C6 (amended).  The grammar accepts the question mark: a query that is
    one atom (no [" OR "], no [" AND "], no leading ["NOT "]) whose value has
    a question mark and is not a quoted phrase compiles to a wildcard node
    on that value.  The matcher does not honour it: a pattern with a
    question mark matches no text that has no question mark of its own, so
    the pattern [a?c] does not match the field value [abc]. *)
Theorem C6_question_mark_parsed_not_matched
    (query text pattern : string) (caseSensitive : bool)
    (Hquery : TrimSpace query <> EmptyString)
    (Hatom : isAtom (TrimSpace query) = true)
    (Hvalue : Contains (atomValue (TrimSpace query)) "?" = true)
    (Hunquoted : isQuoted (atomValue (TrimSpace query)) = false)
    (Hpattern : Contains pattern "?" = true)
    (Htext : Contains text "?" = false) :
  parseLuceneQuery query
  = Some (leafNode "wildcard" (atomField (TrimSpace query))
            (atomValue (TrimSpace query)))
  /\ matchWildcard text pattern caseSensitive = false
  /\ parseLuceneQuery "f:a?c" = Some (leafNode "wildcard" "f" "a?c")
  /\ Content fAbc !! "f" = Some (JString "abc")
  /\ evaluateLuceneQuery (parseLuceneQuery "f:a?c") fAbc true = false
  /\ evaluateLuceneQuery (parseLuceneQuery "f:a?c") fAbc false = false
  /\ matchWildcard "abc" "a?c" caseSensitive = false.
Proof.
  split.
  - rewrite parseLuceneQuery_unfold, parseBody_topDownSplit. unfold topDownSplit.
    rewrite (proj2 (String.eqb_neq _ _) Hquery).
    unfold isAtom in Hatom.
    apply andb_true_iff in Hatom as [Hatom Hnot].
    apply andb_true_iff in Hatom as [Hor Hand].
    apply negb_true_iff in Hor, Hand, Hnot.
    rewrite Hor, Hand, Hnot.
    f_equal. apply parseAtom_question; assumption.
  - split; [apply matchWildcard_question; assumption|].
    split; [vm_compute; reflexivity|].
    split; [vm_compute; reflexivity|].
    split; [vm_compute; reflexivity|].
    split; [vm_compute; reflexivity|].
    apply matchWildcard_question; reflexivity.
Qed.

Lemma C6_question_mark_witness :
  parseLuceneQuery " f:a?c "
  = Some (leafNode "wildcard" (atomField (TrimSpace " f:a?c "))
            (atomValue (TrimSpace " f:a?c ")))
  /\ matchWildcard "abc" "a?c" true = false
  /\ parseLuceneQuery "f:a?c" = Some (leafNode "wildcard" "f" "a?c")
  /\ Content fAbc !! "f" = Some (JString "abc")
  /\ evaluateLuceneQuery (parseLuceneQuery "f:a?c") fAbc true = false
  /\ evaluateLuceneQuery (parseLuceneQuery "f:a?c") fAbc false = false
  /\ matchWildcard "abc" "a?c" true = false.
Proof.
  apply (C6_question_mark_parsed_not_matched " f:a?c " "abc" "a?c" true);
    try reflexivity.
  vm_compute. discriminate.
Defined.

(** * Pages of the store *)

Section Pages.

Lemma sliceZ_take_drop {A} (l : list A) (lo lim : Z) :
  0 <= lo -> 0 <= lim ->
  sliceZ l lo (Z.min (lo + lim) (lenZ l))
  = take (Z.to_nat lim) (drop (Z.to_nat lo) l).
Proof.
  intros Hlo Hlim. unfold sliceZ, lenZ.
  destruct (Z.le_gt_cases (lo + lim) (Z.of_nat (List.length l))) as [Hle|Hgt].
  - rewrite Z.min_l by lia. f_equal. lia.
  - rewrite Z.min_r by lia.
    rewrite !take_ge; [reflexivity| |]; rewrite length_drop; lia.
Qed.

(** The page that [GetRecords] returns on a store whose [totalCount] is
    the number of its records. *)
Lemma GetRecords_page (a : App) (offset limit : Z) (f : JSONLFile) (c : RecordCache) :
  currentFile a = Some f -> cache a = Some c ->
  totalCount c = lenZ (records c) -> 0 < pageSize c ->
  let off := Z.max 0 offset in
  let lim := Z.min 1000 (if limit <=? 0 then pageSize c else limit) in
  let recs := take (Z.to_nat lim) (drop (Z.to_nat off) (records c)) in
  GetRecords a offset limit
  = Ok (mkPaginatedRecords recs off lim (lenZ (records c))
          (off + lenZ recs <? lenZ (records c))).
Proof.
  intros Hfile Hcache Htotal Hsize off lim recs.
  unfold GetRecords. rewrite Hfile, Hcache, Htotal.
  assert (Hoff : (if offset <? 0 then 0 else offset) = off).
  { subst off. destruct (Z.ltb_spec offset 0); lia. }
  assert (Hlim : (if 1000 <? (if limit <=? 0 then pageSize c else limit)
                  then 1000 else (if limit <=? 0 then pageSize c else limit)) = lim).
  { subst lim. destruct (Z.ltb_spec 1000 (if limit <=? 0 then pageSize c else limit)); lia. }
  rewrite Hoff, Hlim.
  assert (Hlimpos : 0 < lim).
  { subst lim. destruct (Z.leb_spec limit 0); lia. }
  assert (Hoffnn : 0 <= off) by (subst off; lia).
  assert (Hlen : lenZ recs = Z.min lim (Z.max 0 (lenZ (records c) - off))).
  { subst recs. unfold lenZ. rewrite length_take, length_drop. lia. }
  destruct (Z.leb_spec (lenZ (records c)) off) as [Hbeyond|Hwithin].
  - assert (Hnil : recs = []).
    { subst recs. rewrite drop_ge; [apply take_nil|]. unfold lenZ in Hbeyond. lia. }
    rewrite Hnil. unfold lenZ at 3. simpl.
    rewrite (proj2 (Z.ltb_ge _ _)) by lia. reflexivity.
  - assert (Hend : (if lenZ (records c) <? off + lim then lenZ (records c) else off + lim)
                   = Z.min (off + lim) (lenZ (records c))).
    { destruct (Z.ltb_spec (lenZ (records c)) (off + lim)); lia. }
    rewrite Hend.
    rewrite (proj2 (Z.leb_le off _)) by lia.
    rewrite (proj2 (Z.leb_le (Z.min (off + lim) (lenZ (records c))) _)) by lia.
    simpl. rewrite sliceZ_take_drop by lia. fold recs.
    do 2 f_equal. rewrite Hlen.
    destruct (Z.ltb_spec (Z.min (off + lim) (lenZ (records c))) (lenZ (records c)));
      destruct (Z.ltb_spec (off + Z.min lim (Z.max 0 (lenZ (records c) - off)))
                           (lenZ (records c))); lia.
Qed.

End Pages.

(** X1.  On a store whose total count is the number of its records and
    whose page size is positive (every load builds one), [GetRecords] does
    not fail or panic: with the offset raised to 0, and the limit replaced
    by the page size when it is not positive and then capped at 1000, the
    page holds the records from the offset on, at most the limit of them,
    and [HasMore] tells whether records remain after the page. *)
Theorem X1_page_is_slice_of_store
    (a : App) (offset limit : Z) (f : JSONLFile) (c : RecordCache)
    (Hfile : currentFile a = Some f) (Hcache : cache a = Some c)
    (Htotal : totalCount c = lenZ (records c)) (Hsize : 0 < pageSize c) :
  let off := Z.max 0 offset in
  let lim := Z.min 1000 (if limit <=? 0 then pageSize c else limit) in
  exists page,
    GetRecords a offset limit = Ok page
    /\ pgRecords page = take (Z.to_nat lim) (drop (Z.to_nat off) (records c))
    /\ lenZ (pgRecords page) <= lim /\ lim <= 1000
    /\ pgOffset page = off /\ pgLimit page = lim
    /\ pgTotal page = lenZ (records c)
    /\ pgHasMore page = (off + lenZ (pgRecords page) <? lenZ (records c)).
Proof.
  intros off lim. eexists. split.
  - apply (GetRecords_page a offset limit f c); assumption.
  - simpl. repeat split; try reflexivity.
    + unfold lenZ. rewrite length_take. subst lim.
      destruct (Z.leb_spec limit 0); lia.
    + subst lim. lia.
Qed.

Lemma X1_page_is_slice_witness :
  let off := Z.max 0 (-5) in
  let lim := Z.min 1000 (if 1 <=? 0 then 50 else 1) in
  exists page,
    GetRecords (appOf [johnDoe; nullField]) (-5) 1 = Ok page
    /\ pgRecords page = take (Z.to_nat lim) (drop (Z.to_nat off) [johnDoe; nullField])
    /\ lenZ (pgRecords page) <= lim /\ lim <= 1000
    /\ pgOffset page = off /\ pgLimit page = lim
    /\ pgTotal page = lenZ [johnDoe; nullField]
    /\ pgHasMore page = (off + lenZ (pgRecords page) <? lenZ [johnDoe; nullField]).
Proof.
  apply (X1_page_is_slice_of_store (appOf [johnDoe; nullField]) (-5) 1
           (mkJSONLFile "sample.jsonl" "/tmp/sample.jsonl" 0 2)
           (mkRecordCache [johnDoe; nullField] 50 2)); reflexivity.
Defined.

(** X2.  Consecutive pages tile the store: the page at [offset] followed by
    the page at [offset + limit] is the page of twice the limit at
    [offset], as long as that stays within the cap of 1000. *)
Theorem X2_consecutive_pages_tile
    (a : App) (offset limit : Z) (f : JSONLFile) (c : RecordCache)
    (Hfile : currentFile a = Some f) (Hcache : cache a = Some c)
    (Htotal : totalCount c = lenZ (records c)) (Hsize : 0 < pageSize c)
    (Hoffset : 0 <= offset) (Hlimit : 0 < limit) (Hcap : 2 * limit <= 1000) :
  exists first second both,
    GetRecords a offset limit = Ok first
    /\ GetRecords a (offset + limit) limit = Ok second
    /\ GetRecords a offset (2 * limit) = Ok both
    /\ (pgRecords first ++ pgRecords second)%list = pgRecords both.
Proof.
  do 3 eexists. split; [|split; [|split]].
  - apply (GetRecords_page a offset limit f c); assumption.
  - apply (GetRecords_page a (offset + limit) limit f c); assumption.
  - apply (GetRecords_page a offset (2 * limit) f c); assumption.
  - simpl.
    rewrite (proj2 (Z.leb_gt limit 0)) by lia.
    rewrite (proj2 (Z.leb_gt (2 * limit) 0)) by lia.
    rewrite !Z.min_r by lia. rewrite !Z.max_r by lia.
    replace (Z.to_nat (offset + limit)) with (Z.to_nat offset + Z.to_nat limit)%nat by lia.
    rewrite <- drop_drop, take_take_drop. f_equal. lia.
Qed.

Lemma X2_consecutive_pages_witness :
  exists first second both,
    GetRecords (appOf [johnDoe; nullField; fAbc]) 0 1 = Ok first
    /\ GetRecords (appOf [johnDoe; nullField; fAbc]) (0 + 1) 1 = Ok second
    /\ GetRecords (appOf [johnDoe; nullField; fAbc]) 0 (2 * 1) = Ok both
    /\ (pgRecords first ++ pgRecords second)%list = pgRecords both.
Proof.
  apply (X2_consecutive_pages_tile (appOf [johnDoe; nullField; fAbc]) 0 1
           (mkJSONLFile "sample.jsonl" "/tmp/sample.jsonl" 0 3)
           (mkRecordCache [johnDoe; nullField; fAbc] 50 3));
    try reflexivity; lia.
Defined.

(** * Page size, ranges and lookups *)

(** X3.  [SetPageSize] keeps the page size between 1 and 1000: a size that
    is not positive becomes 50, a size above 1000 becomes 1000, any other
    size is stored as given and read back by [GetPageSize].  The file, the
    records and the total count are untouched, and a page asked for with
    limit 0 is the page of the stored size. *)
Theorem X3_page_size_clamped_and_read_back
    (a : App) (size offset : Z) (c : RecordCache) (Hcache : cache a = Some c) :
  let stored := if size <=? 0 then 50 else Z.min 1000 size in
  exists a',
    SetPageSize a size = Ok a'
    /\ GetPageSize a' = Ok stored
    /\ 1 <= stored <= 1000
    /\ (1 <= size <= 1000 -> stored = size)
    /\ currentFile a' = currentFile a
    /\ (exists c', cache a' = Some c' /\ records c' = records c
                   /\ totalCount c' = totalCount c)
    /\ GetRecords a' offset 0 = GetRecords a' offset stored.
Proof.
  intros stored. unfold SetPageSize. rewrite Hcache.
  assert (Hstored : (if 1000 <? (if size <=? 0 then 50 else size)
                     then 1000 else (if size <=? 0 then 50 else size)) = stored).
  { subst stored. destruct (Z.leb_spec size 0);
      [reflexivity|destruct (Z.ltb_spec 1000 size); lia]. }
  rewrite Hstored.
  assert (Hrange : 1 <= stored <= 1000).
  { subst stored. destruct (Z.leb_spec size 0); lia. }
  eexists. split; [reflexivity|].
  split; [reflexivity|]. split; [exact Hrange|].
  split; [intros Hin; subst stored; destruct (Z.leb_spec size 0); lia|].
  split; [reflexivity|].
  split; [eexists; repeat split; reflexivity|].
  unfold GetRecords. simpl. destruct (currentFile a); [|reflexivity].
  rewrite (proj2 (Z.leb_gt stored 0)) by lia. reflexivity.
Qed.

Lemma X3_page_size_witness :
  let stored := if 5000 <=? 0 then 50 else Z.min 1000 5000 in
  exists a',
    SetPageSize (appOf [johnDoe]) 5000 = Ok a'
    /\ GetPageSize a' = Ok stored
    /\ 1 <= stored <= 1000
    /\ (1 <= 5000 <= 1000 -> stored = 5000)
    /\ currentFile a' = currentFile (appOf [johnDoe])
    /\ (exists c', cache a' = Some c' /\ records c' = [johnDoe]
                   /\ totalCount c' = 1)
    /\ GetRecords a' 0 0 = GetRecords a' 0 stored.
Proof.
  apply (X3_page_size_clamped_and_read_back (appOf [johnDoe]) 5000 0
           (mkRecordCache [johnDoe] 50 1)). reflexivity.
Defined.

(** X4.  On a loaded store [GetRecordRange] with [0 < startLine <= endLine]
    returns exactly the stored records whose line numbers lie in the range,
    both ends included, in store order; a start or an end that is not
    positive, or a start above the end, gives the invalid-line-number
    error. *)
Theorem X4_range_is_filter_of_store
    (a : App) (startLine endLine : Z) (f : JSONLFile) (c : RecordCache)
    (Hfile : currentFile a = Some f) (Hcache : cache a = Some c) :
  (0 < startLine <= endLine ->
   exists found,
     GetRecordRange a startLine endLine = Ok found
     /\ found `sublist_of` records c
     /\ (forall r, r ∈ found
                   <-> r ∈ records c /\ startLine <= LineNumber r <= endLine))
  /\ (startLine <= 0 \/ endLine <= 0 \/ endLine < startLine ->
      exists e, GetRecordRange a startLine endLine = Fail e
                /\ Err e = ErrInvalidLineNum
                /\ ErrorText e = "Invalid line number range").
Proof.
  unfold GetRecordRange. rewrite Hfile, Hcache. split.
  - intros Hrange.
    rewrite (proj2 (Z.leb_gt startLine 0)), (proj2 (Z.leb_gt endLine 0)),
      (proj2 (Z.ltb_ge endLine startLine)) by lia.
    simpl. eexists. split; [reflexivity|]. split.
    + induction (records c) as [|r l IH]; simpl; [constructor|].
      destruct ((startLine <=? LineNumber r) && (LineNumber r <=? endLine));
        [apply sublist_skip|apply sublist_cons]; exact IH.
    + intros r. rewrite list_elem_of_In, List.filter_In, <- list_elem_of_In.
      rewrite andb_true_iff, Z.leb_le, Z.leb_le. tauto.
  - intros Hbad.
    assert (Htest : (startLine <=? 0) || (endLine <=? 0) || (endLine <? startLine) = true).
    { destruct Hbad as [H|[H|H]].
      - rewrite (proj2 (Z.leb_le startLine 0)) by lia. reflexivity.
      - rewrite (proj2 (Z.leb_le endLine 0)) by lia. apply orb_true_iff. left.
        apply orb_true_r.
      - rewrite (proj2 (Z.ltb_lt endLine startLine)) by lia. apply orb_true_r. }
    rewrite Htest. eexists. repeat split; reflexivity.
Qed.

Lemma X4_range_witness :
  (0 < 1 <= 2 ->
   exists found,
     GetRecordRange (appOf [johnDoe]) 1 2 = Ok found
     /\ found `sublist_of` [johnDoe]
     /\ (forall r, r ∈ found <-> r ∈ [johnDoe] /\ 1 <= LineNumber r <= 2))
  /\ (1 <= 0 \/ 2 <= 0 \/ 2 < 1 ->
      exists e, GetRecordRange (appOf [johnDoe]) 1 2 = Fail e
                /\ Err e = ErrInvalidLineNum
                /\ ErrorText e = "Invalid line number range").
Proof.
  apply (X4_range_is_filter_of_store (appOf [johnDoe]) 1 2
           (mkJSONLFile "sample.jsonl" "/tmp/sample.jsonl" 0 1)
           (mkRecordCache [johnDoe] 50 1)); reflexivity.
Defined.

Lemma filter_unique_line (recs : list JSONRecord) r :
  NoDup (map LineNumber recs) -> r ∈ recs ->
  List.filter (fun record => (LineNumber r <=? LineNumber record)
                             && (LineNumber record <=? LineNumber r)) recs = [r].
Proof.
  induction recs as [|x recs IH]; intros Hnd Hin.
  - apply elem_of_nil in Hin. contradiction.
  - simpl in Hnd. apply NoDup_cons in Hnd as [Hx Hnd]. simpl.
    assert (Hnone : forall l : list JSONRecord,
              (forall y, y ∈ l -> LineNumber y <> LineNumber r) ->
              List.filter (fun record => (LineNumber r <=? LineNumber record)
                                         && (LineNumber record <=? LineNumber r)) l = []).
    { induction l as [|y l IHl]; intros Hl; simpl; [reflexivity|].
      assert (LineNumber y <> LineNumber r) by (apply Hl; left).
      replace ((LineNumber r <=? LineNumber y) && (LineNumber y <=? LineNumber r))
        with false.
      - apply IHl. intros z Hz. apply Hl. right. exact Hz.
      - symmetry. apply andb_false_iff.
        destruct (Z.leb_spec (LineNumber r) (LineNumber y)); [right|left; reflexivity].
        apply Z.leb_gt. lia. }
    apply elem_of_cons in Hin as [->|Hin].
    + rewrite Z.leb_refl. simpl. f_equal. apply Hnone.
      intros y Hy Heq. apply Hx. rewrite <- Heq.
      apply list_elem_of_fmap. exists y. split; [reflexivity|exact Hy].
    + replace ((LineNumber r <=? LineNumber x) && (LineNumber x <=? LineNumber r))
        with false; [apply IH; assumption|].
      symmetry. apply andb_false_iff.
      assert (LineNumber x <> LineNumber r).
      { intros Heq. apply Hx. rewrite Heq.
        apply list_elem_of_fmap. exists r. split; [reflexivity|exact Hin]. }
      destruct (Z.leb_spec (LineNumber r) (LineNumber x)); [right|left; reflexivity].
      apply Z.leb_gt. lia.
Qed.

(** X5.  Lookup by line and range agree: when the line numbers of the store
    are pairwise different (as they are after a load) and
    [GetRecordByLineNumber n] returns a record, the one-line range from [n]
    to [n] returns that record and nothing else. *)
Theorem X5_single_line_range_is_lookup
    (a : App) (n : Z) (r : JSONRecord) (f : JSONLFile) (c : RecordCache)
    (Hfile : currentFile a = Some f) (Hcache : cache a = Some c)
    (Hunique : NoDup (map LineNumber (records c)))
    (Hfound : GetRecordByLineNumber a n = Ok r) :
  GetRecordRange a n n = Ok [r].
Proof.
  unfold GetRecordByLineNumber in Hfound. rewrite Hfile, Hcache in Hfound.
  destruct (Z.leb_spec n 0) as [|Hpos]; [discriminate Hfound|].
  destruct (List.find _ (records c)) as [r'|] eqn:Hfind; [|discriminate Hfound].
  injection Hfound as ->.
  apply List.find_some in Hfind as [Hin Heq].
  apply Z.eqb_eq in Heq. apply list_elem_of_In in Hin.
  unfold GetRecordRange. rewrite Hfile, Hcache.
  rewrite (proj2 (Z.leb_gt n 0)), (proj2 (Z.ltb_ge n n)) by lia. simpl.
  subst n. rewrite (filter_unique_line (records c) r Hunique Hin). reflexivity.
Qed.

Lemma X5_single_line_range_witness :
  GetRecordRange (appOf [johnDoe]) 1 1 = Ok [johnDoe].
Proof.
  apply (X5_single_line_range_is_lookup (appOf [johnDoe]) 1 johnDoe
           (mkJSONLFile "sample.jsonl" "/tmp/sample.jsonl" 0 1)
           (mkRecordCache [johnDoe] 50 1)); try reflexivity.
  simpl. apply NoDup_singleton.
Defined.

(** * Ingestion *)

Section IngestFacts.

Variable Unmarshal : string -> option (gmap string JSONValue).

(** The records of the valid lines, read from line [n] on: one record per
    line that is not blank and decodes, carrying the position of the line,
    the trimmed line and its decoding. *)
Lemma validFrom_elem scanned : forall n r,
  r ∈ exportLoop Unmarshal EmptyString n scanned
  <-> exists (i : nat) raw,
        scanned !! i = Some raw
        /\ LineNumber r = n + Z.of_nat i
        /\ RawJSON r = TrimSpace raw
        /\ TrimSpace raw <> EmptyString
        /\ Unmarshal (TrimSpace raw) = Some (Content r).
Proof.
  induction scanned as [|raw rest IH]; intros n r.
  - simpl. split.
    + intros H. apply elem_of_nil in H. contradiction.
    + intros (i & raw & H & _). rewrite lookup_nil in H. discriminate H.
  - assert (Hshift : r ∈ exportLoop Unmarshal EmptyString (n + 1) rest
                     <-> exists (i : nat) raw',
                           (raw :: rest) !! S i = Some raw'
                           /\ LineNumber r = n + Z.of_nat (S i)
                           /\ RawJSON r = TrimSpace raw'
                           /\ TrimSpace raw' <> EmptyString
                           /\ Unmarshal (TrimSpace raw') = Some (Content r)).
    { rewrite IH. split; intros (i & raw' & H1 & H2 & H3); exists i, raw';
        (split; [exact H1|split; [lia|exact H3]]). }
    simpl.
    destruct (String.eqb_spec (TrimSpace raw) EmptyString) as [Hblank|Hfull].
    + rewrite Hshift. split.
      * intros (i & raw' & H). exists (S i), raw'. exact H.
      * intros ([|i] & raw' & H1 & H2 & H3 & H4 & H5).
        -- simpl in H1. injection H1 as <-. contradiction.
        -- exists i, raw'. auto.
    + destruct (Unmarshal (TrimSpace raw)) as [content|] eqn:Hdec.
      * simpl. rewrite elem_of_cons, Hshift. split.
        -- intros [->|(i & raw' & H)].
           ++ exists 0%nat, raw. simpl. repeat split; auto; lia.
           ++ exists (S i), raw'. exact H.
        -- intros ([|i] & raw' & H1 & H2 & H3 & H4 & H5).
           ++ simpl in H1. injection H1 as <-. left.
              destruct r as [ln ct rw]. simpl in *.
              rewrite Hdec in H5. injection H5 as <-. f_equal; [lia|auto].
           ++ right. exists i, raw'. auto.
      * rewrite Hshift. split.
        -- intros (i & raw' & H). exists (S i), raw'. exact H.
        -- intros ([|i] & raw' & H1 & H2 & H3 & H4 & H5).
           ++ simpl in H1. injection H1 as <-. rewrite Hdec in H5. discriminate H5.
           ++ exists i, raw'. auto.
Qed.

(** The line numbers of the records grow strictly. *)
Lemma validFrom_increasing scanned : forall n,
  StronglySorted Z.lt (map LineNumber (exportLoop Unmarshal EmptyString n scanned)).
Proof.
  induction scanned as [|raw rest IH]; intros n; simpl; [constructor|].
  destruct (String.eqb (TrimSpace raw) EmptyString); [apply IH|].
  destruct (Unmarshal (TrimSpace raw)) as [content|]; [|apply IH].
  simpl. constructor; [apply IH|].
  apply Forall_forall. intros k Hk.
  apply list_elem_of_fmap in Hk as (r & -> & Hr).
  apply validFrom_elem in Hr as (i & raw' & _ & Hline & _). lia.
Qed.

Lemma increasing_NoDup (l : list Z) : StronglySorted Z.lt l -> NoDup l.
Proof.
  induction 1 as [|x l Hs IH Hall]; constructor; [|exact IH].
  intros Hin. rewrite Forall_forall in Hall.
  specialize (Hall x Hin). lia.
Qed.

(** The counters of the parsing loop. *)
Lemma parseLoop_counts scanned : forall st n,
  let final := parseLoop Unmarshal st n scanned in
  psTotalRecords final - psTotalRecords st
  = lenZ (psRecords final) - lenZ (psRecords st)
  /\ lenZ (psRecords final) + lenZ (psInvalidLines final)
     <= lenZ (psRecords st) + lenZ (psInvalidLines st) + lenZ scanned.
Proof.
  induction scanned as [|raw rest IH]; intros st n; simpl.
  - unfold lenZ. simpl. lia.
  - specialize (IH (parseLine Unmarshal st n raw) (n + 1)). simpl in IH.
    destruct IH as [IH1 IH2].
    assert (Hstep :
      psTotalRecords (parseLine Unmarshal st n raw) - psTotalRecords st
      = lenZ (psRecords (parseLine Unmarshal st n raw)) - lenZ (psRecords st)
      /\ lenZ (psRecords (parseLine Unmarshal st n raw))
         + lenZ (psInvalidLines (parseLine Unmarshal st n raw))
         <= lenZ (psRecords st) + lenZ (psInvalidLines st) + 1).
    { unfold parseLine.
      destruct (String.eqb (TrimSpace raw) EmptyString); [lia|].
      destruct (Unmarshal (TrimSpace raw)); simpl; unfold lenZ;
        rewrite length_app; simpl; lia. }
    unfold lenZ in *. simpl. lia.
Qed.

(** A line number is recorded as invalid exactly when the line at that
    position fails [ValidateJSONLLine]. *)
Lemma parseLoop_invalid scanned : forall st n k,
  k ∈ psInvalidLines (parseLoop Unmarshal st n scanned)
  <-> k ∈ psInvalidLines st
      \/ exists (i : nat) raw,
           scanned !! i = Some raw /\ k = n + Z.of_nat i
           /\ ValidateJSONLLine Unmarshal raw k <> None.
Proof.
  induction scanned as [|raw rest IH]; intros st n k; simpl.
  - split; [auto|]. intros [H|(i & raw & H & _)]; [exact H|].
    rewrite lookup_nil in H. discriminate H.
  - rewrite IH.
    assert (Hhere : k ∈ psInvalidLines (parseLine Unmarshal st n raw)
                    <-> k ∈ psInvalidLines st
                        \/ (k = n /\ ValidateJSONLLine Unmarshal raw k <> None)).
    { unfold parseLine, ValidateJSONLLine.
      destruct (String.eqb (TrimSpace raw) EmptyString); [tauto|].
      destruct (Unmarshal (TrimSpace raw)); simpl.
      - tauto.
      - rewrite elem_of_app, list_elem_of_singleton. split.
        + intros [H|H]; [auto|]. right. split; [exact H|discriminate].
        + intros [H|[H _]]; auto. }
    rewrite Hhere. split.
    + intros [[H|[-> H]]|(i & raw' & H1 & -> & H3)].
      * left. exact H.
      * right. exists 0%nat, raw. simpl. repeat split; auto. lia.
      * right. exists (S i), raw'. simpl. repeat split; auto. lia.
    + intros [H|([|i] & raw' & H1 & Hk & H3)].
      * left. left. exact H.
      * simpl in H1. injection H1 as <-. left. right. split; [lia|exact H3].
      * right. exists i, raw'. simpl in H1. repeat split; auto. lia.
Qed.

End IngestFacts.

Lemma parseLines_counts (Unmarshal : string -> option (gmap string JSONValue))
    (lines : list string) (size : Z) :
  ValidRecords (snd (parseLines Unmarshal lines size))
  = lenZ (fst (parseLines Unmarshal lines size))
  /\ TotalLines (snd (parseLines Unmarshal lines size)) = lenZ lines
  /\ ValidRecords (snd (parseLines Unmarshal lines size))
     + lenZ (InvalidLines (snd (parseLines Unmarshal lines size)))
     <= TotalLines (snd (parseLines Unmarshal lines size))
  /\ FileSize (snd (parseLines Unmarshal lines size)) = size.
Proof.
  unfold parseLines. simpl.
  destruct (parseLoop_counts Unmarshal lines (mkParseState [] [] ∅ 0) 1) as [H1 H2].
  simpl in H1, H2. unfold lenZ in *. simpl in *. repeat split; lia.
Qed.

(** X6.  The statistics of a load count what the load stored: the number of
    valid records is the number of records returned, the total is the
    number of lines read, and valid and invalid lines together are at most
    all lines (blank lines are in neither).  The same holds for text split
    at line feeds. *)
Theorem X6_load_statistics_count_the_records :
  forall (Unmarshal : string -> option (gmap string JSONValue))
         (scanned : list string) (content : string) (fileSize : Z),
    let fromFile := ParseJSONL Unmarshal scanned fileSize in
    let fromText := ParseJSONLFromString Unmarshal content in
    (ValidRecords (snd fromFile) = lenZ (fst fromFile)
     /\ TotalLines (snd fromFile) = lenZ scanned
     /\ ValidRecords (snd fromFile) + lenZ (InvalidLines (snd fromFile))
        <= TotalLines (snd fromFile)
     /\ FileSize (snd fromFile) = fileSize)
    /\ (ValidRecords (snd fromText) = lenZ (fst fromText)
        /\ TotalLines (snd fromText) = lenZ (Split content nl)
        /\ ValidRecords (snd fromText) + lenZ (InvalidLines (snd fromText))
           <= TotalLines (snd fromText)
        /\ FileSize (snd fromText) = Z.of_nat (String.length content)).
Proof.
  intros Unmarshal scanned content fileSize fromFile fromText.
  split; apply parseLines_counts.
Qed.

(** X7.  The records of a load are exactly the lines that are not blank and
    decode: each carries the 1-based position of its line, the line with
    the surrounding white space removed, and the decoding of that text.
    Their line numbers grow strictly, so no two records share one. *)
Theorem X7_records_are_the_valid_lines :
  forall (Unmarshal : string -> option (gmap string JSONValue))
         (scanned : list string) (fileSize : Z),
    let recs := fst (ParseJSONL Unmarshal scanned fileSize) in
    (forall r,
        r ∈ recs
        <-> exists (i : nat) raw,
              scanned !! i = Some raw
              /\ LineNumber r = 1 + Z.of_nat i
              /\ RawJSON r = TrimSpace raw
              /\ TrimSpace raw <> EmptyString
              /\ Unmarshal (TrimSpace raw) = Some (Content r))
    /\ StronglySorted Z.lt (map LineNumber recs)
    /\ NoDup (map LineNumber recs).
Proof.
  intros Unmarshal scanned fileSize recs. subst recs.
  rewrite ParseJSONL_records. unfold validRecords.
  split; [intros r; apply validFrom_elem|].
  split; [apply validFrom_increasing|].
  apply increasing_NoDup, validFrom_increasing.
Qed.

(** X8.  The invalid line numbers of a load are exactly the positions of
    the lines that [ValidateJSONLLine] rejects. *)
Theorem X8_invalid_lines_are_the_rejected_lines :
  forall (Unmarshal : string -> option (gmap string JSONValue))
         (scanned : list string) (fileSize k : Z),
    k ∈ InvalidLines (snd (ParseJSONL Unmarshal scanned fileSize))
    <-> exists (i : nat) raw,
          scanned !! i = Some raw /\ k = 1 + Z.of_nat i
          /\ ValidateJSONLLine Unmarshal raw k <> None.
Proof.
  intros Unmarshal scanned fileSize k.
  unfold ParseJSONL, parseLines. simpl.
  rewrite parseLoop_invalid. simpl. split.
  - intros [H|H]; [apply elem_of_nil in H; contradiction|exact H].
  - intros H. right. exact H.
Qed.

Lemma find_unique_line (recs : list JSONRecord) r :
  NoDup (map LineNumber recs) -> r ∈ recs ->
  List.find (fun record => LineNumber record =? LineNumber r) recs = Some r.
Proof.
  induction recs as [|x recs IH]; intros Hnd Hin.
  - apply elem_of_nil in Hin. contradiction.
  - simpl in Hnd. apply NoDup_cons in Hnd as [Hx Hnd]. simpl.
    apply elem_of_cons in Hin as [->|Hin].
    + rewrite Z.eqb_refl. reflexivity.
    + destruct (Z.eqb_spec (LineNumber x) (LineNumber r)) as [Heq|_].
      * exfalso. apply Hx. rewrite Heq.
        apply list_elem_of_fmap. exists r. split; [reflexivity|exact Hin].
      * apply IH; assumption.
Qed.

(** X9.  After a successful [LoadJSONLFile] every stored record is found
    again under its own line number, the total record count is the record
    count of the file's metadata and the number of stored records, the page
    size is 50, and parsing the same file again for its statistics gives
    the same number of valid records. *)
Theorem X9_load_then_lookup
    (Unmarshal : string -> option (gmap string JSONValue))
    (scanFile : string -> option (list string)) (Base : string -> string)
    (a a' : App) (filePath : string) (fileSize : Z) (file : JSONLFile)
    (Hload : LoadJSONLFile Unmarshal scanFile Base a filePath fileSize = Ok (a', file)) :
  (forall r, r ∈ appRecords a' -> GetRecordByLineNumber a' (LineNumber r) = Ok r)
  /\ GetTotalRecordCount a' = Ok (Records file)
  /\ Records file = lenZ (appRecords a')
  /\ GetPageSize a' = Ok 50
  /\ currentFile a' = Some file /\ Path file = filePath
  /\ cache a' = Some (mkRecordCache (appRecords a') 50 (lenZ (appRecords a')))
  /\ (exists stats, GetFileStats Unmarshal scanFile a' fileSize = Ok stats
                    /\ ValidRecords stats = Records file).
Proof.
  unfold LoadJSONLFile in Hload.
  destruct (String.eqb filePath EmptyString); [discriminate Hload|].
  destruct (scanFile filePath) as [scanned|] eqn:Hscan; [|discriminate Hload].
  destruct (ParseJSONL Unmarshal scanned fileSize) as [recs stats] eqn:Hparse.
  injection Hload as <- <-.
  pose proof (parseLines_counts Unmarshal scanned fileSize) as [Hvalid _].
  pose proof (ParseJSONL_records Unmarshal scanned fileSize) as Hrecs.
  unfold ParseJSONL in Hparse, Hrecs. rewrite Hparse in Hvalid, Hrecs.
  simpl in Hvalid, Hrecs. unfold validRecords in Hrecs.
  assert (Hnd : NoDup (map LineNumber recs))
    by (rewrite Hrecs; apply increasing_NoDup, validFrom_increasing).
  simpl. split.
  - intros r Hin. unfold GetRecordByLineNumber. simpl.
    assert (Hline := Hin). rewrite Hrecs in Hline.
    apply validFrom_elem in Hline as (i & raw & _ & Hline & _).
    rewrite (proj2 (Z.leb_gt (LineNumber r) 0)) by lia.
    rewrite (find_unique_line recs r Hnd Hin). reflexivity.
  - split; [unfold GetTotalRecordCount; simpl; rewrite Hvalid; reflexivity|].
    split; [exact Hvalid|]. split; [reflexivity|].
    split; [reflexivity|]. split; [reflexivity|]. split; [reflexivity|].
    exists stats. unfold GetFileStats, ParseJSONL. cbn [currentFile Path].
    rewrite Hscan, Hparse. split; reflexivity.
Qed.

Lemma X9_load_then_lookup_witness :
  (forall r, r ∈ appRecords johnApp -> GetRecordByLineNumber johnApp (LineNumber r) = Ok r)
  /\ GetTotalRecordCount johnApp = Ok (Records johnFile)
  /\ Records johnFile = lenZ (appRecords johnApp)
  /\ GetPageSize johnApp = Ok 50
  /\ currentFile johnApp = Some johnFile /\ Path johnFile = "/tmp/sample.jsonl"
  /\ cache johnApp
     = Some (mkRecordCache (appRecords johnApp) 50 (lenZ (appRecords johnApp)))
  /\ (exists stats,
        GetFileStats (decodeKnown [john]) (oneFile john) johnApp 15 = Ok stats
        /\ ValidRecords stats = Records johnFile).
Proof.
  apply (X9_load_then_lookup (decodeKnown [john]) (oneFile john)
           (fun _ => "sample.jsonl") (mkApp None [] None) johnApp
           "/tmp/sample.jsonl" 15 johnFile).
  vm_compute. reflexivity.
Defined.

(** * Search *)

Section SearchFacts.

(** The offset-and-limit step that [SearchRecords] applies to the matching
    records. *)
Lemma paginate_matches {A} (found : list A) (off lim : Z) :
  0 <= off -> 0 < lim ->
  let page := take (Z.to_nat lim) (drop (Z.to_nat off) found) in
  let endIndex := if lenZ found <? off + lim then lenZ found else off + lim in
  (lenZ found <= off -> page = [] /\ (off + lenZ page <? lenZ found) = false)
  /\ (off < lenZ found ->
      sliceZ found off endIndex = page
      /\ (endIndex <? lenZ found) = (off + lenZ page <? lenZ found)).
Proof.
  intros Hoff Hlim page endIndex.
  assert (Hlen : lenZ page = Z.min lim (Z.max 0 (lenZ found - off))).
  { subst page. unfold lenZ. rewrite length_take, length_drop. lia. }
  split.
  - intros Hbeyond.
    assert (Hnil : page = []).
    { subst page. rewrite drop_ge; [apply take_nil|]. unfold lenZ in Hbeyond. lia. }
    split; [exact Hnil|]. apply Z.ltb_ge. rewrite Hlen. lia.
  - intros Hwithin.
    assert (Hend : endIndex = Z.min (off + lim) (lenZ found)).
    { subst endIndex. destruct (Z.ltb_spec (lenZ found) (off + lim)); lia. }
    rewrite Hend. split.
    + apply sliceZ_take_drop; lia.
    + rewrite Hlen.
      destruct (Z.ltb_spec (Z.min (off + lim) (lenZ found)) (lenZ found));
        destruct (Z.ltb_spec (off + Z.min lim (Z.max 0 (lenZ found - off))) (lenZ found));
        lia.
Qed.

(** The result of a search in Lucene syntax for a query that is not
    blank. *)
Lemma SearchRecords_lucene (a : App) (options : SearchOptions)
    (f : JSONLFile) (c : RecordCache) :
  currentFile a = Some f -> cache a = Some c ->
  TrimSpace (optQuery options) <> EmptyString -> optUseLucene options = true ->
  let found :=
    List.filter (fun r => evaluateLuceneQuery (parseLuceneQuery (optQuery options)) r
                            (optCaseSensitive options))
                (records c) in
  let off := Z.max 0 (optOffset options) in
  let lim := Z.min 1000 (if optLimit options <=? 0 then 50 else optLimit options) in
  let page := take (Z.to_nat lim) (drop (Z.to_nat off) found) in
  SearchRecords a options
  = Ok (mkSearchResult page off lim (totalCount c) (lenZ found)
          (off + lenZ page <? lenZ found) (optQuery options)).
Proof.
  intros Hfile Hcache Hquery Hlucene found off lim page.
  unfold SearchRecords, SearchRecordsWith.
  rewrite Hfile, Hcache, Hlucene, (proj2 (String.eqb_neq _ _) Hquery).
  destruct (parseLuceneQuery_Some _ Hquery) as [node Hnode].
  assert (Hfound :
    List.filter (fun record => evaluateLuceneQuery (Some node) record
                                 (optCaseSensitive options)) (records c) = found).
  { subst found. rewrite Hnode. reflexivity. }
  rewrite Hnode, Hfound.
  assert (Hoff : (if optOffset options <? 0 then 0 else optOffset options) = off).
  { subst off. destruct (Z.ltb_spec (optOffset options) 0); lia. }
  assert (Hlim : (if 1000 <? (if optLimit options <=? 0 then 50 else optLimit options)
                  then 1000
                  else (if optLimit options <=? 0 then 50 else optLimit options)) = lim).
  { subst lim.
    destruct (Z.ltb_spec 1000 (if optLimit options <=? 0 then 50 else optLimit options));
      lia. }
  rewrite Hoff, Hlim.
  assert (Hlimpos : 0 < lim) by (subst lim; destruct (Z.leb_spec (optLimit options) 0); lia).
  assert (Hoffnn : 0 <= off) by (subst off; lia).
  destruct (paginate_matches found off lim Hoffnn Hlimpos) as [Hbeyond Hwithin].
  fold page in Hbeyond, Hwithin.
  destruct (Z.leb_spec (lenZ found) off) as [Hle|Hgt].
  - destruct (Hbeyond Hle) as [-> ->]. reflexivity.
  - destruct (Hwithin Hgt) as [-> ->]. reflexivity.
Qed.

Lemma filter_sublist_of {A} (p : A -> bool) (l : list A) : List.filter p l `sublist_of` l.
Proof.
  induction l as [|x l IH]; simpl; [constructor|].
  destruct (p x); [apply sublist_skip|apply sublist_cons]; exact IH.
Qed.

End SearchFacts.

(** X10.  A search in Lucene syntax with a query that is not blank returns
    a window of the matching records: [TotalMatches] is the number of
    stored records on which the compiled query evaluates to true, the
    records returned are those from the offset (raised to 0) on, at most
    the limit (50 when not positive, capped at 1000), all of them match and
    keep the store order, and [HasMore] tells whether matches remain after
    the window. *)
Theorem X10_search_is_window_of_matches
    (a : App) (options : SearchOptions) (f : JSONLFile) (c : RecordCache)
    (Hfile : currentFile a = Some f) (Hcache : cache a = Some c)
    (Hquery : TrimSpace (optQuery options) <> EmptyString)
    (Hlucene : optUseLucene options = true) :
  let matches := fun r =>
    evaluateLuceneQuery (parseLuceneQuery (optQuery options)) r
      (optCaseSensitive options) in
  let found := List.filter matches (records c) in
  let off := Z.max 0 (optOffset options) in
  let lim := Z.min 1000 (if optLimit options <=? 0 then 50 else optLimit options) in
  exists res,
    SearchRecords a options = Ok res
    /\ srTotalMatches res = lenZ found
    /\ srTotal res = totalCount c
    /\ srRecords res = take (Z.to_nat lim) (drop (Z.to_nat off) found)
    /\ lenZ (srRecords res) <= lim /\ lim <= 1000
    /\ Forall (fun r => matches r = true) (srRecords res)
    /\ srRecords res `sublist_of` records c
    /\ srHasMore res = (off + lenZ (srRecords res) <? srTotalMatches res).
Proof.
  intros matches found off lim. eexists. split.
  - apply (SearchRecords_lucene a options f c); assumption.
  - simpl. fold matches. fold found. fold off. fold lim.
    split; [reflexivity|]. split; [reflexivity|]. split; [reflexivity|].
    split.
    { unfold lenZ. rewrite length_take. subst lim.
      destruct (Z.leb_spec (optLimit options) 0); lia. }
    split; [subst lim; lia|].
    split.
    { apply Forall_forall. intros r Hr.
      assert (Hin : r ∈ found).
      { eapply elem_of_sublist; [exact Hr|].
        etransitivity; [apply sublist_take|apply sublist_drop]. }
      apply list_elem_of_In, List.filter_In in Hin. tauto. }
    split; [|reflexivity].
    etransitivity; [apply sublist_take|].
    etransitivity; [apply sublist_drop|]. apply filter_sublist_of.
Qed.

Lemma X10_search_window_witness :
  let options := mkSearchOptions "name:john" false true EmptyString 0 10 in
  let matches := fun r =>
    evaluateLuceneQuery (parseLuceneQuery (optQuery options)) r
      (optCaseSensitive options) in
  let found := List.filter matches [recordOf 1 john] in
  let off := Z.max 0 (optOffset options) in
  let lim := Z.min 1000 (if optLimit options <=? 0 then 50 else optLimit options) in
  exists res,
    SearchRecords johnApp options = Ok res
    /\ srTotalMatches res = lenZ found
    /\ srTotal res = 1
    /\ srRecords res = take (Z.to_nat lim) (drop (Z.to_nat off) found)
    /\ lenZ (srRecords res) <= lim /\ lim <= 1000
    /\ Forall (fun r => matches r = true) (srRecords res)
    /\ srRecords res `sublist_of` [recordOf 1 john]
    /\ srHasMore res = (off + lenZ (srRecords res) <? srTotalMatches res).
Proof.
  apply (X10_search_is_window_of_matches johnApp
           (mkSearchOptions "name:john" false true EmptyString 0 10)
           johnFile (mkRecordCache [recordOf 1 john] 50 1)); try reflexivity.
  vm_compute. discriminate.
Defined.

(** X11.  Export and case-insensitive search agree: when the store holds
    the records of the file (as after a load) and the query is not blank,
    the records that [GetAllRecords] exports are the matches of the Lucene
    search with [caseSensitive = false]; the search reports their number as
    [TotalMatches] and returns the window of them at its offset and
    limit. *)
Theorem X11_export_is_the_case_insensitive_search
    (Unmarshal : string -> option (gmap string JSONValue))
    (scanFile : string -> option (list string))
    (a : App) (query : string) (offset limit : Z)
    (f : JSONLFile) (c : RecordCache) (scanned : list string)
    (Hfile : currentFile a = Some f) (Hcache : cache a = Some c)
    (Hscan : scanFile (Path f) = Some scanned)
    (Hstore : records c = validRecords Unmarshal scanned)
    (Hquery : TrimSpace query <> EmptyString) :
  let off := Z.max 0 offset in
  let lim := Z.min 1000 (if limit <=? 0 then 50 else limit) in
  exists exported res,
    GetAllRecords Unmarshal scanFile a query = inl exported
    /\ SearchRecords a (mkSearchOptions query false true EmptyString offset limit) = Ok res
    /\ srTotalMatches res = lenZ exported
    /\ srRecords res = take (Z.to_nat lim) (drop (Z.to_nat off) exported).
Proof.
  intros off lim. do 2 eexists. split; [|split].
  - unfold GetAllRecords. rewrite Hfile, Hscan. reflexivity.
  - apply (SearchRecords_lucene a _ f c); assumption || reflexivity.
  - simpl. rewrite Hstore, exportLoop_filter. unfold validRecords.
    rewrite (List.filter_ext (exportKeeps query)
               (fun r => evaluateLuceneQuery (parseLuceneQuery query) r false))
      by (intros r; apply exportKeeps_compiled, Hquery).
    split; reflexivity.
Qed.

Lemma X11_export_search_witness :
  let off := Z.max 0 0 in
  let lim := Z.min 1000 (if 10 <=? 0 then 50 else 10) in
  exists exported res,
    GetAllRecords (decodeKnown [john]) (oneFile john) johnApp "name:john" = inl exported
    /\ SearchRecords johnApp (mkSearchOptions "name:john" false true EmptyString 0 10)
       = Ok res
    /\ srTotalMatches res = lenZ exported
    /\ srRecords res = take (Z.to_nat lim) (drop (Z.to_nat off) exported).
Proof.
  apply (X11_export_is_the_case_insensitive_search (decodeKnown [john]) (oneFile john)
           johnApp "name:john" 0 10 johnFile (mkRecordCache [recordOf 1 john] 50 1)
           [lineOf john]); try reflexivity.
  vm_compute. discriminate.
Defined.

(** * The compiled query *)

(** X12.  The compiler returns nil exactly for the queries that are empty
    or all white space. *)
Theorem X12_compile_nil_iff_blank :
  forall query, parseLuceneQuery query = None <-> TrimSpace query = EmptyString.
Proof.
  intros query. split.
  - intros Hnil. destruct (String.eqb_spec (TrimSpace query) EmptyString) as [|Hne];
      [assumption|].
    destruct (parseLuceneQuery_Some _ Hne) as [node Hnode]. congruence.
  - apply parseLuceneQuery_blank.
Qed.

Section Semantics.

Variables (record : JSONRecord) (caseSensitive : bool).

Lemma evaluate_or_chain rest : forall first,
  evaluateLuceneQuery
    (fold_left (fun acc operand => Some (binNode "or" acc operand)) rest first)
    record caseSensitive
  = evaluateLuceneQuery first record caseSensitive
    || existsb (fun o => evaluateLuceneQuery o record caseSensitive) rest.
Proof.
  induction rest as [|o rest IH]; intros first; simpl fold_left.
  - simpl. rewrite orb_false_r. reflexivity.
  - rewrite IH. unfold binNode. rewrite evaluate_or. simpl existsb.
    rewrite orb_assoc. reflexivity.
Qed.

Lemma evaluate_and_chain rest : forall first,
  evaluateLuceneQuery
    (fold_left (fun acc operand => Some (binNode "and" acc operand)) rest first)
    record caseSensitive
  = evaluateLuceneQuery first record caseSensitive
    && forallb (fun o => evaluateLuceneQuery o record caseSensitive) rest.
Proof.
  induction rest as [|o rest IH]; intros first; simpl fold_left.
  - simpl. rewrite andb_true_r. reflexivity.
  - rewrite IH. unfold binNode. rewrite evaluate_and. simpl forallb.
    rewrite andb_assoc. reflexivity.
Qed.

Lemma existsb_map {A B} (g : A -> B) (p : B -> bool) (l : list A) :
  existsb p (map g l) = existsb (fun x => p (g x)) l.
Proof. induction l as [|x l IH]; simpl; [reflexivity|]. rewrite IH. reflexivity. Qed.

Lemma forallb_map {A B} (g : A -> B) (p : B -> bool) (l : list A) :
  forallb p (map g l) = forallb (fun x => p (g x)) l.
Proof. induction l as [|x l IH]; simpl; [reflexivity|]. rewrite IH. reflexivity. Qed.

End Semantics.

(** X13.  What a compiled query means on a record.  A query with [" OR "]
    is true when one of the operands between the [" OR "]s is true (each
    compiled on its own); without [" OR "], a query with [" AND "] is true
    when all the operands between the [" AND "]s are; with neither, a query
    that starts with ["NOT "] is true when the rest is false. *)
Theorem X13_operators_mean_any_all_not
    (query : string) (record : JSONRecord) (caseSensitive : bool)
    (Hquery : TrimSpace query <> EmptyString) :
  let q := TrimSpace query in
  let holds := fun part =>
    evaluateLuceneQuery (parseLuceneQuery (TrimSpace part)) record caseSensitive in
  (Contains q " OR " = true ->
   evaluateLuceneQuery (parseLuceneQuery query) record caseSensitive
   = existsb holds (Split q " OR "))
  /\ (Contains q " OR " = false -> Contains q " AND " = true ->
      evaluateLuceneQuery (parseLuceneQuery query) record caseSensitive
      = forallb holds (Split q " AND "))
  /\ (Contains q " OR " = false -> Contains q " AND " = false ->
      HasPrefix q "NOT " = true ->
      evaluateLuceneQuery (parseLuceneQuery query) record caseSensitive
      = negb (holds (SliceFrom q 4))).
Proof.
  intros q holds.
  assert (Hstep : parseLuceneQuery query = topDownSplit parseLuceneQuery query).
  { rewrite parseLuceneQuery_unfold at 1. apply parseBody_topDownSplit. }
  unfold topDownSplit in Hstep. cbv zeta in Hstep.
  rewrite (proj2 (String.eqb_neq _ _) Hquery) in Hstep. fold q in Hstep.
  split; [|split].
  - intros Hor. rewrite Hstep, Hor.
    pose proof (Contains_Split_two q " OR " ltac:(discriminate) Hor) as H2.
    destruct (Split q " OR ") as [|p0 rest]; [simpl in H2; lia|].
    simpl map. unfold leftAssoc. rewrite evaluate_or_chain, existsb_map. reflexivity.
  - intros Hor Hand. rewrite Hstep, Hor, Hand.
    pose proof (Contains_Split_two q " AND " ltac:(discriminate) Hand) as H2.
    destruct (Split q " AND ") as [|p0 rest]; [simpl in H2; lia|].
    simpl map. unfold leftAssoc. rewrite evaluate_and_chain, forallb_map. reflexivity.
  - intros Hor Hand Hnot. rewrite Hstep, Hor, Hand, Hnot.
    unfold notNode. rewrite evaluate_not. reflexivity.
Qed.

Lemma X13_operators_witness :
  let q := TrimSpace "name:John OR name:Jane" in
  let holds := fun part =>
    evaluateLuceneQuery (parseLuceneQuery (TrimSpace part)) johnDoe false in
  (Contains q " OR " = true ->
   evaluateLuceneQuery (parseLuceneQuery "name:John OR name:Jane") johnDoe false
   = existsb holds (Split q " OR "))
  /\ (Contains q " OR " = false -> Contains q " AND " = true ->
      evaluateLuceneQuery (parseLuceneQuery "name:John OR name:Jane") johnDoe false
      = forallb holds (Split q " AND "))
  /\ (Contains q " OR " = false -> Contains q " AND " = false ->
      HasPrefix q "NOT " = true ->
      evaluateLuceneQuery (parseLuceneQuery "name:John OR name:Jane") johnDoe false
      = negb (holds (SliceFrom q 4))).
Proof.
  apply (X13_operators_mean_any_all_not "name:John OR name:Jane" johnDoe false).
  vm_compute. discriminate.
Defined.

(** * White space *)

Section TrimFacts.
Local Open Scope nat_scope.

Lemma substring_length_at_most n m s : String.length (substring n m s) <= m.
Proof.
  revert n m. induction s as [|c s IH]; intros n m.
  - destruct n, m; simpl; lia.
  - destruct n as [|n].
    + destruct m as [|m]; simpl; [lia|]. specialize (IH 0 m). lia.
    + simpl. apply IH.
Qed.

Lemma spaceRunes_not_empty : Forall (fun r => 1 <= String.length r) spaceRunes.
Proof. repeat constructor. Qed.

Lemma find_all_false {A} (p : A -> bool) (l : list A) :
  (forall x, In x l -> p x = false) -> List.find p l = None.
Proof.
  induction l as [|x l IH]; intros H; simpl; [reflexivity|].
  rewrite (H x (or_introl eq_refl)). apply IH. intros y Hy. apply H. right. exact Hy.
Qed.

Lemma leadingSpace_width s w : leadingSpace s = Some w -> 1 <= w.
Proof.
  unfold leadingSpace. destruct (List.find (HasPrefix s) spaceRunes) as [r|] eqn:Hf;
    [|discriminate].
  intros [= <-]. apply List.find_some in Hf as [Hin _].
  pose proof spaceRunes_not_empty as Hall. rewrite Forall_forall in Hall.
  apply Hall, list_elem_of_In, Hin.
Qed.

Lemma trailingSpace_width s w : trailingSpace s = Some w -> 1 <= w.
Proof.
  unfold trailingSpace. destruct (List.find (HasSuffix s) spaceRunes) as [r|] eqn:Hf;
    [|discriminate].
  intros [= <-]. apply List.find_some in Hf as [Hin _].
  pose proof spaceRunes_not_empty as Hall. rewrite Forall_forall in Hall.
  apply Hall, list_elem_of_In, Hin.
Qed.

Lemma leadingSpace_empty : leadingSpace EmptyString = None.
Proof. reflexivity. Qed.

Lemma trailingSpace_empty : trailingSpace EmptyString = None.
Proof. reflexivity. Qed.

Lemma length_zero_empty s : String.length s = 0 -> s = EmptyString.
Proof. destruct s; [reflexivity|discriminate]. Qed.

(** With enough steps nothing is left to trim. *)
Lemma trimLeftSteps_done n : forall s,
  String.length s <= n -> leadingSpace (trimLeftSteps n s) = None.
Proof.
  induction n as [|n IH]; intros s Hlen; simpl.
  - rewrite (length_zero_empty s) by lia. reflexivity.
  - destruct (leadingSpace s) as [w|] eqn:Hlead; [|exact Hlead].
    apply IH. pose proof (leadingSpace_width s w Hlead).
    pose proof (SliceFrom_length s w). lia.
Qed.

Lemma trimRightSteps_done n : forall s,
  String.length s <= n -> trailingSpace (trimRightSteps n s) = None.
Proof.
  induction n as [|n IH]; intros s Hlen; simpl.
  - rewrite (length_zero_empty s) by lia. reflexivity.
  - destruct (trailingSpace s) as [w|] eqn:Htrail; [|exact Htrail].
    apply IH. pose proof (trailingSpace_width s w Htrail).
    pose proof (substring_length_at_most 0 (String.length s - w - 0) s).
    unfold Slice. lia.
Qed.

Lemma trimLeftSteps_fixed n s : leadingSpace s = None -> trimLeftSteps n s = s.
Proof. intros H. destruct n; simpl; [reflexivity|]. rewrite H. reflexivity. Qed.

Lemma trimRightSteps_fixed n s : trailingSpace s = None -> trimRightSteps n s = s.
Proof. intros H. destruct n; simpl; [reflexivity|]. rewrite H. reflexivity. Qed.

(** A prefix of a string starts with no rune that the string does not start
    with. *)
Lemma prefix_of_substring r : forall s k,
  String.prefix r (substring 0 k s) = true -> String.prefix r s = true.
Proof.
  induction r as [|a r IH]; intros s k H; [destruct s; reflexivity|].
  destruct s as [|b s]; [destruct k; discriminate H|].
  destruct k as [|k]; [discriminate H|].
  simpl in H |- *. destruct (ascii_dec a b); [|discriminate H].
  exact (IH s k H).
Qed.

Lemma leadingSpace_Slice s k :
  leadingSpace s = None -> leadingSpace (Slice s 0 k) = None.
Proof.
  unfold leadingSpace, Slice. intros H.
  destruct (List.find (HasPrefix s) spaceRunes) as [r|] eqn:Hf; [discriminate H|].
  rewrite find_all_false; [reflexivity|].
  intros r Hin. apply not_true_is_false. intros Hp.
  unfold HasPrefix in Hp. apply prefix_of_substring in Hp.
  pose proof (List.find_none _ _ Hf r Hin) as Hno. unfold HasPrefix in Hno. congruence.
Qed.

Lemma trimRightSteps_keeps_start n : forall s,
  leadingSpace s = None -> leadingSpace (trimRightSteps n s) = None.
Proof.
  induction n as [|n IH]; intros s H; simpl; [exact H|].
  destruct (trailingSpace s); [|exact H].
  apply IH, leadingSpace_Slice, H.
Qed.

Lemma TrimSpace_trimmed s :
  leadingSpace (TrimSpace s) = None /\ trailingSpace (TrimSpace s) = None.
Proof.
  unfold TrimSpace, TrimRightSpace, TrimLeftSpace. split.
  - apply trimRightSteps_keeps_start, trimLeftSteps_done. lia.
  - apply trimRightSteps_done. lia.
Qed.

(** Trimming a trimmed string changes nothing. *)
Lemma TrimSpace_idempotent s : TrimSpace (TrimSpace s) = TrimSpace s.
Proof.
  destruct (TrimSpace_trimmed s) as [Hlead Htrail].
  unfold TrimSpace at 1. unfold TrimLeftSpace at 1.
  rewrite (trimLeftSteps_fixed _ _ Hlead).
  unfold TrimRightSpace at 1. apply trimRightSteps_fixed, Htrail.
Qed.

End TrimFacts.

(** X14.  White space around a query does not matter to the compiler: a
    query and its trimmed form compile to the same tree, and so do any two
    queries with the same trimmed form. *)
Theorem X14_compiler_ignores_surrounding_space :
  (forall query, parseLuceneQuery (TrimSpace query) = parseLuceneQuery query)
  /\ (forall q1 q2, TrimSpace q1 = TrimSpace q2 ->
                    parseLuceneQuery q1 = parseLuceneQuery q2).
Proof.
  assert (Hbody : forall query,
            parseBody parseLuceneQuery (TrimSpace query)
            = parseBody parseLuceneQuery query).
  { intros query. unfold parseBody. rewrite TrimSpace_idempotent. reflexivity. }
  assert (Htrim : forall query, parseLuceneQuery (TrimSpace query) = parseLuceneQuery query).
  { intros query. rewrite (parseLuceneQuery_unfold (TrimSpace query)), Hbody.
    symmetry. apply parseLuceneQuery_unfold. }
  split; [exact Htrim|].
  intros q1 q2 Heq. rewrite <- (Htrim q1), <- (Htrim q2), Heq. reflexivity.
Qed.

(** * Case folding *)

Section CaseFolding.
Local Arguments ascii_dec : simpl never.

Lemma ToLower_prefix p : forall s,
  String.prefix p s = true -> String.prefix (ToLower p) (ToLower s) = true.
Proof.
  induction p as [|a p IH]; intros s H; [destruct s; reflexivity|].
  destruct s as [|b s]; [discriminate H|].
  simpl in H |- *. destruct (ascii_dec a b) as [->|]; [|discriminate H].
  destruct (ascii_dec (lowerByte b) (lowerByte b)); [|congruence].
  exact (IH s H).
Qed.

Lemma ToLower_Contains s m :
  Contains s m = true -> Contains (ToLower s) (ToLower m) = true.
Proof.
  induction s as [|d s IH]; intros H.
  - destruct m; [reflexivity|discriminate H].
  - rewrite Contains_cons in H.
    change (ToLower (String d s)) with (String (lowerByte d) (ToLower s)).
    rewrite Contains_cons.
    destruct (String.prefix m (String d s)) eqn:Hp.
    + apply ToLower_prefix in Hp.
      change (ToLower (String d s)) with (String (lowerByte d) (ToLower s)) in Hp.
      rewrite Hp. reflexivity.
    + rewrite (IH H). destruct (String.prefix (ToLower m) _); reflexivity.
Qed.

Lemma ToLower_length s : String.length (ToLower s) = String.length s.
Proof. induction s as [|c s IH]; simpl; [reflexivity|]. rewrite IH. reflexivity. Qed.

Lemma ToLower_substring s : forall n m,
  ToLower (substring n m s) = substring n m (ToLower s).
Proof.
  induction s as [|c s IH]; intros n m.
  - destruct n, m; reflexivity.
  - destruct n as [|n]; simpl.
    + destruct m as [|m]; simpl; [reflexivity|]. rewrite IH. reflexivity.
    + apply IH.
Qed.

Lemma ToLower_HasSuffix s suffix :
  HasSuffix s suffix = true -> HasSuffix (ToLower s) (ToLower suffix) = true.
Proof.
  unfold HasSuffix, SliceFrom, Slice. rewrite !ToLower_length. intros H.
  apply andb_true_iff in H as [Hlen H]. rewrite Hlen. simpl.
  apply String.eqb_eq in H. apply String.eqb_eq.
  rewrite <- ToLower_substring, H. reflexivity.
Qed.

Lemma ToLower_not_empty s : ToLower s = EmptyString -> s = EmptyString.
Proof. destruct s; [reflexivity|discriminate]. Qed.

Lemma lowerByte_star d : Ascii.eqb star (lowerByte d) = Ascii.eqb star d.
Proof. destruct d as [[] [] [] [] [] [] [] []]; reflexivity. Qed.

Lemma hasByte_star_ToLower s : hasByte star (ToLower s) = hasByte star s.
Proof.
  induction s as [|d s IH]; [reflexivity|].
  change (Ascii.eqb star (lowerByte d) || hasByte star (ToLower s)
          = Ascii.eqb star d || hasByte star s).
  rewrite lowerByte_star, IH. reflexivity.
Qed.

Lemma hasByte_qm_ToLower s : hasByte qm (ToLower s) = hasByte qm s.
Proof. exact (hasByte_foldCase false s). Qed.

Lemma ToLower_star_prefix s : HasPrefix (ToLower s) "*" = HasPrefix s "*".
Proof.
  unfold HasPrefix. destruct s as [|d s]; [reflexivity|].
  change (ToLower (String d s)) with (String (lowerByte d) (ToLower s)).
  destruct d as [[] [] [] [] [] [] [] []]; destruct s; vm_compute; reflexivity.
Qed.

Lemma ToLower_star_eq s : String.eqb (ToLower s) "*" = String.eqb s "*".
Proof.
  destruct s as [|d [|e s]]; try reflexivity.
  - destruct d as [[] [] [] [] [] [] [] []]; vm_compute; reflexivity.
  - change (ToLower (String d (String e s)))
      with (String (lowerByte d) (String (lowerByte e) (ToLower s))).
    simpl. destruct (Ascii.eqb (lowerByte d) _), (Ascii.eqb d _); reflexivity.
Qed.

Lemma ToLower_star_suffix s : HasSuffix (ToLower s) "*" = HasSuffix s "*".
Proof.
  unfold HasSuffix, SliceFrom, Slice.
  rewrite ToLower_length, <- ToLower_substring, ToLower_star_eq. reflexivity.
Qed.

Lemma replace_star_cons d s :
  ReplaceAll (String d s) "*" EmptyString
  = if HasPrefix (String d s) "*" then ReplaceAll s "*" EmptyString
    else String d (ReplaceAll s "*" EmptyString).
Proof. reflexivity. Qed.

Lemma ToLower_replace_star s :
  ReplaceAll (ToLower s) "*" EmptyString = ToLower (ReplaceAll s "*" EmptyString).
Proof.
  induction s as [|d s IH]; [reflexivity|].
  rewrite (replace_star_cons d s).
  change (ToLower (String d s)) with (String (lowerByte d) (ToLower s)).
  rewrite replace_star_cons.
  change (String (lowerByte d) (ToLower s)) with (ToLower (String d s)).
  rewrite ToLower_star_prefix.
  destruct (HasPrefix (String d s) "*"); [exact IH|].
  rewrite IH. reflexivity.
Qed.

(** The wildcard test takes the same branch on the folded pattern, and
    every branch survives the folding of both sides. *)
Lemma simpleWildcardMatch_ToLower text pattern :
  simpleWildcardMatch text pattern = true ->
  simpleWildcardMatch (ToLower text) (ToLower pattern) = true.
Proof.
  unfold simpleWildcardMatch.
  rewrite ToLower_star_eq, !(Contains_byte star), !(Contains_byte qm),
    hasByte_star_ToLower, hasByte_qm_ToLower, ToLower_star_prefix,
    ToLower_star_suffix, ToLower_length.
  destruct (String.eqb pattern "*"); [reflexivity|].
  destruct (negb (hasByte star pattern) && negb (hasByte qm pattern));
    [apply ToLower_Contains|].
  destruct (HasPrefix pattern "*" && HasSuffix pattern "*").
  { unfold Slice. rewrite <- ToLower_substring. apply ToLower_Contains. }
  destruct (HasPrefix pattern "*").
  { unfold SliceFrom, Slice. rewrite ToLower_length, <- ToLower_substring.
    apply ToLower_HasSuffix. }
  destruct (HasSuffix pattern "*").
  { unfold Slice, HasPrefix. rewrite <- ToLower_substring. apply ToLower_prefix. }
  rewrite ToLower_replace_star. apply ToLower_Contains.
Qed.

Lemma matchWildcard_fold text pattern :
  matchWildcard text pattern true = true -> matchWildcard text pattern false = true.
Proof.
  unfold matchWildcard, foldCase.
  destruct (String.eqb text EmptyString); [discriminate|].
  apply simpleWildcardMatch_ToLower.
Qed.

Lemma matchTerm_fold text term :
  matchTerm text term true = true -> matchTerm text term false = true.
Proof.
  unfold matchTerm, foldCase.
  destruct (String.eqb text EmptyString); [discriminate|]. apply ToLower_Contains.
Qed.

Lemma matchPhrase_fold text phrase :
  matchPhrase text phrase true = true -> matchPhrase text phrase false = true.
Proof.
  unfold matchPhrase, foldCase.
  destruct (String.eqb text EmptyString); [discriminate|]. apply ToLower_Contains.
Qed.

Lemma matchFieldValue_fold fieldValue searchValue :
  matchFieldValue fieldValue searchValue true = true ->
  matchFieldValue fieldValue searchValue false = true.
Proof.
  unfold matchFieldValue, foldCase.
  destruct fieldValue; try discriminate; apply ToLower_Contains.
Qed.

Lemma evalNode_fold (record : JSONRecord) : forall query,
  notFree query = true ->
  evalNode query record true = true -> evalNode query record false = true.
Proof.
  fix IH 1. intros [ty field value lhs rhs sub]. simpl.
  destruct (String.eqb ty "and").
  { simpl. intros Hfree Hm.
    apply andb_true_iff in Hfree as [Hl Hr]. apply andb_true_iff in Hm as [Ml Mr].
    destruct lhs as [l|]; [|discriminate Ml].
    destruct rhs as [r|]; [|discriminate Mr].
    rewrite (IH l Hl Ml), (IH r Hr Mr). reflexivity. }
  destruct (String.eqb ty "or").
  { simpl. intros Hfree Hm.
    apply andb_true_iff in Hfree as [Hl Hr]. apply orb_true_iff in Hm as [Ml|Mr].
    - destruct lhs as [l|]; [|discriminate Ml]. rewrite (IH l Hl Ml). reflexivity.
    - destruct rhs as [r|]; [|discriminate Mr]. rewrite (IH r Hr Mr).
      apply orb_true_r. }
  simpl. destruct (String.eqb ty "not"); [discriminate|]. intros _.
  destruct (String.eqb ty "field").
  { destruct (Content record !! field); [apply matchFieldValue_fold|discriminate]. }
  destruct (String.eqb ty "phrase").
  { destruct (negb (String.eqb field EmptyString)); [|apply matchPhrase_fold].
    destruct (Content record !! field); [apply matchPhrase_fold|discriminate]. }
  destruct (String.eqb ty "wildcard").
  { destruct (negb (String.eqb field EmptyString)); [|apply matchWildcard_fold].
    destruct (Content record !! field); [apply matchWildcard_fold|discriminate]. }
  destruct (String.eqb ty "term"); [|discriminate].
  destruct (negb (String.eqb field EmptyString)); [|apply matchTerm_fold].
  destruct (Content record !! field); [apply matchFieldValue_fold|discriminate].
Qed.

End CaseFolding.

(** X15.  A case-insensitive search finds at least what the case-sensitive
    search finds: a record that a query tree without [not] nodes matches
    with [caseSensitive = true] is matched with [caseSensitive = false] as
    well.  The text of the record and of the query is ASCII, on which
    [ToLower] above is Go's. *)
Theorem X15_case_insensitive_finds_more
    (query : LuceneQuery) (record : JSONRecord)
    (Hquery : asciiQuery query = true) (Hrecord : asciiRecord record = true)
    (Hfree : notFree query = true)
    (Hmatch : evaluateLuceneQuery (Some query) record true = true) :
  evaluateLuceneQuery (Some query) record false = true.
Proof. exact (evalNode_fold record query Hfree Hmatch). Qed.

Lemma X15_case_insensitive_witness :
  evaluateLuceneQuery
    (Some (binNode "and" (Some (leafNode "field" "name" "John"))
                         (Some (leafNode "wildcard" EmptyString "*Doe*"))))
    johnDoe false = true.
Proof.
  apply (X15_case_insensitive_finds_more
           (binNode "and" (Some (leafNode "field" "name" "John"))
                          (Some (leafNode "wildcard" EmptyString "*Doe*")))
           johnDoe); vm_compute; reflexivity.
Defined.


(** * The shapes of a wildcard pattern *)

Section WildcardShapes.
Local Open Scope nat_scope.
Local Arguments ascii_dec : simpl never.

Lemma HasPrefix_star_cons d s : HasPrefix (String d s) "*" = Ascii.eqb star d.
Proof.
  unfold HasPrefix. simpl. destruct (ascii_dec "*" d) as [<-|Hne].
  - destruct s; reflexivity.
  - symmetry. exact (proj2 (Ascii.eqb_neq star d) Hne).
Qed.

Lemma HasPrefix_star_free p rest :
  p <> EmptyString -> hasByte star p = false -> HasPrefix (p ++ rest) "*" = false.
Proof.
  intros Hne Hfree. destruct p as [|d p]; [contradiction|].
  change (String d p ++ rest) with (String d (p ++ rest)).
  rewrite HasPrefix_star_cons.
  change (Ascii.eqb star d || hasByte star p = false) in Hfree.
  apply orb_false_iff in Hfree as [Hd _]. exact Hd.
Qed.

Lemma substring_app_right m s : substring (String.length m) (String.length s) (m ++ s) = s.
Proof.
  induction m as [|a m IH]; simpl; [apply substring_full|exact IH].
Qed.

Lemma HasSuffix_app_intro m s : HasSuffix (m ++ s) s = true.
Proof.
  unfold HasSuffix, SliceFrom, Slice. rewrite string_app_length.
  apply andb_true_iff. split; [apply Nat.leb_le; lia|].
  replace (String.length m + String.length s - String.length s)
    with (String.length m) by lia.
  replace (String.length m + String.length s - String.length m)
    with (String.length s) by lia.
  rewrite substring_app_right. apply String.eqb_refl.
Qed.

Lemma app_last_byte a s : forall x m,
  x ++ s = m ++ String a EmptyString -> s <> EmptyString ->
  exists s', s = s' ++ String a EmptyString.
Proof.
  induction x as [|c x IH]; intros m Heq Hne.
  - exists m. exact Heq.
  - destruct m as [|c' m].
    + simpl in Heq. injection Heq as _ Heq.
      destruct x; [simpl in Heq; contradiction|discriminate Heq].
    + simpl in Heq. injection Heq as _ Heq. exact (IH m Heq Hne).
Qed.

Lemma HasSuffix_star_free x s :
  s <> EmptyString -> hasByte star s = false -> HasSuffix (x ++ s) "*" = false.
Proof.
  intros Hne Hfree. destruct (HasSuffix (x ++ s) "*") eqn:Hs; [|reflexivity].
  apply HasSuffix_app in Hs as [m Hm].
  destruct (app_last_byte _ s x m Hm Hne) as [s' ->].
  rewrite hasByte_app in Hfree. apply orb_false_iff in Hfree as [_ Hfree].
  discriminate Hfree.
Qed.

Lemma eqb_star_long s : 1 < String.length s -> String.eqb s "*" = false.
Proof.
  destruct s as [|a [|b s]]; simpl; try lia.
  intros _. destruct (Ascii.eqb a _); reflexivity.
Qed.

Lemma length_not_empty s : s <> EmptyString -> 0 < String.length s.
Proof. destruct s; [contradiction|simpl; lia]. Qed.

Lemma ReplaceAll_star_free s :
  hasByte star s = false -> ReplaceAll s "*" EmptyString = s.
Proof.
  induction s as [|d s IH]; intros Hfree; [reflexivity|].
  change (Ascii.eqb star d || hasByte star s = false) in Hfree.
  apply orb_false_iff in Hfree as [Hd Hs].
  rewrite replace_star_cons, HasPrefix_star_cons, Hd, (IH Hs). reflexivity.
Qed.

Lemma ReplaceAll_star_app p s :
  hasByte star p = false ->
  ReplaceAll (p ++ s) "*" EmptyString = p ++ ReplaceAll s "*" EmptyString.
Proof.
  induction p as [|d p IH]; intros Hfree; [reflexivity|].
  change (Ascii.eqb star d || hasByte star p = false) in Hfree.
  apply orb_false_iff in Hfree as [Hd Hp].
  change (String d p ++ s) with (String d (p ++ s)).
  rewrite replace_star_cons, HasPrefix_star_cons, Hd, (IH Hp). reflexivity.
Qed.

Lemma simpleWildcardMatch_star text pattern :
  1 < String.length pattern -> hasByte star pattern = true ->
  simpleWildcardMatch text pattern
  = if HasPrefix pattern "*" && HasSuffix pattern "*"
    then Contains text (Slice pattern 1 (String.length pattern - 1))
    else if HasPrefix pattern "*"
    then HasSuffix text (SliceFrom pattern 1)
    else if HasSuffix pattern "*"
    then HasPrefix text (Slice pattern 0 (String.length pattern - 1))
    else Contains text (ReplaceAll pattern "*" EmptyString).
Proof.
  intros Hlen Hstar. unfold simpleWildcardMatch.
  rewrite (eqb_star_long _ Hlen), (Contains_byte star), Hstar. reflexivity.
Qed.

Lemma eqb_star_star : Ascii.eqb star "*" = true.
Proof. reflexivity. Qed.

Lemma string_app_assoc (s t u : string) : (s ++ t) ++ u = s ++ t ++ u.
Proof.
  induction s as [|a s IH]; [reflexivity|]. exact (f_equal (String a) IH).
Qed.

End WildcardShapes.

(** X16.  A star works only at the two ends of a wildcard pattern.  For
    non-empty [p] and [q] without a star, [simpleWildcardMatch] takes
    [*p*] as "contains [p]", [*p] as "ends with [p]", [p*] as "starts with
    [p]", and deletes the star of [p*q]: that pattern matches the texts
    that contain [p] directly followed by [q]. *)
Theorem X16_star_only_at_the_ends (text p q : string)
    (Hp : p <> EmptyString) (Hq : q <> EmptyString)
    (Hpfree : hasByte star p = false) (Hqfree : hasByte star q = false) :
  simpleWildcardMatch text ("*" ++ p ++ "*") = Contains text p
  /\ simpleWildcardMatch text ("*" ++ p) = HasSuffix text p
  /\ simpleWildcardMatch text (p ++ "*") = HasPrefix text p
  /\ simpleWildcardMatch text (p ++ "*" ++ q) = Contains text (p ++ q).
Proof.
  pose proof (length_not_empty p Hp) as Lp.
  pose proof (length_not_empty q Hq) as Lq.
  split; [|split; [|split]].
  - change ("*" ++ p ++ "*") with (String "*" (p ++ "*")).
    rewrite simpleWildcardMatch_star.
    + pose proof (HasSuffix_app_intro (String "*" p) "*") as Hs.
      change (String "*" p ++ "*") with (String "*" (p ++ "*")) in Hs.
      rewrite HasPrefix_star_cons, eqb_star_star, Hs, Slice_middle. reflexivity.
    + simpl. rewrite string_app_length. simpl. lia.
    + reflexivity.
  - change ("*" ++ p) with (String "*" p).
    rewrite simpleWildcardMatch_star.
    + pose proof (HasSuffix_star_free "*" p Hp Hpfree) as Hs.
      change ("*" ++ p) with (String "*" p) in Hs.
      rewrite HasPrefix_star_cons, eqb_star_star, Hs, SliceFrom_one. reflexivity.
    + simpl. lia.
    + reflexivity.
  - rewrite simpleWildcardMatch_star.
    + rewrite (HasPrefix_star_free p "*" Hp Hpfree), HasSuffix_app_intro,
        Slice_drop_last. reflexivity.
    + rewrite string_app_length. simpl. lia.
    + rewrite hasByte_app. apply orb_true_r.
  - rewrite simpleWildcardMatch_star.
    + rewrite (HasPrefix_star_free p ("*" ++ q) Hp Hpfree).
      pose proof (HasSuffix_star_free (p ++ "*") q Hq Hqfree) as Hs.
      rewrite string_app_assoc in Hs. rewrite !Hs.
      rewrite (ReplaceAll_star_app p _ Hpfree).
      change ("*" ++ q) with (String "*" q).
      rewrite replace_star_cons, HasPrefix_star_cons, eqb_star_star,
        (ReplaceAll_star_free q Hqfree).
      reflexivity.
    + rewrite string_app_length. simpl. lia.
    + rewrite hasByte_app. simpl. apply orb_true_r.
Qed.

Lemma X16_star_only_witness :
  simpleWildcardMatch "axb" ("*" ++ "a" ++ "*") = Contains "axb" "a"
  /\ simpleWildcardMatch "axb" ("*" ++ "a") = HasSuffix "axb" "a"
  /\ simpleWildcardMatch "axb" ("a" ++ "*") = HasPrefix "axb" "a"
  /\ simpleWildcardMatch "axb" ("a" ++ "*" ++ "b") = Contains "axb" ("a" ++ "b").
Proof.
  apply (X16_star_only_at_the_ends "axb" "a" "b"); done.
Defined.

(** * The hide list *)

Section HideList.

Lemma existsb_eqb_elem field (fields : list string) :
  existsb (String.eqb field) fields = true <-> field ∈ fields.
Proof.
  rewrite existsb_exists. split.
  - intros (x & Hin & Heq). apply String.eqb_eq in Heq. subst x.
    apply list_elem_of_In. exact Hin.
  - intros Hin. exists field. split; [apply list_elem_of_In, Hin|apply String.eqb_refl].
Qed.

(** [filteredContent] holds exactly the entries of the content whose keys
    are not listed. *)
Lemma hideFields_lookup (content : gmap string JSONValue) hidden k :
  hideFields content hidden !! k = if decide (k ∈ hidden) then None else content !! k.
Proof.
  unfold hideFields.
  apply (map_fold_weak_ind
           (fun (r : gmap string JSONValue) (m : gmap string JSONValue) =>
              r !! k = if decide (k ∈ hidden) then None else m !! k)).
  - rewrite lookup_empty. destruct (decide (k ∈ hidden)); reflexivity.
  - intros field v m r Hfresh IH. cbv zeta.
    destruct (existsb (String.eqb field) hidden) eqn:Hhide; simpl.
    + apply existsb_eqb_elem in Hhide.
      destruct (decide (field = k)) as [->|Hne].
      * rewrite IH, decide_True by exact Hhide. rewrite decide_True by exact Hhide.
        reflexivity.
      * rewrite lookup_insert_ne by exact Hne. exact IH.
    + assert (Hshow : field ∉ hidden).
      { intros Hin. apply existsb_eqb_elem in Hin. congruence. }
      destruct (decide (field = k)) as [->|Hne].
      * rewrite !lookup_insert_eq, decide_False by exact Hshow. reflexivity.
      * rewrite !lookup_insert_ne by exact Hne. exact IH.
Qed.

Lemma getDisplayJSON_hidden record hidden :
  hidden <> [] ->
  getDisplayJSON record [] hidden = Marshal (hideFields (Content record) hidden).
Proof.
  intros Hne. destruct hidden as [|f rest]; [contradiction|]. reflexivity.
Qed.

End HideList.

(** X17.  With an empty show list and a non-empty hide list the projection
    of a record is the line made of exactly the content entries whose keys
    are not in the hide list, written in ascending key order (each key
    once); with both lists empty it is the line of the record as it was
    read. *)
Theorem X17_project_hide_list
    (record : JSONRecord) (hidden : list string) (Hhidden : hidden <> []) :
  (exists entries : list (string * JSONValue),
      getDisplayJSON record [] hidden = lineOf entries
      /\ (forall k v, (k, v) ∈ entries <-> (k ∉ hidden) /\ Content record !! k = Some v)
      /\ Sorted keyLe entries
      /\ NoDup (map fst entries))
  /\ getDisplayJSON record [] [] = RawJSON record.
Proof.
  split; [|reflexivity].
  exists (sortByKey (map_to_list (hideFields (Content record) hidden))).
  split; [|split; [|split]].
  - rewrite getDisplayJSON_hidden by exact Hhidden. apply Marshal_sorted.
  - intros k v. rewrite sortByKey_perm, elem_of_map_to_list, hideFields_lookup.
    destruct (decide (k ∈ hidden)); [|tauto].
    split; [discriminate|tauto].
  - apply sortByKey_sorted.
  - rewrite sortByKey_perm. apply NoDup_fst_map_to_list.
Qed.

Lemma X17_project_hide_witness :
  (exists entries : list (string * JSONValue),
      getDisplayJSON (recordOf 1 abc) [] ["b"] = lineOf entries
      /\ (forall k v, (k, v) ∈ entries
                      <-> (k ∉ ["b"]) /\ Content (recordOf 1 abc) !! k = Some v)
      /\ Sorted keyLe entries
      /\ NoDup (map fst entries))
  /\ getDisplayJSON (recordOf 1 abc) [] [] = RawJSON (recordOf 1 abc).
Proof.
  apply (X17_project_hide_list (recordOf 1 abc) ["b"]). discriminate.
Defined.

(** * The list of all fields *)

Section FieldSort.
Local Open Scope nat_scope.

(** Go compares strings byte by byte, as [String.compare] does. *)
Lemma ascii_compare_lt_trans a b c :
  Ascii.compare a b = Lt -> Ascii.compare b c = Lt -> Ascii.compare a c = Lt.
Proof. unfold Ascii.compare. rewrite !N.compare_lt_iff. apply N.lt_trans. Qed.

Lemma compare_lt_trans : forall a b c,
  String.compare a b = Lt -> String.compare b c = Lt -> String.compare a c = Lt.
Proof.
  induction a as [|x a IH]; intros [|y b] [|z c] H1 H2; simpl in *;
    try discriminate H1; try discriminate H2; try reflexivity.
  destruct (Ascii.compare x y) eqn:Hxy; try discriminate H1;
    destruct (Ascii.compare y z) eqn:Hyz; try discriminate H2.
  - apply Ascii.compare_eq_iff in Hxy, Hyz. subst.
    unfold Ascii.compare. rewrite N.compare_refl. exact (IH b c H1 H2).
  - apply Ascii.compare_eq_iff in Hxy. subst. rewrite Hyz. reflexivity.
  - apply Ascii.compare_eq_iff in Hyz. subst. rewrite Hxy. reflexivity.
  - rewrite (ascii_compare_lt_trans _ _ _ Hxy Hyz). reflexivity.
Qed.

Lemma ltb_leb y x : String.ltb y x = true -> String.leb y x = true.
Proof. unfold String.ltb, String.leb. destruct (String.compare y x); done. Qed.

Lemma ltb_false_leb y x : String.ltb y x = false -> String.leb x y = true.
Proof.
  unfold String.ltb, String.leb. rewrite (String.compare_antisym y x).
  destruct (String.compare x y); done.
Qed.

Lemma ltb_leb_trans y x z :
  String.ltb y x = true -> String.leb x z = true -> String.leb y z = true.
Proof.
  unfold String.ltb, String.leb.
  destruct (String.compare y x) eqn:Hyx; try done.
  destruct (String.compare x z) eqn:Hxz; try done; intros _ _.
  - apply String.compare_eq_iff in Hxz. subst. rewrite Hyx. reflexivity.
  - rewrite (compare_lt_trans _ _ _ Hyx Hxz). reflexivity.
Qed.

Lemma leb_neq_ltb x y : String.leb x y = true -> x <> y -> String.ltb x y = true.
Proof.
  unfold String.ltb, String.leb. destruct (String.compare x y) eqn:Hxy; try done.
  intros _ Hne. apply String.compare_eq_iff in Hxy. contradiction.
Qed.

(** A swap keeps the elements. *)
Lemma insert_head_perm (l : list string) : forall j y a,
  l !! j = Some y -> y :: <[j:=a]> l ≡ₚ a :: l.
Proof.
  induction l as [|b l IH]; intros [|j] y a H; simpl in H; try discriminate H.
  - injection H as ->. apply Permutation_swap.
  - simpl. etrans; [apply Permutation_swap|].
    etrans; [apply Permutation_skip, (IH j y a H)|]. apply Permutation_swap.
Qed.

Lemma swap_perm (l : list string) : forall i j x y,
  l !! i = Some x -> l !! j = Some y -> <[j:=x]> (<[i:=y]> l) ≡ₚ l.
Proof.
  induction l as [|b l IH]; intros [|i] [|j] x y Hi Hj; simpl in *;
    try discriminate Hi.
  - injection Hi as ->. injection Hj as ->. reflexivity.
  - injection Hi as ->. apply insert_head_perm. exact Hj.
  - injection Hj as ->. apply insert_head_perm. exact Hi.
  - apply Permutation_skip, (IH i j x y Hi Hj).
Qed.

Lemma swap_lookup (l : list string) i j x y k :
  i <> j -> l !! i = Some x -> l !! j = Some y ->
  <[j:=x]> (<[i:=y]> l) !! k
  = if decide (k = j) then Some x else if decide (k = i) then Some y else l !! k.
Proof.
  intros Hij Hi Hj.
  apply lookup_lt_Some in Hi as Li. apply lookup_lt_Some in Hj as Lj.
  destruct (decide (k = j)) as [->|Hkj].
  - apply list_lookup_insert_eq. rewrite length_insert. exact Lj.
  - rewrite list_lookup_insert_ne by congruence.
    destruct (decide (k = i)) as [->|Hki].
    + apply list_lookup_insert_eq. exact Li.
    + apply list_lookup_insert_ne. congruence.
Qed.

Lemma swapIfGreater_perm l i j : swapIfGreater l i j ≡ₚ l.
Proof.
  unfold swapIfGreater.
  destruct (l !! i) as [x|] eqn:Hi; [|reflexivity].
  destruct (l !! j) as [y|] eqn:Hj; [|reflexivity].
  destruct (String.ltb y x); [|reflexivity]. exact (swap_perm l i j x y Hi Hj).
Qed.

Lemma sortInner_perm count : forall l i j, sortInner l i j count ≡ₚ l.
Proof.
  induction count as [|count IH]; intros l i j; simpl; [reflexivity|].
  etrans; [apply IH|apply swapIfGreater_perm].
Qed.

Lemma sortOuter_perm count : forall l i, sortOuter l i count ≡ₚ l.
Proof.
  induction count as [|count IH]; intros l i; simpl; [reflexivity|].
  etrans; [apply IH|apply sortInner_perm].
Qed.

Lemma swapIfGreater_inv l i j :
  i < j -> settled l i -> least l i j ->
  settled (swapIfGreater l i j) i /\ least (swapIfGreater l i j) i (S j).
Proof.
  intros Hij Hset Hleast. unfold swapIfGreater.
  destruct (l !! i) as [x|] eqn:Hi; [destruct (l !! j) as [y|] eqn:Hj|].
  - destruct (String.ltb y x) eqn:Hlt.
    + assert (Hne : i <> j) by lia. split.
      * intros a b Ha Hab u v.
        rewrite !(swap_lookup l i j x y _ Hne Hi Hj).
        rewrite (decide_False (P := a = j)), (decide_False (P := a = i)) by lia.
        intros Hu.
        destruct (decide (b = j)) as [->|Hbj].
        { intros [= <-]. exact (Hset a i Ha ltac:(lia) u x Hu Hi). }
        destruct (decide (b = i)) as [->|Hbi].
        { intros [= <-]. exact (Hset a j Ha ltac:(lia) u y Hu Hj). }
        exact (Hset a b Ha Hab u v Hu).
      * intros b Hib Hb u v.
        rewrite !(swap_lookup l i j x y _ Hne Hi Hj).
        rewrite (decide_False (P := i = j)), (decide_True (P := i = i)),
          (decide_False (P := b = i)) by lia.
        intros [= <-].
        destruct (decide (b = j)) as [->|Hbj].
        { intros [= <-]. exact (ltb_leb _ _ Hlt). }
        intros Hv. apply (ltb_leb_trans _ x _ Hlt).
        exact (Hleast b Hib ltac:(lia) x v Hi Hv).
    + split; [exact Hset|].
      intros b Hib Hb u v Hu Hv.
      destruct (decide (b = j)) as [->|Hbj].
      * rewrite Hi in Hu. rewrite Hj in Hv. injection Hu as <-. injection Hv as <-.
        exact (ltb_false_leb _ _ Hlt).
      * exact (Hleast b Hib ltac:(lia) u v Hu Hv).
  - split; [exact Hset|].
    intros b Hib Hb u v Hu Hv.
    destruct (decide (b = j)) as [->|Hbj]; [congruence|].
    exact (Hleast b Hib ltac:(lia) u v Hu Hv).
  - split; [exact Hset|]. intros b Hib Hb u v Hu Hv. congruence.
Qed.

Lemma sortInner_inv count : forall l i j,
  i < j -> settled l i -> least l i j ->
  settled (sortInner l i j count) i /\ least (sortInner l i j count) i (j + count).
Proof.
  induction count as [|count IH]; intros l i j Hij Hset Hleast; simpl.
  - rewrite Nat.add_0_r. split; assumption.
  - destruct (swapIfGreater_inv l i j Hij Hset Hleast) as [Hset' Hleast'].
    replace (j + S count) with (S j + count) by lia.
    apply IH; [lia|assumption|assumption].
Qed.

Lemma sortOuter_inv count : forall l i,
  settled l i -> settled (sortOuter l i count) (i + count).
Proof.
  induction count as [|count IH]; intros l i Hset; simpl.
  - rewrite Nat.add_0_r. exact Hset.
  - replace (i + S count) with (S i + count) by lia. apply IH.
    set (l' := sortInner l i (S i) (List.length l - S i)).
    assert (Hlen : List.length l' = List.length l)
      by (apply Permutation_length, sortInner_perm).
    destruct (sortInner_inv (List.length l - S i) l i (S i)) as [Hset' Hleast'];
      [lia|exact Hset|intros b ? ?; lia|]. fold l' in Hset', Hleast'.
    intros a b Ha Hab u v Hu Hv.
    apply lookup_lt_Some in Hv as Lb.
    destruct (decide (a = i)) as [->|Hne].
    + apply (Hleast' b Hab ltac:(lia) u v Hu Hv).
    + apply (Hset' a b ltac:(lia) Hab u v Hu Hv).
Qed.

(** The two loops sort: the result has the elements of the list, in
    ascending order. *)
Lemma sortFields_perm l : sortFields l ≡ₚ l.
Proof. apply sortOuter_perm. Qed.

Lemma sortFields_ascending l a b x y :
  a < b -> sortFields l !! a = Some x -> sortFields l !! b = Some y ->
  String.leb x y = true.
Proof.
  intros Hab Hx Hy.
  assert (Hset : settled (sortFields l) (0 + (List.length l - 1)))
    by (apply sortOuter_inv; intros ? ? ?; lia).
  apply lookup_lt_Some in Hy as Lb. rewrite (Permutation_length (sortFields_perm l)) in Lb.
  apply (Hset a b ltac:(lia) Hab x y Hx Hy).
Qed.

Lemma collectFields_elem (content : gmap string JSONValue) (fieldSet : gset string) field :
  field ∈ collectFields content fieldSet
  <-> field ∈ fieldSet \/ is_Some (content !! field).
Proof.
  unfold collectFields.
  apply (map_fold_weak_ind
           (fun (r : gset string) (m : gmap string JSONValue) =>
              field ∈ r <-> field ∈ fieldSet \/ is_Some (m !! field))).
  - rewrite lookup_empty. split; [auto|]. intros [H|[? H]]; [exact H|discriminate H].
  - intros k v m r Hfresh IH. rewrite elem_of_union, elem_of_singleton, IH.
    destruct (decide (k = field)) as [->|Hne].
    + rewrite lookup_insert_eq. split; [eauto|auto].
    + rewrite lookup_insert_ne by exact Hne. split; [|tauto].
      intros [Heq|H]; [congruence|exact H].
Qed.

Lemma fieldSet_fold field recs : forall init : gset string,
  field ∈ fold_left (fun set record => collectFields (Content record) set) recs init
  <-> field ∈ init \/ exists record, record ∈ recs /\ is_Some (Content record !! field).
Proof.
  induction recs as [|r recs IH]; intros init; simpl.
  - split; [auto|]. intros [H|(record & Hin & _)]; [exact H|].
    apply elem_of_nil in Hin. contradiction.
  - rewrite IH, collectFields_elem. split.
    + intros [[H|H]|(record & Hin & H)].
      * auto.
      * right. exists r. split; [apply list_elem_of_here|exact H].
      * right. exists record. split; [apply list_elem_of_further, Hin|exact H].
    + intros [H|(record & Hin & H)]; [auto|].
      apply elem_of_cons in Hin as [->|Hin]; [auto|].
      right. exists record. split; assumption.
Qed.

End FieldSort.

(** X18.  [GetAllFields] lists exactly the field names that occur in some
    stored record, each once, in strictly ascending byte order, whatever
    the iteration order of the maps. *)
Theorem X18_all_fields_sorted_unique_complete
    (a : App) (f : JSONLFile) (c : RecordCache)
    (Hfile : currentFile a = Some f) (Hcache : cache a = Some c) :
  exists fields,
    GetAllFields a = Ok fields
    /\ (forall field,
          field ∈ fields
          <-> exists record, record ∈ records c /\ is_Some (Content record !! field))
    /\ (forall (i j : nat) x y,
          (i < j)%nat -> fields !! i = Some x -> fields !! j = Some y ->
          String.ltb x y = true).
Proof.
  unfold GetAllFields. rewrite Hfile, Hcache. eexists. split; [reflexivity|].
  cbv zeta.
  set (fieldSet := fold_left (fun set record => collectFields (Content record) set)
                             (records c) ∅).
  split.
  - intros field. rewrite sortFields_perm, elem_of_elements. unfold fieldSet.
    rewrite fieldSet_fold. split; [|auto].
    intros [H|H]; [|exact H]. apply elem_of_empty in H. contradiction.
  - intros i j x y Hij Hx Hy.
    apply leb_neq_ltb; [exact (sortFields_ascending _ i j x y Hij Hx Hy)|].
    intros ->.
    assert (Hnd : NoDup (sortFields (elements fieldSet))).
    { rewrite sortFields_perm. apply NoDup_elements. }
    pose proof (NoDup_lookup _ i j y Hnd Hx Hy). lia.
Qed.

Lemma X18_all_fields_witness :
  exists fields,
    GetAllFields johnApp = Ok fields
    /\ (forall field,
          field ∈ fields
          <-> exists record,
                record ∈ records (mkRecordCache [recordOf 1 john] 50 1)
                /\ is_Some (Content record !! field))
    /\ (forall (i j : nat) x y,
          (i < j)%nat -> fields !! i = Some x -> fields !! j = Some y ->
          String.ltb x y = true).
Proof.
  apply (X18_all_fields_sorted_unique_complete johnApp johnFile
           (mkRecordCache [recordOf 1 john] 50 1)); reflexivity.
Defined.

(** * Loading from the clipboard *)

(** X19.  After a successful load from the clipboard the store holds the
    records of the valid lines of the text, at least one; the metadata
    counts them and gives the byte length of the text, the page size is 50
    and the path is [<clipboard>].  The export and the file statistics read
    that path from the disk: they fail when no such file can be opened. *)
Theorem X19_clipboard_load_then_export
    (Unmarshal : string -> option (gmap string JSONValue))
    (scanFile : string -> option (list string))
    (content : string) (a' : App) (file : JSONLFile)
    (query : string) (shown hidden : list string) (fileSize : Z)
    (Hload : LoadJSONLFromClipboard Unmarshal content = Ok (a', file))
    (Hdisk : scanFile "<clipboard>" = None) :
  appRecords a' = validRecords Unmarshal (Split content nl)
  /\ currentFile a' = Some file
  /\ Path file = "<clipboard>"
  /\ Size file = Z.of_nat (String.length content)
  /\ Records file = lenZ (appRecords a')
  /\ 0 < Records file
  /\ GetTotalRecordCount a' = Ok (Records file)
  /\ GetPageSize a' = Ok 50
  /\ (exists message,
        ExportSearchResults Unmarshal scanFile a' query shown hidden = inr message)
  /\ (exists e, GetFileStats Unmarshal scanFile a' fileSize = Fail e).
Proof.
  unfold LoadJSONLFromClipboard in Hload.
  destruct (String.eqb (TrimSpace content) EmptyString); [discriminate Hload|].
  pose proof (parseLines_counts Unmarshal (Split content nl)
                (Z.of_nat (String.length content))) as (Hvalid & _ & _ & Hsize).
  pose proof (ParseJSONL_records Unmarshal (Split content nl)
                (Z.of_nat (String.length content))) as Hrecs.
  unfold ParseJSONL in Hrecs. unfold ParseJSONLFromString in Hload.
  destruct (parseLines Unmarshal (Split content nl) (Z.of_nat (String.length content)))
    as [recs stats].
  simpl in Hvalid, Hsize, Hrecs.
  destruct (ValidRecords stats =? 0) eqn:Hzero; [discriminate Hload|].
  apply Z.eqb_neq in Hzero. injection Hload as <- <-. simpl.
  assert (Hpos : 0 <= lenZ recs) by (unfold lenZ; lia).
  split; [exact Hrecs|]. split; [reflexivity|]. split; [reflexivity|].
  split; [exact Hsize|]. split; [exact Hvalid|]. split; [lia|].
  split; [unfold GetTotalRecordCount; simpl; rewrite Hvalid; reflexivity|].
  split; [reflexivity|]. split.
  - unfold ExportSearchResults, GetAllRecords. simpl. rewrite Hdisk. eauto.
  - unfold GetFileStats. simpl. rewrite Hdisk. eauto.
Qed.

Lemma X19_clipboard_load_witness :
  let file := mkJSONLFile "Clipboard Content" "<clipboard>"
                (Z.of_nat (String.length (lineOf john))) 1 in
  let a' := mkApp (Some file) [recordOf 1 john]
              (Some (mkRecordCache [recordOf 1 john] 50 1)) in
  appRecords a' = validRecords (decodeKnown [john]) (Split (lineOf john) nl)
  /\ currentFile a' = Some file
  /\ Path file = "<clipboard>"
  /\ Size file = Z.of_nat (String.length (lineOf john))
  /\ Records file = lenZ (appRecords a')
  /\ 0 < Records file
  /\ GetTotalRecordCount a' = Ok (Records file)
  /\ GetPageSize a' = Ok 50
  /\ (exists message,
        ExportSearchResults (decodeKnown [john]) (fun _ => None) a' "john" [] []
        = inr message)
  /\ (exists e, GetFileStats (decodeKnown [john]) (fun _ => None) a' 0 = Fail e).
Proof.
  apply (X19_clipboard_load_then_export (decodeKnown [john]) (fun _ => None)
           (lineOf john)); [vm_compute; reflexivity|reflexivity].
Defined.

(** * The export file *)

(** X20.  An export without field lists writes valid JSONL: the lines
    written are the lines of the exported records, in file order, each one a
    line of the file with its surrounding white space removed, not blank,
    accepted again by [ValidateJSONLLine] and decoding to the content of its
    record.  The exported records are among the valid records of the file,
    in the same order. *)
Theorem X20_export_writes_valid_lines
    (Unmarshal : string -> option (gmap string JSONValue))
    (scanFile : string -> option (list string))
    (a : App) (query : string) (f : JSONLFile) (scanned : list string)
    (Hfile : currentFile a = Some f)
    (Hscan : scanFile (Path f) = Some scanned) :
  exists exported,
    GetAllRecords Unmarshal scanFile a query = inl exported
    /\ ExportSearchResults Unmarshal scanFile a query [] []
       = inl (map (fun r => RawJSON r ++ nl) exported)
    /\ exported `sublist_of` validRecords Unmarshal scanned
    /\ (forall r, r ∈ exported ->
          (exists raw, raw ∈ scanned /\ RawJSON r = TrimSpace raw)
          /\ RawJSON r <> EmptyString
          /\ Unmarshal (RawJSON r) = Some (Content r)
          /\ ValidateJSONLLine Unmarshal (RawJSON r) (LineNumber r) = None).
Proof.
  exists (exportLoop Unmarshal query 1 scanned).
  assert (Hall : GetAllRecords Unmarshal scanFile a query
                 = inl (exportLoop Unmarshal query 1 scanned)).
  { unfold GetAllRecords. rewrite Hfile, Hscan. reflexivity. }
  split; [exact Hall|]. split; [|split].
  - unfold ExportSearchResults. rewrite Hall. reflexivity.
  - rewrite exportLoop_filter. apply filter_sublist_of.
  - intros r Hin. rewrite exportLoop_filter in Hin.
    apply list_elem_of_In, List.filter_In in Hin as [Hin _].
    apply list_elem_of_In, validFrom_elem in Hin
      as (i & raw & Hraw & _ & Hline & Hfull & Hdec).
    rewrite Hline. split; [|split; [exact Hfull|split; [exact Hdec|]]].
    + exists raw. split; [|reflexivity]. apply list_elem_of_lookup. eauto.
    + unfold ValidateJSONLLine. rewrite TrimSpace_idempotent.
      rewrite (proj2 (String.eqb_neq _ _) Hfull), Hdec. reflexivity.
Qed.

Lemma X20_export_valid_lines_witness :
  exists exported,
    GetAllRecords (decodeKnown [john]) (oneFile john) johnApp "name:john" = inl exported
    /\ ExportSearchResults (decodeKnown [john]) (oneFile john) johnApp "name:john" [] []
       = inl (map (fun r => RawJSON r ++ nl) exported)
    /\ exported `sublist_of` validRecords (decodeKnown [john]) [lineOf john]
    /\ (forall r, r ∈ exported ->
          (exists raw, raw ∈ [lineOf john] /\ RawJSON r = TrimSpace raw)
          /\ RawJSON r <> EmptyString
          /\ decodeKnown [john] (RawJSON r) = Some (Content r)
          /\ ValidateJSONLLine (decodeKnown [john]) (RawJSON r) (LineNumber r) = None).
Proof.
  apply (X20_export_writes_valid_lines (decodeKnown [john]) (oneFile john)
           johnApp "name:john" johnFile [lineOf john]); reflexivity.
Defined.

(** * Highlights *)

Section Highlights.
Local Open Scope nat_scope.

Lemma Index_cons d s m :
  Index (String d s) m
  = if String.prefix m (String d s) then Some 0 else option_map S (Index s m).
Proof. reflexivity. Qed.

(** [strings.Index] finds something exactly when [strings.Contains] holds. *)
Lemma Index_Contains s m :
  Contains s m = match Index s m with Some _ => true | None => false end.
Proof.
  induction s as [|d s IH].
  - destruct m; reflexivity.
  - rewrite Contains_cons, Index_cons.
    destruct (String.prefix m (String d s)); [reflexivity|].
    rewrite IH. destruct (Index s m); reflexivity.
Qed.

Lemma Index_Some s m : forall i,
  Index s m = Some i ->
  i + String.length m <= String.length s /\ substring i (String.length m) s = m.
Proof.
  induction s as [|d s IH]; intros i.
  - change (Index EmptyString m)
      with (if String.prefix m EmptyString then Some 0 else None).
    destruct (String.prefix m EmptyString) eqn:Hp; [|intros H; discriminate H].
    intros [= <-]. split; [exact (prefix_length _ _ Hp)|].
    apply prefix_correct. exact Hp.
  - rewrite Index_cons. destruct (String.prefix m (String d s)) eqn:Hp.
    + intros [= <-]. split; [exact (prefix_length _ _ Hp)|].
      apply prefix_correct. exact Hp.
    + destruct (Index s m) as [j|] eqn:Hj; [|intros H; discriminate H].
      intros [= <-].
      destruct (IH j eq_refl) as [Hlen Hsub]. split; [simpl; lia|exact Hsub].
Qed.

Lemma SliceFrom_cons d s p : SliceFrom (String d s) (S p) = SliceFrom s p.
Proof. reflexivity. Qed.

Lemma SliceFrom_zero s : SliceFrom s 0 = s.
Proof. unfold SliceFrom, Slice. rewrite Nat.sub_0_r. apply substring_full. Qed.

Lemma SliceFrom_exact_length s : forall p,
  p <= String.length s -> String.length (SliceFrom s p) = String.length s - p.
Proof.
  induction s as [|d s IH]; intros [|p] Hp; simpl in Hp; try lia.
  - reflexivity.
  - rewrite SliceFrom_zero. lia.
  - rewrite SliceFrom_cons. rewrite IH by lia. reflexivity.
Qed.

Lemma substring_SliceFrom s : forall p i n,
  p <= String.length s -> substring i n (SliceFrom s p) = substring (p + i) n s.
Proof.
  induction s as [|d s IH]; intros [|p] i n Hp; simpl in Hp; try lia.
  - reflexivity.
  - rewrite SliceFrom_zero. reflexivity.
  - rewrite SliceFrom_cons. rewrite IH by lia. reflexivity.
Qed.

Lemma foldCase_length caseSensitive s :
  String.length (foldCase caseSensitive s) = String.length s.
Proof. destruct caseSensitive; [reflexivity|apply ToLower_length]. Qed.

Lemma foldCase_substring caseSensitive s n m :
  foldCase caseSensitive (substring n m s) = substring n m (foldCase caseSensitive s).
Proof. destruct caseSensitive; [reflexivity|apply ToLower_substring]. Qed.

Variables (rawJSON query : string) (caseSensitive : bool).

Lemma rawOk_weaken lo lo' h :
  lo' <= lo ->
  rawOk rawJSON query caseSensitive lo h -> rawOk rawJSON query caseSensitive lo' h.
Proof.
  intros Hle (pos & H1 & H). exists pos. split; [lia|exact H].
Qed.

Lemma rawHighlights_more fuel : forall startPos r fuel',
  rawHighlights fuel rawJSON (foldCase caseSensitive rawJSON)
    (foldCase caseSensitive query) query startPos = Some r ->
  fuel <= fuel' ->
  rawHighlights fuel' rawJSON (foldCase caseSensitive rawJSON)
    (foldCase caseSensitive query) query startPos = Some r.
Proof.
  induction fuel as [|fuel IH]; intros startPos r fuel' Hr Hle; [discriminate Hr|].
  destruct fuel' as [|fuel']; [lia|]. simpl in Hr |- *.
  destruct (String.length (foldCase caseSensitive rawJSON) <? startPos); [exact Hr|].
  destruct (Index _ _) as [index|]; [|exact Hr].
  destruct (String.length rawJSON <? startPos + index + String.length query);
    [exact Hr|].
  destruct (rawHighlights fuel _ _ _ _ _) as [r'|] eqn:Hrest; [|discriminate Hr].
  rewrite (IH _ r' fuel' Hrest ltac:(lia)). exact Hr.
Qed.

Hypothesis Hquery : query <> EmptyString.

Lemma rawHighlights_spec fuel : forall startPos,
  startPos <= String.length rawJSON ->
  String.length rawJSON - startPos < fuel ->
  exists highlights,
    rawHighlights fuel rawJSON (foldCase caseSensitive rawJSON)
      (foldCase caseSensitive query) query startPos = Some (Ok highlights)
    /\ Forall (rawOk rawJSON query caseSensitive startPos) highlights
    /\ StronglySorted (fun h1 h2 => (EndPos h1 <= StartPos h2)%Z) highlights
    /\ (highlights = []
        <-> Index (SliceFrom (foldCase caseSensitive rawJSON) startPos)
                  (foldCase caseSensitive query) = None).
Proof.
  assert (Hn : 0 < String.length query) by (destruct query; [contradiction|simpl; lia]).
  induction fuel as [|fuel IH]; intros startPos Hstart Hfuel; [lia|].
  simpl. rewrite !foldCase_length.
  rewrite (proj2 (Nat.ltb_ge _ _) Hstart).
  destruct (Index _ _) as [index|] eqn:Hindex.
  - apply Index_Some in Hindex as [Hlen Hsub].
    rewrite SliceFrom_exact_length in Hlen by (rewrite foldCase_length; exact Hstart).
    rewrite substring_SliceFrom in Hsub by (rewrite foldCase_length; exact Hstart).
    repeat rewrite foldCase_length in Hlen. repeat rewrite foldCase_length in Hsub.
    rewrite (proj2 (Nat.ltb_ge _ _)) by lia.
    destruct (IH (startPos + index + String.length query)) as (rest & -> & Hok & Hsorted & _);
      [lia|lia|].
    eexists. split; [reflexivity|]. split; [|split].
    + constructor.
      * exists (startPos + index). simpl.
        split; [lia|]. split; [lia|]. split; [reflexivity|]. split; [lia|].
        split; [reflexivity|]. split; [reflexivity|].
        unfold Slice. rewrite foldCase_substring.
        replace (startPos + index + String.length query - (startPos + index))
          with (String.length query) by lia.
        exact Hsub.
      * eapply Forall_impl; [exact Hok|]. intros h. apply rawOk_weaken. lia.
    + constructor; [exact Hsorted|].
      eapply Forall_impl; [exact Hok|]. intros h (pos & Hlo & _ & Hs & _). simpl. lia.
    + split; discriminate.
  - exists []. split; [reflexivity|]. split; [constructor|]. split; [constructor|].
    split; reflexivity.
Qed.

End Highlights.

Section Occurrences.
Local Open Scope nat_scope.

Lemma occursAt_zero s m : occursAt s m 0 <-> String.prefix m s = true.
Proof.
  unfold occursAt. split.
  - intros [_ H]. apply prefix_correct. exact H.
  - intros H. split; [exact (prefix_length _ _ H)|]. apply prefix_correct. exact H.
Qed.

Lemma occursAt_cons d s m j : occursAt (String d s) m (S j) <-> occursAt s m j.
Proof.
  unfold occursAt. simpl. split; intros [H1 H2]; (split; [lia|exact H2]).
Qed.

Lemma occursAt_empty m j : occursAt EmptyString m j -> String.prefix m EmptyString = true.
Proof.
  intros [Hlen _]. destruct m; [reflexivity|simpl in Hlen; lia].
Qed.

(** [strings.Index] gives the first occurrence, and -1 only when there is
    none. *)
Lemma Index_occurs s m i : Index s m = Some i -> occursAt s m i.
Proof. apply Index_Some. Qed.

Lemma Index_first s m : forall i,
  Index s m = Some i -> forall j, j < i -> ~ occursAt s m j.
Proof.
  induction s as [|d s IH]; intros i.
  - change (Index EmptyString m)
      with (if String.prefix m EmptyString then Some 0 else None).
    destruct (String.prefix m EmptyString); intros [= <-] j Hj; lia.
  - rewrite Index_cons. destruct (String.prefix m (String d s)) eqn:Hp.
    + intros [= <-] j Hj. lia.
    + destruct (Index s m) as [i'|] eqn:Hi; [|intros H; discriminate H].
      intros [= <-] [|j] Hj Hocc.
      * apply occursAt_zero in Hocc. congruence.
      * apply occursAt_cons in Hocc. exact (IH i' eq_refl j ltac:(lia) Hocc).
Qed.

Lemma Index_none s m : Index s m = None -> forall j, ~ occursAt s m j.
Proof.
  induction s as [|d s IH].
  - change (Index EmptyString m)
      with (if String.prefix m EmptyString then Some 0 else None).
    destruct (String.prefix m EmptyString) eqn:Hp; [intros H; discriminate H|].
    intros _ j Hocc. apply occursAt_empty in Hocc. congruence.
  - rewrite Index_cons. destruct (String.prefix m (String d s)) eqn:Hp;
      [intros H; discriminate H|].
    destruct (Index s m) as [i'|] eqn:Hi; [intros H; discriminate H|].
    intros _ [|j] Hocc.
    + apply occursAt_zero in Hocc. congruence.
    + apply occursAt_cons in Hocc. exact (IH eq_refl j Hocc).
Qed.

Lemma occursAt_SliceFrom s start m j :
  start <= String.length s ->
  occursAt (SliceFrom s start) m j <-> occursAt s m (start + j).
Proof.
  intros Hstart. unfold occursAt.
  rewrite SliceFrom_exact_length, substring_SliceFrom by exact Hstart.
  split; intros [H1 H2]; (split; [lia|exact H2]).
Qed.

Variables (rawJSON query : string) (caseSensitive : bool).
Hypothesis Hquery : query <> EmptyString.

(** The first loop lists the occurrences from left to right, every one of
    them that starts at or after the end of the one before. *)
Lemma rawHighlights_positions fuel : forall startPos,
  startPos <= String.length rawJSON ->
  String.length rawJSON - startPos < fuel ->
  exists positions,
    rawHighlights fuel rawJSON (foldCase caseSensitive rawJSON)
      (foldCase caseSensitive query) query startPos
    = Some (Ok (map (rawHighlightAt rawJSON query) positions))
    /\ leftToRight (foldCase caseSensitive rawJSON) (foldCase caseSensitive query)
         startPos positions.
Proof.
  assert (Hn : 0 < String.length query) by (destruct query; [contradiction|simpl; lia]).
  assert (Htext : forall start, start <= String.length rawJSON ->
                    start <= String.length (foldCase caseSensitive rawJSON))
    by (intros start H; rewrite foldCase_length; exact H).
  induction fuel as [|fuel IH]; intros startPos Hstart Hfuel; [lia|].
  simpl rawHighlights. rewrite !foldCase_length.
  rewrite (proj2 (Nat.ltb_ge _ _) Hstart).
  destruct (Index (SliceFrom (foldCase caseSensitive rawJSON) startPos)
                  (foldCase caseSensitive query)) as [index|] eqn:Hindex.
  - pose proof (Index_occurs _ _ _ Hindex) as Hocc.
    pose proof (Index_first _ _ _ Hindex) as Hfirst.
    apply occursAt_SliceFrom in Hocc; [|apply Htext, Hstart].
    assert (Hlen : startPos + index + String.length query <= String.length rawJSON).
    { destruct Hocc as [Hlen _]. rewrite !foldCase_length in Hlen. exact Hlen. }
    rewrite (proj2 (Nat.ltb_ge _ _) Hlen).
    destruct (IH (startPos + index + String.length query)) as (rest & -> & Hrest);
      [lia|lia|].
    exists (startPos + index :: rest). split; [reflexivity|].
    split; [lia|]. split; [exact Hocc|]. split.
    + intros p' Hlo Hhi Hocc'.
      apply (Hfirst (p' - startPos)); [lia|].
      apply occursAt_SliceFrom; [apply Htext, Hstart|].
      replace (startPos + (p' - startPos)) with p' by lia. exact Hocc'.
    + rewrite foldCase_length. exact Hrest.
  - exists []. split; [reflexivity|].
    intros p Hp Hocc.
    apply (Index_none _ _ Hindex (p - startPos)).
    apply occursAt_SliceFrom; [apply Htext, Hstart|].
    replace (startPos + (p - startPos)) with p by lia. exact Hocc.
Qed.

End Occurrences.

Lemma fieldHighlights_elem (record : JSONRecord) (searchQuery : string)
    (caseSensitive : bool) (h : HighlightMatch) :
  h ∈ fieldHighlights record searchQuery caseSensitive
  <-> exists fieldName value (fieldStartPos : nat),
        Content record !! fieldName = Some value
        /\ Contains (foldCase caseSensitive (Sprint value)) searchQuery = true
        /\ Index (RawJSON record) (dq ++ fieldName ++ dq) = Some fieldStartPos
        /\ h = mkHighlightMatch (Sprint value) (Z.of_nat fieldStartPos)
                 (Z.of_nat fieldStartPos + Z.of_nat (String.length (Sprint value)))
                 fieldName.
Proof.
  unfold fieldHighlights. rewrite list_elem_of_In, in_flat_map. split.
  - intros ([fieldName value] & Hin & Hh). simpl in Hh.
    apply list_elem_of_In, elem_of_map_to_list in Hin.
    destruct (Contains _ searchQuery) eqn:Hc; [|destruct Hh].
    destruct (Index _ _) as [p|] eqn:Hp; [|destruct Hh].
    destruct Hh as [<-|[]]. exists fieldName, value, p. auto.
  - intros (fieldName & value & p & Hlook & Hc & Hp & ->).
    exists (fieldName, value). split.
    + apply list_elem_of_In, elem_of_map_to_list. exact Hlook.
    + simpl. rewrite Hc, Hp. left. reflexivity.
Qed.

(** X21.  For a query that is not blank [GetSearchHighlights] returns, and
    never slices out of range: first the highlights of the line, one for
    each occurrence of the query found from left to right without overlap
    (the first is at the first occurrence in the line, each next one at the
    first occurrence at or after the end of the one before, and no
    occurrence follows the last), each as long as the query and holding the
    text of the line that matched (equal to the query up to case when the
    search ignores it); there is none exactly when the line does not
    contain the query.  After them come the highlights of the fields whose
    printed value contains the query: such a highlight starts where the
    quoted field name first occurs in the line and is as long as the value.
    The text is ASCII when case is ignored, where [ToLower] above is Go's. *)
Theorem X21_highlights_mark_the_occurrences
    (record : JSONRecord) (query : string) (caseSensitive : bool)
    (Hquery : TrimSpace query <> EmptyString)
    (Hascii : caseSensitive = false ->
              isASCII query = true /\ asciiRecord record = true) :
  exists raws,
    GetSearchHighlights record query caseSensitive
    = Some (Ok (raws ++ fieldHighlights record (foldCase caseSensitive query)
                          caseSensitive)%list)
    /\ (forall fuel,
          (String.length (RawJSON record) < fuel)%nat ->
          highlightsFuel fuel record query caseSensitive
          = GetSearchHighlights record query caseSensitive)
    /\ (exists positions,
          raws = map (rawHighlightAt (RawJSON record) query) positions
          /\ leftToRight (foldCase caseSensitive (RawJSON record))
                         (foldCase caseSensitive query) 0 positions)
    /\ Forall (fun h =>
                 FieldName h = "raw"
                 /\ 0 <= StartPos h
                 /\ EndPos h = StartPos h + Z.of_nat (String.length query)
                 /\ EndPos h <= Z.of_nat (String.length (RawJSON record))
                 /\ Text h = Slice (RawJSON record) (Z.to_nat (StartPos h))
                               (Z.to_nat (EndPos h))
                 /\ foldCase caseSensitive (Text h) = foldCase caseSensitive query)
              raws
    /\ StronglySorted (fun h1 h2 => EndPos h1 <= StartPos h2) raws
    /\ (raws = []
        <-> Contains (foldCase caseSensitive (RawJSON record))
                     (foldCase caseSensitive query) = false)
    /\ (forall h,
          h ∈ fieldHighlights record (foldCase caseSensitive query) caseSensitive
          <-> exists fieldName value (fieldStartPos : nat),
                Content record !! fieldName = Some value
                /\ Contains (foldCase caseSensitive (Sprint value))
                            (foldCase caseSensitive query) = true
                /\ Index (RawJSON record) (dq ++ fieldName ++ dq) = Some fieldStartPos
                /\ h = mkHighlightMatch (Sprint value) (Z.of_nat fieldStartPos)
                         (Z.of_nat fieldStartPos
                          + Z.of_nat (String.length (Sprint value)))
                         fieldName).
Proof.
  assert (Hne : query <> EmptyString) by (intros ->; apply Hquery; reflexivity).
  destruct (rawHighlights_spec (RawJSON record) query caseSensitive Hne
              (S (String.length (RawJSON record))) 0%nat)
    as (raws & Hraws & Hok & Hsorted & Hnil); [lia|lia|].
  destruct (rawHighlights_positions (RawJSON record) query caseSensitive Hne
              (S (String.length (RawJSON record))) 0%nat)
    as (positions & Hpositions & Hleft); [lia|lia|].
  exists raws.
  assert (Hfuel : forall fuel,
             (String.length (RawJSON record) < fuel)%nat ->
             highlightsFuel fuel record query caseSensitive
             = Some (Ok (raws ++ fieldHighlights record (foldCase caseSensitive query)
                                   caseSensitive)%list)).
  { intros fuel Hlt. unfold highlightsFuel.
    rewrite (proj2 (String.eqb_neq _ _) Hquery). cbv zeta.
    rewrite (rawHighlights_more (RawJSON record) query caseSensitive _ _ _ fuel Hraws)
      by lia.
    reflexivity. }
  split; [apply Hfuel; lia|]. split; [|split; [|split; [|split; [|split]]]].
  - intros fuel Hlt. unfold GetSearchHighlights. rewrite !Hfuel by lia. reflexivity.
  - exists positions. split; [|exact Hleft].
    rewrite Hraws in Hpositions. injection Hpositions as ->. reflexivity.
  - eapply Forall_impl; [exact Hok|].
    intros h (pos & _ & Hend & Hs & He & Hname & Htext & Hfold).
    rewrite Hs, He, !Nat2Z.id.
    split; [exact Hname|]. split; [lia|]. split; [lia|]. split; [lia|].
    split; [exact Htext|exact Hfold].
  - exact Hsorted.
  - rewrite Hnil, SliceFrom_zero, Index_Contains.
    destruct (Index (foldCase caseSensitive (RawJSON record))
                    (foldCase caseSensitive query)); split; congruence.
  - intros h. apply fieldHighlights_elem.
Qed.

Lemma X21_highlights_witness :
  exists raws,
    GetSearchHighlights johnDoe "o" false
    = Some (Ok (raws ++ fieldHighlights johnDoe (foldCase false "o") false)%list)
    /\ (forall fuel,
          (String.length (RawJSON johnDoe) < fuel)%nat ->
          highlightsFuel fuel johnDoe "o" false
          = GetSearchHighlights johnDoe "o" false)
    /\ (exists positions,
          raws = map (rawHighlightAt (RawJSON johnDoe) "o") positions
          /\ leftToRight (foldCase false (RawJSON johnDoe)) (foldCase false "o")
                         0 positions)
    /\ Forall (fun h =>
                 FieldName h = "raw"
                 /\ 0 <= StartPos h
                 /\ EndPos h = StartPos h + Z.of_nat (String.length "o")
                 /\ EndPos h <= Z.of_nat (String.length (RawJSON johnDoe))
                 /\ Text h = Slice (RawJSON johnDoe) (Z.to_nat (StartPos h))
                               (Z.to_nat (EndPos h))
                 /\ foldCase false (Text h) = foldCase false "o")
              raws
    /\ StronglySorted (fun h1 h2 => EndPos h1 <= StartPos h2) raws
    /\ (raws = []
        <-> Contains (foldCase false (RawJSON johnDoe)) (foldCase false "o") = false)
    /\ (forall h,
          h ∈ fieldHighlights johnDoe (foldCase false "o") false
          <-> exists fieldName value (fieldStartPos : nat),
                Content johnDoe !! fieldName = Some value
                /\ Contains (foldCase false (Sprint value)) (foldCase false "o") = true
                /\ Index (RawJSON johnDoe) (dq ++ fieldName ++ dq) = Some fieldStartPos
                /\ h = mkHighlightMatch (Sprint value) (Z.of_nat fieldStartPos)
                         (Z.of_nat fieldStartPos
                          + Z.of_nat (String.length (Sprint value)))
                         fieldName).
Proof.
  apply (X21_highlights_mark_the_occurrences johnDoe "o" false).
  - vm_compute. discriminate.
  - intros _. split; vm_compute; reflexivity.
Defined.

(** * The two search modes *)

Section FieldSearch.

(** An atom [field:value] whose value is neither quoted nor a wildcard
    compiles to a field leaf. *)
Lemma parseLuceneQuery_field query :
  isAtom (TrimSpace query) = true ->
  Contains (TrimSpace query) ":" = true ->
  atomField (TrimSpace query) <> EmptyString ->
  isQuoted (atomValue (TrimSpace query)) = false ->
  hasWildcard (atomValue (TrimSpace query)) = false ->
  parseLuceneQuery query
  = Some (leafNode "field" (atomField (TrimSpace query)) (atomValue (TrimSpace query))).
Proof.
  intros Hatom Hcolon Hfield Hquoted Hwild.
  rewrite parseLuceneQuery_unfold. unfold parseBody.
  destruct (String.eqb_spec (TrimSpace query) EmptyString) as [Hblank|_].
  { rewrite Hblank in Hcolon. discriminate Hcolon. }
  cbv zeta. set (q := TrimSpace query) in *.
  unfold isAtom in Hatom.
  apply andb_true_iff in Hatom as [Hatom Hnot].
  apply andb_true_iff in Hatom as [Hor Hand].
  apply negb_true_iff in Hor, Hand, Hnot.
  rewrite Hor, Hand, Hnot. f_equal.
  unfold parseAtom, atomField, atomValue in *. rewrite Hcolon in *.
  destruct (SplitN2 q ":") as [|p0 [|p1 [|p2 rest]]]; try contradiction.
  cbv zeta. rewrite Hquoted, Hwild. reflexivity.
Qed.

Lemma evaluate_field_node field value record caseSensitive :
  evaluateLuceneQuery (Some (leafNode "field" field value)) record caseSensitive
  = match Content record !! field with
    | Some fieldValue => matchFieldValue fieldValue value caseSensitive
    | None => false
    end.
Proof. reflexivity. Qed.

End FieldSearch.

(** X22.  The Lucene query [field:value] and the plain search for [value]
    in the selected field [field] return the same page: the same records,
    offset, limit, totals and [HasMore]; only the echoed query differs.
    The value is not blank, not quoted and has no wildcard, and the field
    is neither empty nor [all]. *)
Theorem X22_field_query_is_plain_field_search
    (a : App) (f : JSONLFile) (c : RecordCache)
    (query : string) (caseSensitive : bool) (selected : string) (offset limit : Z)
    (Hfile : currentFile a = Some f) (Hcache : cache a = Some c)
    (Hatom : isAtom (TrimSpace query) = true)
    (Hcolon : Contains (TrimSpace query) ":" = true)
    (Hfield : atomField (TrimSpace query) <> EmptyString)
    (Hall : atomField (TrimSpace query) <> "all")
    (Hvalue : TrimSpace (atomValue (TrimSpace query)) <> EmptyString)
    (Hquoted : isQuoted (atomValue (TrimSpace query)) = false)
    (Hwild : hasWildcard (atomValue (TrimSpace query)) = false) :
  let field := atomField (TrimSpace query) in
  let value := atomValue (TrimSpace query) in
  exists found off lim total totalMatches hasMore,
    SearchRecords a (mkSearchOptions query caseSensitive true selected offset limit)
    = Ok (mkSearchResult found off lim total totalMatches hasMore query)
    /\ SearchRecords a (mkSearchOptions value caseSensitive false field offset limit)
       = Ok (mkSearchResult found off lim total totalMatches hasMore value).
Proof.
  intros field value.
  assert (Hquery : TrimSpace query <> EmptyString).
  { intros Hblank. rewrite Hblank in Hcolon. discriminate Hcolon. }
  pose proof (parseLuceneQuery_field query Hatom Hcolon Hfield Hquoted Hwild) as Hparse.
  fold field value in Hparse, Hfield, Hall, Hvalue.
  unfold SearchRecords, SearchRecordsWith. rewrite Hfile, Hcache.
  cbn [optQuery optCaseSensitive optUseLucene optSelectedField optOffset optLimit].
  rewrite (proj2 (String.eqb_neq _ _) Hquery), (proj2 (String.eqb_neq _ _) Hvalue).
  rewrite Hparse.
  rewrite (proj2 (String.eqb_neq field EmptyString) Hfield),
    (proj2 (String.eqb_neq field "all") Hall).
  cbn [negb andb].
  rewrite (List.filter_ext
             (fun record => evaluateLuceneQuery (Some (leafNode "field" field value))
                              record caseSensitive)
             (fun record => match Content record !! field with
                            | Some fieldValue =>
                                matchFieldValue fieldValue value caseSensitive
                            | None => false
                            end))
    by (intros record; apply evaluate_field_node).
  cbv zeta.
  destruct (_ <=? _); do 6 eexists; split; reflexivity.
Qed.

Lemma X22_field_query_witness :
  let field := atomField (TrimSpace "name:john") in
  let value := atomValue (TrimSpace "name:john") in
  exists found off lim total totalMatches hasMore,
    SearchRecords johnApp (mkSearchOptions "name:john" false true EmptyString 0 10)
    = Ok (mkSearchResult found off lim total totalMatches hasMore "name:john")
    /\ SearchRecords johnApp (mkSearchOptions value false false field 0 10)
       = Ok (mkSearchResult found off lim total totalMatches hasMore value).
Proof.
  apply (X22_field_query_is_plain_field_search johnApp johnFile
           (mkRecordCache [recordOf 1 john] 50 1) "name:john" false EmptyString 0 10);
    try reflexivity; vm_compute; discriminate.
Defined.

(** * One record per line *)

Section OneLine.

Lemma uint_no_lf d : hasByte lf (NilEmpty.string_of_uint d) = false.
Proof. induction d; simpl; auto. Qed.

Lemma formatInt_no_lf n : hasByte lf (formatInt n) = false.
Proof.
  unfold formatInt, NilZero.string_of_int, NilZero.string_of_uint.
  destruct (Z.to_int n) as [d|d]; destruct d; simpl; auto using uint_no_lf.
Qed.

Lemma escapeByte_no_lf c : hasByte lf (escapeByte c) = false.
Proof. destruct c as [[] [] [] [] [] [] [] []]; vm_compute; reflexivity. Qed.

Lemma escapeFrom_cons c s :
  escapeFrom 0 (String c s)
  = if String.prefix (bytes [226; 128; 168]%N) (String c s)
    then "\u2028" ++ escapeFrom 2 s
    else if String.prefix (bytes [226; 128; 169]%N) (String c s)
    then "\u2029" ++ escapeFrom 2 s
    else escapeByte c ++ escapeFrom 0 s.
Proof. reflexivity. Qed.

Lemma escapeFrom_no_lf s : forall skip, hasByte lf (escapeFrom skip s) = false.
Proof.
  induction s as [|c s IH]; intros [|k]; try reflexivity; [|apply IH].
  rewrite escapeFrom_cons.
  destruct (String.prefix _ (String c s)); [rewrite hasByte_app, IH; reflexivity|].
  destruct (String.prefix _ (String c s)); [rewrite hasByte_app, IH; reflexivity|].
  rewrite hasByte_app, escapeByte_no_lf, IH. reflexivity.
Qed.

Lemma encodeString_no_lf s : hasByte lf (encodeString s) = false.
Proof.
  unfold encodeString, escapeBytes. rewrite !hasByte_app, escapeFrom_no_lf. reflexivity.
Qed.

Lemma Join_no_lf parts sep :
  Forall (fun p => hasByte lf p = false) parts -> hasByte lf sep = false ->
  hasByte lf (Join parts sep) = false.
Proof.
  intros Hparts Hsep. induction Hparts as [|p rest Hp Hrest IH]; [reflexivity|].
  destruct rest as [|p' rest]; [exact Hp|].
  change (Join (p :: p' :: rest) sep) with (p ++ sep ++ Join (p' :: rest) sep).
  rewrite !hasByte_app, Hp, Hsep, IH. reflexivity.
Qed.

Lemma writeObject_no_lf members :
  Forall (fun kv : string * string => hasByte lf (snd kv) = false) members ->
  hasByte lf (writeObject members) = false.
Proof.
  intros Hm. unfold writeObject. rewrite !hasByte_app, Join_no_lf; [reflexivity| |reflexivity].
  apply Forall_forall. intros part Hin.
  apply list_elem_of_fmap in Hin as (kv & -> & Hkv).
  rewrite !hasByte_app, encodeString_no_lf.
  rewrite (proj1 (Forall_forall _ _) Hm kv Hkv). reflexivity.
Qed.

(** [json.Marshal] writes no line feed: the line feeds of a string are
    escaped and nothing else produces one. *)
Lemma encodeValue_no_lf : forall v, hasByte lf (encodeValue v) = false.
Proof.
  fix IH 1. intros [|b|n|s|items|members].
  - reflexivity.
  - destruct b; reflexivity.
  - apply formatInt_no_lf.
  - apply encodeString_no_lf.
  - change (encodeValue (JArray items))
      with ("[" ++ Join (map encodeValue items) "," ++ "]").
    rewrite !hasByte_app, Join_no_lf; [reflexivity| |reflexivity].
    induction items as [|v items IHitems]; constructor; [apply IH|exact IHitems].
  - change (encodeValue (JObject members))
      with (writeObject
              (sortByKey (map (fun kv => (fst kv, encodeValue (snd kv))) members))).
    apply writeObject_no_lf. rewrite sortByKey_perm.
    induction members as [|kv members IHmembers]; constructor;
      [apply IH|exact IHmembers].
Qed.

Lemma trimLeftSteps_bytes c steps : forall s,
  hasByte c (trimLeftSteps steps s) = true -> hasByte c s = true.
Proof.
  induction steps as [|n IH]; intros s H; simpl in H; [exact H|].
  destruct (leadingSpace s) as [width|]; [|exact H].
  exact (hasByte_Slice c s _ _ (IH _ H)).
Qed.

Lemma trimRightSteps_bytes c steps : forall s,
  hasByte c (trimRightSteps steps s) = true -> hasByte c s = true.
Proof.
  induction steps as [|n IH]; intros s H; simpl in H; [exact H|].
  destruct (trailingSpace s) as [width|]; [|exact H].
  exact (hasByte_Slice c s _ _ (IH _ H)).
Qed.

(** Trimming adds no byte. *)
Lemma TrimSpace_bytes c s : hasByte c (TrimSpace s) = true -> hasByte c s = true.
Proof.
  unfold TrimSpace, TrimRightSpace, TrimLeftSpace. intros H.
  apply trimRightSteps_bytes, trimLeftSteps_bytes in H. exact H.
Qed.

End OneLine.

(** X23.  The export writes one line per exported record, whatever the
    field lists: every string written is a text without a line feed,
    followed by one line feed.  A projected record has none because
    [json.Marshal] escapes them; an unprojected one is a trimmed line of the
    file, and the scanner yields lines without a line feed. *)
Theorem X23_export_one_line_per_record
    (Unmarshal : string -> option (gmap string JSONValue))
    (scanFile : string -> option (list string))
    (a : App) (query : string) (shown hidden : list string)
    (f : JSONLFile) (scanned : list string)
    (Hfile : currentFile a = Some f)
    (Hscan : scanFile (Path f) = Some scanned)
    (Hlines : Forall (fun raw => hasByte lf raw = false) scanned) :
  exists exported lines,
    GetAllRecords Unmarshal scanFile a query = inl exported
    /\ ExportSearchResults Unmarshal scanFile a query shown hidden = inl lines
    /\ List.length lines = List.length exported
    /\ Forall (fun line => exists body, line = body ++ nl /\ hasByte lf body = false)
              lines.
Proof.
  assert (Hall : GetAllRecords Unmarshal scanFile a query
                 = inl (exportLoop Unmarshal query 1 scanned)).
  { unfold GetAllRecords. rewrite Hfile, Hscan. reflexivity. }
  do 2 eexists. split; [exact Hall|]. split; [|split].
  - unfold ExportSearchResults. rewrite Hall. reflexivity.
  - apply length_map.
  - apply Forall_map, Forall_forall. intros r Hin. eexists. split; [reflexivity|].
    unfold getDisplayJSON.
    destruct ((lenZ shown =? 0) && (lenZ hidden =? 0)); [|apply encodeValue_no_lf].
    rewrite exportLoop_filter in Hin.
    apply list_elem_of_In, List.filter_In in Hin as [Hin _].
    apply list_elem_of_In, validFrom_elem in Hin as (i & raw & Hraw & _ & -> & _).
    destruct (hasByte lf (TrimSpace raw)) eqn:Hlf; [|reflexivity].
    apply TrimSpace_bytes in Hlf.
    rewrite (proj1 (Forall_forall _ _) Hlines raw) in Hlf; [discriminate Hlf|].
    apply list_elem_of_lookup. eauto.
Qed.

Lemma X23_export_one_line_witness :
  exists exported lines,
    GetAllRecords (decodeKnown [john]) (oneFile john) johnApp "name:john" = inl exported
    /\ ExportSearchResults (decodeKnown [john]) (oneFile john) johnApp "name:john"
         ["name"] []
       = inl lines
    /\ List.length lines = List.length exported
    /\ Forall (fun line => exists body, line = body ++ nl /\ hasByte lf body = false)
              lines.
Proof.
  apply (X23_export_one_line_per_record (decodeKnown [john]) (oneFile john)
           johnApp "name:john" ["name"] [] johnFile [lineOf john]);
    [reflexivity|reflexivity|].
  constructor; [reflexivity|constructor].
Defined.

(** * Common fields at load time *)

Section LoadStatistics.

Variable Unmarshal : string -> option (gmap string JSONValue).

(** The counts that the parsing loop keeps are those of the counting loop
    of [GetCommonFields] over the records read. *)
Lemma parseLoop_fieldCounts scanned : forall st n,
  psFieldCounts (parseLoop Unmarshal st n scanned)
  = fold_left (fun counts record => countFields (Content record) counts)
              (exportLoop Unmarshal EmptyString n scanned) (psFieldCounts st).
Proof.
  induction scanned as [|raw rest IH]; intros st n; simpl; [reflexivity|].
  rewrite IH. unfold parseLine.
  destruct (String.eqb (TrimSpace raw) EmptyString); [reflexivity|].
  destruct (Unmarshal (TrimSpace raw)) as [content|]; reflexivity.
Qed.

Lemma parseLines_commonFields lines size :
  let recs := fst (parseLines Unmarshal lines size) in
  CommonFields (snd (parseLines Unmarshal lines size))
  = commonFieldsOf
      (fold_left (fun counts record => countFields (Content record) counts) recs ∅)
      (lenZ recs).
Proof.
  pose proof (parseLines_counts Unmarshal lines size) as [Hvalid _].
  unfold parseLines in *. simpl in *.
  rewrite Hvalid, parseLoop_fieldCounts, parseLoop_records. reflexivity.
Qed.

(** The order in which the counts are ranged over changes the order of the
    result only. *)
Lemma filter_Permutation {A} (p : A -> bool) (l l' : list A) :
  l ≡ₚ l' -> List.filter p l ≡ₚ List.filter p l'.
Proof.
  induction 1 as [|x l l' _ IH|x y l|l l' l'' _ IH1 _ IH2]; simpl.
  - reflexivity.
  - destruct (p x); [apply Permutation_skip|]; exact IH.
  - destruct (p x), (p y); try reflexivity. apply Permutation_swap.
  - etrans; eassumption.
Qed.

Lemma commonFields_any_order (fieldCounts : gmap string Z) totalRecords
    (order : list (string * Z)) :
  order ≡ₚ map_to_list fieldCounts ->
  map fst (List.filter (fun fc : string * Z => Z.quot totalRecords 2 <=? snd fc) order)
  ≡ₚ commonFieldsOf fieldCounts totalRecords.
Proof.
  intros Horder. unfold commonFieldsOf.
  apply fmap_Permutation, filter_Permutation, Horder.
Qed.

End LoadStatistics.

(** X24.  The common fields of the file statistics are, up to their order,
    the ones that [GetCommonFields] computes from the store after the load:
    the two lists hold the same fields, each once, namely the fields that
    some stored record has and that at least [n / 2] of the [n] stored
    records have, the quotient rounded down.  The order of either list is
    that of a range over a map, which the code does not fix. *)
Theorem X24_statistics_report_the_common_fields
    (Unmarshal : string -> option (gmap string JSONValue))
    (scanFile : string -> option (list string)) (Base : string -> string)
    (a a' : App) (filePath : string) (fileSize : Z) (file : JSONLFile)
    (Hload : LoadJSONLFile Unmarshal scanFile Base a filePath fileSize = Ok (a', file)) :
  exists stats fields,
    GetFileStats Unmarshal scanFile a' fileSize = Ok stats
    /\ GetCommonFields a' = Ok fields
    /\ fields ≡ₚ CommonFields stats
    /\ NoDup fields
    /\ (forall field,
          field ∈ CommonFields stats
          <-> 0 < occurrences field (appRecords a')
              /\ Z.quot (lenZ (appRecords a')) 2 <= occurrences field (appRecords a')).
Proof.
  unfold LoadJSONLFile in Hload.
  destruct (String.eqb filePath EmptyString); [discriminate Hload|].
  destruct (scanFile filePath) as [scanned|] eqn:Hscan; [|discriminate Hload].
  pose proof (parseLines_commonFields Unmarshal scanned fileSize) as Hcommon.
  unfold ParseJSONL in Hload.
  destruct (parseLines Unmarshal scanned fileSize) as [recs stats] eqn:Hparse.
  injection Hload as <- <-. simpl in Hcommon.
  exists stats, (CommonFields stats). split; [|split; [|split; [|split]]].
  - unfold GetFileStats, ParseJSONL. cbn [currentFile Path]. rewrite Hscan, Hparse.
    reflexivity.
  - unfold GetCommonFields. simpl. rewrite Hcommon. reflexivity.
  - reflexivity.
  - rewrite Hcommon. unfold commonFieldsOf.
    apply (sublist_NoDup _ (map fst (map_to_list
             (fold_left (fun counts record => countFields (Content record) counts)
                        recs ∅)))).
    + apply NoDup_fst_map_to_list.
    + apply fmap_sublist, filter_sublist_of.
  - intros field. cbn [appRecords].
    destruct (GetCommonFields_spec
                (mkApp (Some (mkJSONLFile (Base filePath) filePath fileSize
                                (ValidRecords stats)))
                       recs (Some (mkRecordCache recs 50 (lenZ recs))))
                _ _ field eq_refl eq_refl) as (fields & Hfields & Hspec).
    unfold GetCommonFields in Hfields. simpl in Hfields, Hspec.
    rewrite <- Hcommon in Hfields. injection Hfields as <-. exact Hspec.
Qed.

Lemma X24_statistics_common_fields_witness :
  exists stats fields,
    GetFileStats (decodeKnown [john]) (oneFile john) johnApp 15 = Ok stats
    /\ GetCommonFields johnApp = Ok fields
    /\ fields ≡ₚ CommonFields stats
    /\ NoDup fields
    /\ (forall field,
          field ∈ CommonFields stats
          <-> 0 < occurrences field (appRecords johnApp)
              /\ Z.quot (lenZ (appRecords johnApp)) 2
                 <= occurrences field (appRecords johnApp)).
Proof.
  apply (X24_statistics_report_the_common_fields (decodeKnown [john]) (oneFile john)
           (fun _ => "sample.jsonl") (mkApp None [] None) johnApp
           "/tmp/sample.jsonl" 15 johnFile).
  vm_compute. reflexivity.
Defined.

(** * Plain search over all fields *)

Section PlainSearch.

(** The result of a plain search over all fields for a query that is not
    blank. *)
Lemma SearchRecords_plain (a : App) (options : SearchOptions)
    (f : JSONLFile) (c : RecordCache) :
  currentFile a = Some f -> cache a = Some c ->
  TrimSpace (optQuery options) <> EmptyString -> optUseLucene options = false ->
  optSelectedField options = EmptyString \/ optSelectedField options = "all" ->
  let found :=
    List.filter (fun r => recordMatches r
                            (foldCase (optCaseSensitive options) (optQuery options))
                            (optCaseSensitive options))
                (records c) in
  let off := Z.max 0 (optOffset options) in
  let lim := Z.min 1000 (if optLimit options <=? 0 then 50 else optLimit options) in
  let page := take (Z.to_nat lim) (drop (Z.to_nat off) found) in
  SearchRecords a options
  = Ok (mkSearchResult page off lim (totalCount c) (lenZ found)
          (off + lenZ page <? lenZ found) (optQuery options)).
Proof.
  intros Hfile Hcache Hquery Hplain Hall found off lim page.
  unfold SearchRecords, SearchRecordsWith.
  rewrite Hfile, Hcache, Hplain, (proj2 (String.eqb_neq _ _) Hquery).
  assert (Hfound :
    List.filter
      (fun record =>
         if negb (String.eqb (optSelectedField options) EmptyString)
            && negb (String.eqb (optSelectedField options) "all")
         then match Content record !! optSelectedField options with
              | Some fieldValue =>
                  matchFieldValue fieldValue (optQuery options) (optCaseSensitive options)
              | None => false
              end
         else recordMatches record
                (foldCase (optCaseSensitive options) (optQuery options))
                (optCaseSensitive options))
      (records c) = found).
  { subst found. destruct Hall as [->| ->]; reflexivity. }
  cbv zeta. rewrite Hfound.
  assert (Hoff : (if optOffset options <? 0 then 0 else optOffset options) = off).
  { subst off. destruct (Z.ltb_spec (optOffset options) 0); lia. }
  assert (Hlim : (if 1000 <? (if optLimit options <=? 0 then 50 else optLimit options)
                  then 1000
                  else (if optLimit options <=? 0 then 50 else optLimit options)) = lim).
  { subst lim.
    destruct (Z.ltb_spec 1000 (if optLimit options <=? 0 then 50 else optLimit options));
      lia. }
  rewrite Hoff, Hlim.
  assert (Hlimpos : 0 < lim) by (subst lim; destruct (Z.leb_spec (optLimit options) 0); lia).
  assert (Hoffnn : 0 <= off) by (subst off; lia).
  destruct (paginate_matches found off lim Hoffnn Hlimpos) as [Hbeyond Hwithin].
  fold page in Hbeyond, Hwithin.
  destruct (Z.leb_spec (lenZ found) off) as [Hle|Hgt].
  - destruct (Hbeyond Hle) as [-> ->]. reflexivity.
  - destruct (Hwithin Hgt) as [-> ->]. reflexivity.
Qed.

Lemma filter_length_le {A} (p q : A -> bool) (l : list A) :
  (forall x, p x = true -> q x = true) ->
  lenZ (List.filter p l) <= lenZ (List.filter q l).
Proof.
  intros Hpq. unfold lenZ. induction l as [|x l IH]; simpl; [lia|].
  destruct (p x) eqn:Hp.
  - rewrite (Hpq x Hp). simpl. lia.
  - destruct (q x); simpl; lia.
Qed.

Lemma leftAssoc_two_bin ty a b rest :
  exists l r, leftAssoc ty (a :: b :: rest) = Some (binNode ty l r).
Proof.
  unfold leftAssoc. simpl. generalize a b.
  induction rest as [|c rest IH]; intros x y; simpl; [eauto|].
  apply (IH (Some (binNode ty x y)) c).
Qed.

(** A query that compiles to a term without a field is an atom without a
    colon, and the term is the query with its surrounding white space
    removed. *)
Lemma parseLuceneQuery_term_value query value :
  parseLuceneQuery query = Some (leafNode "term" EmptyString value) ->
  value = TrimSpace query.
Proof.
  rewrite parseLuceneQuery_unfold, parseBody_topDownSplit. unfold topDownSplit.
  destruct (String.eqb (TrimSpace query) EmptyString); [intros H; discriminate H|].
  set (q := TrimSpace query).
  destruct (Contains q " OR ") eqn:Hor.
  { pose proof (Contains_Split_two q " OR " ltac:(discriminate) Hor) as H2.
    destruct (Split q " OR ") as [|p0 [|p1 rest]]; simpl in H2; try lia.
    destruct (leftAssoc_two_bin "or" (parseLuceneQuery (TrimSpace p0))
                (parseLuceneQuery (TrimSpace p1))
                (map (fun part => parseLuceneQuery (TrimSpace part)) rest))
      as (l & r & Hbin).
    simpl map. rewrite Hbin. intros H. discriminate H. }
  destruct (Contains q " AND ") eqn:Hand.
  { pose proof (Contains_Split_two q " AND " ltac:(discriminate) Hand) as H2.
    destruct (Split q " AND ") as [|p0 [|p1 rest]]; simpl in H2; try lia.
    destruct (leftAssoc_two_bin "and" (parseLuceneQuery (TrimSpace p0))
                (parseLuceneQuery (TrimSpace p1))
                (map (fun part => parseLuceneQuery (TrimSpace part)) rest))
      as (l & r & Hbin).
    simpl map. rewrite Hbin. intros H. discriminate H. }
  destruct (HasPrefix q "NOT "); [intros H; discriminate H|].
  unfold parseAtom.
  destruct (Contains q ":").
  - destruct (SplitN2 q ":") as [|p0 [|p1 [|p2 rest]]]; cbv zeta;
      repeat match goal with
             | |- context [if ?b then _ else _] => destruct b
             end;
      intros H; injection H as H; try discriminate H; congruence.
  - destruct (isQuoted q); [intros H; discriminate H|].
    destruct (hasWildcard q); [intros H; discriminate H|].
    intros H. injection H as H. congruence.
Qed.

End PlainSearch.

(** X25.  For a query that compiles to a single term without a field,
    the term is the query with its surrounding white space removed.  The
    Lucene search matches the records whose line contains that term; the
    plain search over all fields matches the records whose line, or one of
    whose printed field values, contains the query as it was typed,
    surrounding white space included.  Both return the window at the offset
    and the limit of their matches.  When the query has no surrounding
    white space the plain search finds what the Lucene search finds, and
    possibly more; with white space around it the plain search can find
    less: [" john "] finds the record of [{"name":"John"}] in Lucene syntax
    and nothing in the plain search. *)
Theorem X25_plain_search_finds_the_term_matches
    (a : App) (f : JSONLFile) (c : RecordCache)
    (query value : string) (caseSensitive : bool) (selected : string)
    (offset limit : Z)
    (Hfile : currentFile a = Some f) (Hcache : cache a = Some c)
    (Hall : selected = EmptyString \/ selected = "all")
    (Hterm : parseLuceneQuery query = Some (leafNode "term" EmptyString value)) :
  let term := foldCase caseSensitive (TrimSpace query) in
  let typed := foldCase caseSensitive query in
  let inLine := fun r =>
    negb (String.eqb (RawJSON r) EmptyString)
    && Contains (foldCase caseSensitive (RawJSON r)) term in
  let inLineOrValue := fun r =>
    Contains (foldCase caseSensitive (RawJSON r)) typed
    || existsb (fun kv : string * JSONValue =>
                  Contains (foldCase caseSensitive (Sprint (snd kv))) typed)
               (map_to_list (Content r)) in
  let off := Z.max 0 offset in
  let lim := Z.min 1000 (if limit <=? 0 then 50 else limit) in
  value = TrimSpace query
  /\ (exists lucene plain,
        SearchRecords a (mkSearchOptions query caseSensitive true selected offset limit)
        = Ok lucene
        /\ SearchRecords a (mkSearchOptions query caseSensitive false selected offset limit)
           = Ok plain
        /\ srRecords lucene
           = take (Z.to_nat lim) (drop (Z.to_nat off) (List.filter inLine (records c)))
        /\ srRecords plain
           = take (Z.to_nat lim)
                  (drop (Z.to_nat off) (List.filter inLineOrValue (records c)))
        /\ srTotalMatches lucene = lenZ (List.filter inLine (records c))
        /\ srTotalMatches plain = lenZ (List.filter inLineOrValue (records c))
        /\ (TrimSpace query = query ->
            srTotalMatches lucene <= srTotalMatches plain
            /\ (forall r, inLine r = true -> inLineOrValue r = true)))
  /\ (parseLuceneQuery " john " = Some (leafNode "term" EmptyString "john")
      /\ SearchRecords johnApp (mkSearchOptions " john " false true EmptyString 0 10)
         = Ok (mkSearchResult [recordOf 1 john] 0 10 1 1 false " john ")
      /\ SearchRecords johnApp (mkSearchOptions " john " false false EmptyString 0 10)
         = Ok (mkSearchResult [] 0 10 1 0 false " john ")).
Proof.
  intros term typed inLine inLineOrValue off lim.
  pose proof (parseLuceneQuery_term_value query value Hterm) as Hvalue.
  assert (Hquery : TrimSpace query <> EmptyString).
  { intros Hblank. rewrite (parseLuceneQuery_blank _ Hblank) in Hterm. discriminate Hterm. }
  assert (Hlucene : forall r,
             evaluateLuceneQuery (parseLuceneQuery query) r caseSensitive = inLine r).
  { intros r. rewrite Hterm, Hvalue. subst inLine term. cbv beta.
    change (evaluateLuceneQuery (Some (leafNode "term" EmptyString (TrimSpace query))) r
              caseSensitive)
      with (matchTerm (RawJSON r) (TrimSpace query) caseSensitive).
    unfold matchTerm. destruct (String.eqb (RawJSON r) EmptyString); reflexivity. }
  assert (Hplain : forall r,
             recordMatches r (foldCase caseSensitive query) caseSensitive
             = inLineOrValue r).
  { intros r. subst inLineOrValue typed. cbv beta. unfold recordMatches.
    destruct (Contains (foldCase caseSensitive (RawJSON r)) _); reflexivity. }
  split; [exact Hvalue|]. split.
  - do 2 eexists.
    split; [apply (SearchRecords_lucene a _ f c); assumption || reflexivity|].
    split; [apply (SearchRecords_plain a _ f c); assumption || reflexivity|].
    cbn [srRecords srTotalMatches optQuery optCaseSensitive optOffset optLimit].
    rewrite (List.filter_ext _ _ Hlucene), (List.filter_ext _ _ Hplain).
    split; [reflexivity|]. split; [reflexivity|]. split; [reflexivity|].
    split; [reflexivity|].
    intros Htrim.
    assert (Hsub : forall r, inLine r = true -> inLineOrValue r = true).
    { intros r Hr. subst inLine inLineOrValue term typed. cbv beta in *.
      rewrite Htrim in Hr. apply andb_true_iff in Hr as [_ ->]. reflexivity. }
    split; [apply filter_length_le, Hsub|exact Hsub].
  - split; [vm_compute; reflexivity|]. split; vm_compute; reflexivity.
Qed.

Lemma X25_plain_search_witness :
  let term := foldCase false (TrimSpace "john") in
  let typed := foldCase false "john" in
  let inLine := fun r =>
    negb (String.eqb (RawJSON r) EmptyString)
    && Contains (foldCase false (RawJSON r)) term in
  let inLineOrValue := fun r =>
    Contains (foldCase false (RawJSON r)) typed
    || existsb (fun kv : string * JSONValue =>
                  Contains (foldCase false (Sprint (snd kv))) typed)
               (map_to_list (Content r)) in
  let off := Z.max 0 0 in
  let lim := Z.min 1000 (if 10 <=? 0 then 50 else 10) in
  "john" = TrimSpace "john"
  /\ (exists lucene plain,
        SearchRecords johnApp (mkSearchOptions "john" false true EmptyString 0 10)
        = Ok lucene
        /\ SearchRecords johnApp (mkSearchOptions "john" false false EmptyString 0 10)
           = Ok plain
        /\ srRecords lucene
           = take (Z.to_nat lim)
                  (drop (Z.to_nat off)
                        (List.filter inLine
                                     (records (mkRecordCache [recordOf 1 john] 50 1))))
        /\ srRecords plain
           = take (Z.to_nat lim)
                  (drop (Z.to_nat off)
                        (List.filter inLineOrValue
                                     (records (mkRecordCache [recordOf 1 john] 50 1))))
        /\ srTotalMatches lucene
           = lenZ (List.filter inLine (records (mkRecordCache [recordOf 1 john] 50 1)))
        /\ srTotalMatches plain
           = lenZ (List.filter inLineOrValue
                               (records (mkRecordCache [recordOf 1 john] 50 1)))
        /\ (TrimSpace "john" = "john" ->
            srTotalMatches lucene <= srTotalMatches plain
            /\ (forall r, inLine r = true -> inLineOrValue r = true)))
  /\ (parseLuceneQuery " john " = Some (leafNode "term" EmptyString "john")
      /\ SearchRecords johnApp (mkSearchOptions " john " false true EmptyString 0 10)
         = Ok (mkSearchResult [recordOf 1 john] 0 10 1 1 false " john ")
      /\ SearchRecords johnApp (mkSearchOptions " john " false false EmptyString 0 10)
         = Ok (mkSearchResult [] 0 10 1 0 false " john ")).
Proof.
  apply (X25_plain_search_finds_the_term_matches johnApp johnFile
           (mkRecordCache [recordOf 1 john] 50 1) "john" "john" false EmptyString 0 10);
    [reflexivity|reflexivity|left; reflexivity|vm_compute; reflexivity].
Defined.
